(** * Wav2Bin: sector-aligned BIN assembly and CUE sheet emission

    A shallow embedding of [Mac/Wav2Bin/main.cpp].  The program reads PCM WAV
    files, appends each payload, zero-padded to whole 2352-byte CD sectors, to
    one BIN image, and writes a CUE sheet whose INDEX lines carry the frame
    offset of every track as MM:SS:FF.

    Modelling choices, all taken from the source:
    - [uint32_t] values are integers in [Z], reduced modulo 2^32 where the
      source arithmetic can wrap ([wrap32]);
    - [double] values are IEEE 754 binary64 numbers, through the executable
      specification [SpecFloat] of the standard library (module [Binary64]);
    - files are lists of bytes; the file system is seen through the result of
      opening a path for reading or for writing ([FileSystem]);
    - a C++ exception is the outcome [Throw] with the text of [what()];
    - a step on which the C++ standard fixes no behaviour (the use of a
      member of [WAVHeader] that a short read left uninitialised, a [double]
      converted to [uint32_t] outside the range of the target type, a read
      past the end of the buffer) is the outcome [Undefined];
    - [std::ofstream] formatting keeps the stream's field width and fill
      character ([ostream]).

    Outside the model: memory and disk space are assumed to suffice (no
    [std::bad_alloc], no failed write), and the input files are assumed not
    to change during a run; in particular the BIN path is not one of the
    inputs.  A file is named by the spelling of its path: two output paths
    name the same file exactly when they are the same string. *)

From Stdlib Require Import ZArith List String Ascii Bool Lia.
From Stdlib Require Import Strings.Byte Numbers.DecimalString Numbers.DecimalPos Numbers.DecimalN.
From Stdlib Require Import Floats.SpecFloat.
Import ListNotations.
Local Open Scope string_scope.
Local Open Scope list_scope.
Local Open Scope Z_scope.

(** ** IEEE 754 binary64 arithmetic, as used by the size computation *)

Module Binary64.

Definition prec : Z := 53.
Definition emax : Z := 1024.

Definition double : Type := spec_float.

(** Conversion of an integer ([uint32_t] or [int]) to [double]; exact below
    2^53, rounded to nearest even otherwise. *)
Definition of_Z (n : Z) : double := binary_normalize prec emax n 0 false.

Definition div : double -> double -> double := SFdiv prec emax.
Definition mul : double -> double -> double := SFmul prec emax.

(** [std::ceil]: the least integral value not below the argument.  The
    result is always representable; zeros, infinities and NaN are returned
    unchanged. *)
Definition ceil (x : double) : double :=
  match x with
  | S754_finite s m e =>
      if 0 <=? e then x
      else
        let q := Z.pos m / 2 ^ (- e) in
        let r := Z.pos m mod 2 ^ (- e) in
        if s then
          match q with
          | 0 => S754_zero true
          | _ => binary_normalize prec emax (- q) 0 true
          end
        else binary_normalize prec emax (if r =? 0 then q else q + 1) 0 false
  | _ => x
  end.

(** The value of a finite number with its fractional part discarded. *)
Definition trunc (x : double) : option Z :=
  match x with
  | S754_zero _ => Some 0
  | S754_finite s m e =>
      Some (cond_Zopp s (if 0 <=? e then Z.pos m * 2 ^ e else Z.pos m / 2 ^ (- e)))
  | _ => None
  end.

(** Floating-integral conversion to [uint32_t]: truncation towards zero;
    [None] when the truncated value does not fit the target type (or the
    argument is not finite), where the conversion has no defined result. *)
Definition to_uint32 (x : double) : option Z :=
  match trunc x with
  | Some n => if (0 <=? n) && (n <? 2 ^ 32) then Some n else None
  | None => None
  end.

(** [is_int x n]: [x] is the normalised binary64 number whose value is the
    positive integer [n]. *)
Definition is_int (x : double) (n : Z) : Prop :=
  exists m e, x = S754_finite false m e /\ -52 <= e <= 0
              /\ 2 ^ 52 <= Z.pos m < 2 ^ 53 /\ Z.pos m = n * 2 ^ (- e).

End Binary64.

(** ** Constants *)

Definition CD_SECTOR_SIZE : Z := 2352.
Definition CD_FRAMES_PER_SECOND : Z := 75.
Definition CD_BYTES_PER_FRAME : Z := CD_SECTOR_SIZE.

(** Reduction of an arithmetic result to [uint32_t]. *)
Definition wrap32 (z : Z) : Z := z mod 2 ^ 32.

(** ** Text helpers *)

Definition nl : string := String "010"%char EmptyString.
Definition dquote : string := String "034"%char EmptyString.

(** Decimal digits of a non-negative integer, as [operator<<] prints an
    unsigned value in the default locale. *)
Definition decimal (n : Z) : string := NilZero.string_of_uint (N.to_uint (Z.to_N n)).

Fixpoint replicate (n : nat) (c : ascii) : string :=
  match n with
  | O => EmptyString
  | S n' => String c (replicate n' c)
  end.

(** ** WAV file header *)

Record WAVHeader := {
  chunkID : list byte;
  chunkSize : Z;
  format : list byte;
  subchunk1ID : list byte;
  subchunk1Size : Z;
  audioFormat : Z;
  numChannels : Z;
  sampleRate : Z;
  byteRate : Z;
  blockAlign : Z;
  bitsPerSample : Z;
  subchunk2ID : list byte;
  subchunk2Size : Z
}.

Definition sizeof_WAVHeader : nat := 44.

Definition byte_val (b : byte) : Z := Z.of_N (Byte.to_N b).

(** Little-endian value of a run of bytes. *)
Fixpoint le_combine (l : list byte) : Z :=
  match l with
  | [] => 0
  | b :: t => byte_val b + 256 * le_combine t
  end.

Definition slice (off len : nat) (l : list byte) : list byte :=
  firstn len (skipn off l).

(** The object representation of [WAVHeader]: every member is naturally
    aligned, so the members lie back to back in 44 bytes; integers are
    little-endian. *)
Definition decode_WAVHeader (raw : list byte) : WAVHeader :=
  {| chunkID := slice 0 4 raw;
     chunkSize := le_combine (slice 4 4 raw);
     format := slice 8 4 raw;
     subchunk1ID := slice 12 4 raw;
     subchunk1Size := le_combine (slice 16 4 raw);
     audioFormat := le_combine (slice 20 2 raw);
     numChannels := le_combine (slice 22 2 raw);
     sampleRate := le_combine (slice 24 4 raw);
     byteRate := le_combine (slice 28 4 raw);
     blockAlign := le_combine (slice 32 2 raw);
     bitsPerSample := le_combine (slice 34 2 raw);
     subchunk2ID := slice 36 4 raw;
     subchunk2Size := le_combine (slice 40 4 raw) |}.

Record TrackInfo := {
  title : string;
  offsetFrames : Z
}.

(** ** Outcomes and the file system *)

Inductive result (A : Type) : Type :=
| Ok (a : A)
| Throw (what : string)
| Undefined.
Arguments Ok {A} a.
Arguments Throw {A} what.
Arguments Undefined {A}.

Record FileSystem := {
  (** the bytes an input stream opened on the path delivers, [None] when the
      stream fails to open *)
  ifstream_open : string -> option (list byte);
  (** whether an output stream opens on the path *)
  ofstream_open : string -> bool
}.

(** ** Input streams *)

(** [wavFile.read(&header, sizeof(WAVHeader))] when the stream delivers the
    whole header: the header and the rest of the stream.  [None] when fewer
    than 44 bytes arrive: the bytes that arrive are stored at the start of
    the header, the members after them stay uninitialised, and the stream
    fails. *)
Definition read_WAVHeader (wavFile : list byte) : option (WAVHeader * list byte) :=
  if (List.length wavFile <? sizeof_WAVHeader)%nat then None
  else Some (decode_WAVHeader (firstn sizeof_WAVHeader wavFile),
             skipn sizeof_WAVHeader wavFile).

(** [wavFile.read(p, n)] on a good stream: up to [n] bytes, fewer at end of
    file. *)
Definition istream_read (n : Z) (wavFile : list byte) : list byte :=
  firstn (Z.to_nat n) wavFile.

(** Bytes stored from the start of a buffer; [None] when they run past its
    end. *)
Definition store (buffer src : list byte) : option (list byte) :=
  if (List.length src <=? List.length buffer)%nat
  then Some (src ++ skipn (List.length src) buffer)
  else None.

(** [binFile.write(p, n)]: the first [n] bytes of the buffer. *)
Definition ostream_write (buffer : list byte) (n : Z) : list byte :=
  firstn (Z.to_nat n) buffer.

(** ** Formatted output streams *)

Record ostream := {
  written : string;
  width : nat;
  fill : ascii
}.

Definition ostream_init : ostream :=
  {| written := EmptyString; width := 0; fill := " "%char |}.

(** Padding on the left (the default adjustment) up to the field width. *)
Definition padded (o : ostream) (s : string) : string :=
  (replicate (width o - String.length s) (fill o) ++ s)%string.

(** Insertion of a character string: padded to the field width, which is
    then reset. *)
Definition put_string (s : string) (o : ostream) : ostream :=
  {| written := (written o ++ padded o s)%string; width := 0; fill := fill o |}.

(** Insertion of an unsigned integer. *)
Definition put_unsigned (n : Z) (o : ostream) : ostream :=
  put_string (decimal n) o.

Definition setw (n : nat) (o : ostream) : ostream :=
  {| written := written o; width := n; fill := fill o |}.

Definition setfill (c : ascii) (o : ostream) : ostream :=
  {| written := written o; width := width o; fill := c |}.

(** A chain [os << a << b << ...], left to right. *)
Definition insert (ops : list (ostream -> ostream)) (o : ostream) : ostream :=
  fold_left (fun acc op => op acc) ops o.

(** ** [std::filesystem::path::stem] for POSIX paths *)

Definition slash : ascii := "/"%char.
Definition dot : ascii := "."%char.

(** Longest prefix without the character [c], and whether [c] occurs. *)
Fixpoint span_until (c : ascii) (l : list ascii) : list ascii * option (list ascii) :=
  match l with
  | [] => ([], None)
  | a :: t =>
      if Ascii.eqb a c then ([], Some t)
      else let '(pre, post) := span_until c t in (a :: pre, post)
  end.

(** The last component of a path: what follows the last directory
    separator. *)
Definition filename (p : string) : string :=
  string_of_list_ascii (rev (fst (span_until slash (rev (list_ascii_of_string p))))).

(** The file name without its extension: up to the last period, unless that
    period is the first character or the name is [.] or [..]. *)
Definition stem (p : string) : string :=
  let f := filename p in
  if (f =? ".")%string || (f =? "..")%string then f
  else
    match span_until dot (rev (list_ascii_of_string f)) with
    | (_, None) => f
    | (_, Some []) => f
    | (_, Some base) => string_of_list_ascii (rev base)
    end.

(** ** [writeCUEFile] *)

(** The body of the loop over [tracks], for the track at index [i]. *)
Definition writeCUEFile_body (i : nat) (track : TrackInfo) (cueFile : ostream) : ostream :=
  let cueFile :=
    insert [ put_string "  TRACK "; put_unsigned (Z.of_nat i + 1);
             put_string (" AUDIO" ++ nl)%string ] cueFile in
  let cueFile :=
    insert [ put_string ("    TITLE " ++ dquote)%string; put_string (title track);
             put_string (dquote ++ nl)%string ] cueFile in
  insert [ put_string "    INDEX 01 ";
           setw 2; setfill "0"%char;
           put_unsigned (offsetFrames track / (CD_FRAMES_PER_SECOND * 60));
           put_string ":";
           setw 2; setfill "0"%char;
           put_unsigned ((offsetFrames track / CD_FRAMES_PER_SECOND) mod 60);
           put_string ":";
           setw 2; setfill "0"%char;
           put_unsigned (offsetFrames track mod CD_FRAMES_PER_SECOND);
           put_string nl ] cueFile.

Fixpoint writeCUEFile_loop (i : nat) (tracks : list TrackInfo) (cueFile : ostream) : ostream :=
  match tracks with
  | [] => cueFile
  | track :: rest => writeCUEFile_loop (S i) rest (writeCUEFile_body i track cueFile)
  end.

(** The text written to the CUE file, or the exception thrown. *)
Definition writeCUEFile (fs : FileSystem) (cueFilePath binFileName : string)
    (tracks : list TrackInfo) : result string :=
  if negb (ofstream_open fs cueFilePath)
  then Throw "Failed to open CUE file for writing."
  else
    let cueFile :=
      insert [ put_string ("FILE " ++ dquote)%string; put_string binFileName;
               put_string (dquote ++ " BINARY" ++ nl)%string ] ostream_init in
    Ok (written (writeCUEFile_loop 0 tracks cueFile)).

(** ** [convertWAVToBIN] *)

(** [std::ceil(static_cast<double>(rawAudioSize) / CD_SECTOR_SIZE) * CD_SECTOR_SIZE],
    converted to [uint32_t]. *)
Definition alignedSize (rawAudioSize : Z) : option Z :=
  Binary64.to_uint32
    (Binary64.mul
       (Binary64.ceil
          (Binary64.div (Binary64.of_Z rawAudioSize) (Binary64.of_Z CD_SECTOR_SIZE)))
       (Binary64.of_Z CD_SECTOR_SIZE)).

(** What the loop has produced so far. *)
Record ConvState := {
  binFile : list byte;
  tracks : list TrackInfo;
  currentOffsetFrames : Z
}.

Definition badHeader (header : WAVHeader) : bool :=
  negb (string_of_list_byte (chunkID header) =? "RIFF")%string
  || negb (string_of_list_byte (format header) =? "WAVE")%string
  || negb (audioFormat header =? 1).

(** A member of a header of which only the bytes [arrived] were stored:
    [None] when some byte of the member is uninitialised. *)
Definition member (off len : nat) (arrived : list byte) : option (list byte) :=
  if (off + len <=? List.length arrived)%nat then Some (slice off len arrived) else None.

(** The condition of the validation on such a header: the three comparisons
    from left to right, [||] stopping at the first that holds; [None] when a
    comparison that is reached reads an uninitialised member. *)
Definition badHeader_short (arrived : list byte) : option bool :=
  match member 0 4 arrived with
  | None => None
  | Some chunkID =>
      if negb (string_of_list_byte chunkID =? "RIFF")%string then Some true
      else
        match member 8 4 arrived with
        | None => None
        | Some format =>
            if negb (string_of_list_byte format =? "WAVE")%string then Some true
            else
              match member 20 2 arrived with
              | None => None
              | Some audioFormat => Some (negb (le_combine audioFormat =? 1))
              end
        end
  end.

(** One iteration of the loop over [wavFilePaths].  After a short read of the
    header the validation still runs: it throws when a comparison on the
    bytes that arrived holds, and otherwise the iteration goes on to use
    members that were never stored ([subchunk2Size] at the latest). *)
Definition convertWAVToBIN_body (fs : FileSystem) (wavFilePath : string) (st : ConvState)
  : result unit * ConvState :=
  match ifstream_open fs wavFilePath with
  | None => (Throw ("Failed to open WAV file: " ++ wavFilePath)%string, st)
  | Some wavFile =>
      match read_WAVHeader wavFile with
      | None =>
          match badHeader_short wavFile with
          | Some true =>
              (Throw ("Invalid or unsupported WAV file format: " ++ wavFilePath)%string, st)
          | _ => (Undefined, st)
          end
      | Some (header, wavFile) =>
          if badHeader header
          then (Throw ("Invalid or unsupported WAV file format: " ++ wavFilePath)%string, st)
          else
            let rawAudioSize := subchunk2Size header in
            match alignedSize rawAudioSize with
            | None => (Undefined, st)
            | Some alignedSize =>
                match store (repeat x00 (Z.to_nat alignedSize))
                            (istream_read rawAudioSize wavFile) with
                | None => (Undefined, st)
                | Some audioData =>
                    let track := {| title := stem wavFilePath;
                                    offsetFrames := currentOffsetFrames st |} in
                    (Ok tt,
                     {| binFile := binFile st ++ ostream_write audioData alignedSize;
                        tracks := tracks st ++ [track];
                        currentOffsetFrames :=
                          wrap32 (currentOffsetFrames st + alignedSize / CD_BYTES_PER_FRAME) |})
                end
            end
      end
  end.

(** The loop: an exception (or an undefined step) ends it, keeping what was
    written before. *)
Fixpoint convertWAVToBIN_loop (fs : FileSystem) (wavFilePaths : list string) (st : ConvState)
  : result unit * ConvState :=
  match wavFilePaths with
  | [] => (Ok tt, st)
  | wavFilePath :: rest =>
      match convertWAVToBIN_body fs wavFilePath st with
      | (Ok _, st') => convertWAVToBIN_loop fs rest st'
      | stopped => stopped
      end
  end.

(** What a call leaves behind: how it ended, the contents of the BIN file if
    it was created, and the [tracks] vector of the caller. *)
Record Conversion := {
  outcome : result unit;
  binContents : option (list byte);
  tracksOut : list TrackInfo
}.

Definition convertWAVToBIN (fs : FileSystem) (wavFilePaths : list string)
    (binFilePath : string) (tracks0 : list TrackInfo) : Conversion :=
  if negb (ofstream_open fs binFilePath)
  then {| outcome := Throw "Failed to open BIN file for writing.";
          binContents := None; tracksOut := tracks0 |}
  else
    let '(r, st) :=
      convertWAVToBIN_loop fs wavFilePaths
        {| binFile := []; tracks := tracks0; currentOffsetFrames := 0 |} in
    {| outcome := r; binContents := Some (binFile st); tracksOut := tracks st |}.

(** ** [main] *)

(** What a run leaves behind: the exit status, the text on the two standard
    streams, and what the run has put in the files at the BIN path and at
    the CUE path ([None] for a file the run did not create). *)
Record Process := {
  exit_status : Z;
  stdout : string;
  stderr : string;
  binOnDisk : option (list byte);
  cueOnDisk : option string
}.

Definition banner : string := ("Wav2Bin (c) 2024 Lorenzo Bachman" ++ nl)%string.
Definition usage (argv0 : string) : string :=
  ("Usage: " ++ argv0 ++ " <output BIN file> <output CUE file> <input WAV file(s)>" ++ nl)%string.
Definition completed : string := ("Conversion completed successfully." ++ nl)%string.
Definition reported (what : string) : string := ("Error: " ++ what ++ nl)%string.

Definition failed (what : string) (bin : option (list byte)) : Process :=
  {| exit_status := 1; stdout := EmptyString; stderr := reported what;
     binOnDisk := bin; cueOnDisk := None |}.

(** The run of the program on the argument vector [argv] (program name
    first); [None] when its behaviour is undefined.  The CUE file is opened
    after the BIN file is closed: when both paths are the same, opening it
    truncates the image and the file ends up holding the sheet. *)
Definition main (fs : FileSystem) (argv : list string) : option Process :=
  if Z.of_nat (List.length argv) <? 4 then
    match argv with
    | [] => None
    | argv0 :: _ =>
        Some {| exit_status := 1; stdout := banner; stderr := usage argv0;
                binOnDisk := None; cueOnDisk := None |}
    end
  else
    let binFilePath := nth 1 argv EmptyString in
    let cueFilePath := nth 2 argv EmptyString in
    let wavFilePaths := skipn 3 argv in
    let conv := convertWAVToBIN fs wavFilePaths binFilePath [] in
    match outcome conv with
    | Undefined => None
    | Throw what => Some (failed what (binContents conv))
    | Ok _ =>
        match writeCUEFile fs cueFilePath binFilePath (tracksOut conv) with
        | Undefined => None
        | Throw what => Some (failed what (binContents conv))
        | Ok cue =>
            Some {| exit_status := 0; stdout := completed; stderr := EmptyString;
                    binOnDisk := if (cueFilePath =? binFilePath)%string
                                 then Some (list_byte_of_string cue)
                                 else binContents conv;
                    cueOnDisk := Some cue |}
        end
    end.

(** ** Vocabulary of the statements

    The definitions named [spec_...] follow the words of the specification;
    the theorems compare them with the code.  The others name the parts of
    an input file and the shapes of the results. *)

(** [ceil(rawSize / 2352) * 2352] by integer ceiling division. *)
Definition spec_alignedSize (rawSize : Z) : Z :=
  (rawSize + (CD_SECTOR_SIZE - 1)) / CD_SECTOR_SIZE * CD_SECTOR_SIZE.

(** The largest payload size whose sector-aligned size fits [uint32_t]:
    1826091 sectors. *)
Definition max_alignable : Z := 4294966032.

Definition wav_bytes (fs : FileSystem) (path : string) : list byte :=
  match ifstream_open fs path with
  | Some wavFile => wavFile
  | None => []
  end.

(** The size of the payload the header declares. *)
Definition declared_size (wavFile : list byte) : Z :=
  subchunk2Size (decode_WAVHeader (firstn sizeof_WAVHeader wavFile)).

(** What follows the 44-byte header. *)
Definition payload (wavFile : list byte) : list byte := skipn sizeof_WAVHeader wavFile.

(** The payload bytes that arrive: at most the declared size. *)
Definition payload_read (wavFile : list byte) : list byte :=
  firstn (Z.to_nat (declared_size wavFile)) (payload wavFile).

(** The three checks of the header, as the specification lists them. *)
Definition passes_validation (header : WAVHeader) : Prop :=
  string_of_list_byte (chunkID header) = "RIFF"
  /\ string_of_list_byte (format header) = "WAVE"
  /\ audioFormat header = 1.

(** A valid input: the file opens, delivers a whole header, and the header
    passes the three checks. *)
Definition valid_wav (fs : FileSystem) (path : string) : bool :=
  match ifstream_open fs path with
  | Some wavFile =>
      (sizeof_WAVHeader <=? List.length wavFile)%nat
      && negb (badHeader (decode_WAVHeader (firstn sizeof_WAVHeader wavFile)))
  | None => false
  end.

(** The declared payload size is one whose aligned size fits [uint32_t]. *)
Definition alignable (fs : FileSystem) (path : string) : bool :=
  declared_size (wav_bytes fs path) <=? max_alignable.

Definition processable (fs : FileSystem) (path : string) : bool :=
  valid_wav fs path && alignable fs path.

(** The file fails a check of the validation, in terms of its bytes: its
    first four bytes are there and are not RIFF; or they are RIFF and bytes
    8-11 are there and are not WAVE; or both are as they should be and bytes
    20-21 are there and are not 01 00. *)
Definition fails_a_check (wavFile : list byte) : Prop :=
  ((4 <= List.length wavFile)%nat /\ slice 0 4 wavFile <> list_byte_of_string "RIFF")
  \/ ((12 <= List.length wavFile)%nat
      /\ slice 0 4 wavFile = list_byte_of_string "RIFF"
      /\ slice 8 4 wavFile <> list_byte_of_string "WAVE")
  \/ ((22 <= List.length wavFile)%nat
      /\ slice 0 4 wavFile = list_byte_of_string "RIFF"
      /\ slice 8 4 wavFile = list_byte_of_string "WAVE"
      /\ slice 20 2 wavFile <> [x01; x00]).

(** The header of the file fails a check: a whole header one of the three,
    a header cut short a check on the bytes that arrived. *)
Definition rejected (wavFile : list byte) : bool :=
  if (sizeof_WAVHeader <=? List.length wavFile)%nat
  then badHeader (decode_WAVHeader (firstn sizeof_WAVHeader wavFile))
  else match badHeader_short wavFile with
       | Some bad => bad
       | None => false
       end.

(** The two ways an input file raises an error: it does not open, or its
    header fails a check. *)
Definition fails_to_open (fs : FileSystem) (path : string) : bool :=
  match ifstream_open fs path with
  | Some _ => false
  | None => true
  end.

Definition fails_validation (fs : FileSystem) (path : string) : bool :=
  match ifstream_open fs path with
  | Some wavFile => rejected wavFile
  | None => false
  end.

(** The behaviour of the loop is defined on a list of inputs when the first
    file that is not a valid file of alignable size, if there is one, raises
    an error: it does not open, or its header is rejected.  (The other
    possibilities are a header cut short that is not rejected, and an
    accepted header that declares more than the largest alignable size.) *)
Fixpoint defined_run (fs : FileSystem) (paths : list string) : bool :=
  match paths with
  | [] => true
  | path :: rest =>
      if processable fs path then defined_run fs rest
      else fails_to_open fs path || fails_validation fs path
  end.

(** The message of the error a failing file raises. *)
Definition error_message (fs : FileSystem) (path : string) : string :=
  if fails_to_open fs path
  then ("Failed to open WAV file: " ++ path)%string
  else ("Invalid or unsupported WAV file format: " ++ path)%string.

(** The block of a track in the words of the specification: the payload
    read, then zeros up to the aligned size. *)
Definition spec_block (fs : FileSystem) (path : string) : list byte :=
  let wavFile := wav_bytes fs path in
  payload_read wavFile
  ++ repeat x00 (Z.to_nat (spec_alignedSize (declared_size wavFile))
                 - List.length (payload_read wavFile)).

(** [block] is the block of a track whose file is [wavFile]: as long as the
    aligned size the code computes, the payload up to the declared size or
    to the end of the file at its start, zeros after it. *)
Definition is_track_block (wavFile block : list byte) : Prop :=
  exists a,
    alignedSize (declared_size wavFile) = Some a
    /\ Z.of_nat (List.length block) = a
    /\ (forall j, (j < Z.to_nat (declared_size wavFile))%nat ->
                  (j < List.length (payload wavFile))%nat ->
                  nth_error block j = nth_error (payload wavFile) j)
    /\ (forall j, (Nat.min (Z.to_nat (declared_size wavFile))
                           (List.length (payload wavFile)) <= j < Z.to_nat a)%nat ->
                  nth_error block j = Some x00).

(** The aligned size the code computes for a track (0 where it computes
    none). *)
Definition track_alignedSize (fs : FileSystem) (path : string) : Z :=
  match alignedSize (declared_size (wav_bytes fs path)) with
  | Some a => a
  | None => 0
  end.

Fixpoint sum_aligned (fs : FileSystem) (paths : list string) : Z :=
  match paths with
  | [] => 0
  | path :: rest => track_alignedSize fs path + sum_aligned fs rest
  end.

(** Frames taken by a track, and by a run of tracks. *)
Definition track_frames (fs : FileSystem) (path : string) : Z :=
  track_alignedSize fs path / CD_BYTES_PER_FRAME.

Fixpoint sum_frames (fs : FileSystem) (paths : list string) : Z :=
  match paths with
  | [] => 0
  | path :: rest => track_frames fs path + sum_frames fs rest
  end.

(** The track records of a run that starts at frame [offset]. *)
Fixpoint tracks_from (fs : FileSystem) (offset : Z) (paths : list string) : list TrackInfo :=
  match paths with
  | [] => []
  | path :: rest =>
      {| title := stem path; offsetFrames := offset |}
      :: tracks_from fs (wrap32 (offset + track_frames fs path)) rest
  end.

(** A number padded on the left with zeros to two characters. *)
Definition zero_pad2 (s : string) : string :=
  (replicate (2 - String.length s) "0"%char ++ s)%string.

Definition two_digits (n : Z) : string := zero_pad2 (decimal n).

(** MM:SS:FF of a frame offset, by the formulas of the specification. *)
Definition timecode (offset : Z) : string :=
  (two_digits (offset / (75 * 60)) ++ ":" ++ two_digits ((offset / 75) mod 60)
   ++ ":" ++ two_digits (offset mod 75))%string.

Definition cue_file_line (binFileName : string) : string :=
  ("FILE " ++ dquote ++ binFileName ++ dquote ++ " BINARY" ++ nl)%string.

Definition cue_index_line (offset : Z) : string :=
  ("    INDEX 01 " ++ timecode offset ++ nl)%string.

(** The three lines of a track, with the track number rendered by
    [number]. *)
Definition cue_track (number : Z -> string) (n : Z) (track : TrackInfo) : string :=
  ("  TRACK " ++ number n ++ " AUDIO" ++ nl
   ++ "    TITLE " ++ dquote ++ title track ++ dquote ++ nl
   ++ cue_index_line (offsetFrames track))%string.

Fixpoint cue_tracks (number : Z -> string) (n : Z) (tracks : list TrackInfo) : string :=
  match tracks with
  | [] => EmptyString
  | track :: rest => (cue_track number n track ++ cue_tracks number (n + 1) rest)%string
  end.

(** The cue sheet of the specification: track numbers in two digits. *)
Definition spec_cue_sheet (binFileName : string) (tracks : list TrackInfo) : string :=
  (cue_file_line binFileName ++ cue_tracks two_digits 1 tracks)%string.

(** The cue sheet with track numbers in plain decimal. *)
Definition plain_cue_sheet (binFileName : string) (tracks : list TrackInfo) : string :=
  (cue_file_line binFileName ++ cue_tracks decimal 1 tracks)%string.

(** ** Reading the results back *)

(** The number a reader of the sheet takes from a run of decimal digits. *)
Definition read_decimal (s : string) : option Z :=
  option_map (fun d => Z.of_N (N.of_uint d)) (NilZero.uint_of_string s).

(** The positions of an input file the conversion looks at: [chunkID],
    [format], [audioFormat], [subchunk2Size] and the payload. *)
Definition significant (i : nat) : bool :=
  (i <? 4)%nat
  || ((8 <=? i)%nat && (i <? 12)%nat)
  || ((20 <=? i)%nat && (i <? 22)%nat)
  || (40 <=? i)%nat.

(** A track record moved later on the disc by [frames] frames, in the 32-bit
    arithmetic of [offsetFrames]. *)
Definition shift_track (frames : Z) (t : TrackInfo) : TrackInfo :=
  {| title := title t; offsetFrames := wrap32 (offsetFrames t + frames) |}.

(** ** Sample inputs *)

Fixpoint le_split (n : nat) (z : Z) : list byte :=
  match n with
  | O => []
  | S n' =>
      match Byte.of_N (Z.to_N (z mod 256)) with
      | Some b => b
      | None => x00
      end :: le_split n' (z / 256)
  end.

(** A canonical 16-bit stereo 44.1 kHz PCM header declaring [size] bytes. *)
Definition pcm_header (size : Z) : list byte :=
  list_byte_of_string "RIFF" ++ le_split 4 (36 + size)
  ++ list_byte_of_string "WAVEfmt " ++ le_split 4 16 ++ le_split 2 1 ++ le_split 2 2
  ++ le_split 4 44100 ++ le_split 4 176400 ++ le_split 2 4 ++ le_split 2 16
  ++ list_byte_of_string "data" ++ le_split 4 size.

(** A disc of small files: [one.wav] fills one sector exactly, [two.wav]
    holds one byte, [short.wav] declares three bytes and holds one,
    [empty.wav] declares none, [mp3.wav] is not RIFF, [huge.wav] declares
    the largest 32-bit size, [full.wav] the largest alignable one. *)
Definition sample_fs : FileSystem :=
  {| ifstream_open := fun path =>
       if (path =? "/music/one.wav")%string
       then Some (pcm_header 2352 ++ repeat x07 2352)
       else if (path =? "two.wav")%string then Some (pcm_header 1 ++ [x2a])
       else if (path =? "short.wav")%string then Some (pcm_header 3 ++ [x0a])
       else if (path =? "empty.wav")%string then Some (pcm_header 0)
       else if (path =? "mp3.wav")%string
       then Some (list_byte_of_string "ID3" ++ skipn 3 (pcm_header 8))
       else if (path =? "huge.wav")%string then Some (pcm_header 4294967295)
       else if (path =? "full.wav")%string then Some (pcm_header max_alignable)
       else None;
     ofstream_open := fun path => negb (path =? "/readonly/out.cue")%string |}.

(** The same disc on another volume: files outside the sample differ. *)
Definition other_fs : FileSystem :=
  {| ifstream_open := fun path =>
       if (path =? "unrelated.wav")%string then Some (pcm_header 7)
       else ifstream_open sample_fs path;
     ofstream_open := fun path =>
       negb (path =? "/readonly/out.cue")%string && negb (path =? "elsewhere.bin")%string |}.

(** A volume on which every path holds a valid file without payload. *)
Definition silent_fs : FileSystem :=
  {| ifstream_open := fun _ => Some (pcm_header 0);
     ofstream_open := fun _ => true |}.

(** Files that end before their header does, beside the sample files:
    [notes.txt] holds ten characters of text, [riff.wav] the four characters
    RIFF and nothing else, [cut.wav] the first forty bytes of a canonical
    header. *)
Definition cut_fs : FileSystem :=
  {| ifstream_open := fun path =>
       if (path =? "notes.txt")%string then Some (list_byte_of_string "hello worl")
       else if (path =? "riff.wav")%string then Some (list_byte_of_string "RIFF")
       else if (path =? "cut.wav")%string then Some (firstn 40 (pcm_header 8))
       else ifstream_open sample_fs path;
     ofstream_open := ofstream_open sample_fs |}.

(** A header that passes the three checks and declares [size] bytes, with
    every other field unlike a CD track: mono, 8 kHz, 8 bits, odd chunk
    names and sizes. *)
Definition lofi_header (size : Z) : list byte :=
  list_byte_of_string "RIFF" ++ le_split 4 0
  ++ list_byte_of_string "WAVEjunk" ++ le_split 4 99 ++ le_split 2 1 ++ le_split 2 1
  ++ le_split 4 8000 ++ le_split 4 8000 ++ le_split 2 1 ++ le_split 2 8
  ++ list_byte_of_string "LIST" ++ le_split 4 size.

(** Variants of the sample files: [two.wav] with the other header,
    [short.wav] completed with zero bytes, [/music/one.wav] followed by a
    further chunk. *)
Definition variant_fs : FileSystem :=
  {| ifstream_open := fun path =>
       if (path =? "two.wav")%string then Some (lofi_header 1 ++ [x2a])
       else if (path =? "short.wav")%string
       then Some ((pcm_header 3 ++ [x0a]) ++ repeat x00 4)
       else if (path =? "/music/one.wav")%string
       then Some ((pcm_header 2352 ++ repeat x07 2352) ++ list_byte_of_string "LISTinfo")
       else None;
     ofstream_open := fun _ => true |}.

(** * Binary64 arithmetic on integers

    The size computation divides, rounds up and multiplies integers below
    2^32 in binary64.  These lemmas follow [SpecFloat] through those
    operations: integers below 2^53 convert exactly, their products are
    exact, and the rounded quotient by 2352 lies strictly between the
    neighbouring integers unless the division is exact. *)

Module Binary64Facts.
Import Binary64.

(** ** Number of bits of a mantissa *)

Lemma digits2_pos_size (p : positive) : digits2_pos p = Pos.size p.
Proof. induction p; simpl; congruence. Qed.

Lemma digits2_pos_bounds (p : positive) :
  2 ^ (Z.pos (digits2_pos p) - 1) <= Z.pos p < 2 ^ Z.pos (digits2_pos p).
Proof.
  rewrite digits2_pos_size.
  pose proof (Pos.size_gt p) as Hgt.
  pose proof (Pos.size_le p) as Hle.
  apply Pos2Z.pos_lt_pos in Hgt.
  apply Pos2Z.pos_le_pos in Hle.
  rewrite Pos2Z.inj_pow in Hgt, Hle.
  change (Z.pos p~0) with (2 * Z.pos p) in Hle.
  replace (Z.pos (Pos.size p)) with (Z.succ (Z.pos (Pos.size p) - 1)) in Hle by lia.
  rewrite Z.pow_succ_r in Hle by lia.
  lia.
Qed.

Lemma digits2_pos_unique (p : positive) (d : Z) :
  2 ^ (d - 1) <= Z.pos p < 2 ^ d -> Z.pos (digits2_pos p) = d.
Proof.
  intros [Hlo Hhi].
  destruct (digits2_pos_bounds p) as [Hlo' Hhi'].
  assert (Hd : 0 < d).
  { destruct (Z.lt_trichotomy d 0) as [Hn | [Hz | Hp]]; [| | exact Hp].
    - rewrite Z.pow_neg_r in Hhi by lia. lia.
    - subst d. simpl in Hhi. lia. }
  destruct (Z.lt_trichotomy (Z.pos (digits2_pos p)) d) as [Hlt | [Heq | Hgt]]; [| exact Heq |].
  - assert (2 ^ Z.pos (digits2_pos p) <= 2 ^ (d - 1)) by (apply Z.pow_le_mono_r; lia). lia.
  - assert (2 ^ d <= 2 ^ (Z.pos (digits2_pos p) - 1)) by (apply Z.pow_le_mono_r; lia). lia.
Qed.

(** ** Shifting and rounding of mantissas *)

(** The test of [binary_round_aux] against overflow, for an exponent known
    to be in range. *)
Ltac exponent_fits :=
  match goal with
  | |- context [?e <=? 1024 - 53] =>
      replace (e <=? 1024 - 53) with true by (symmetry; apply Z.leb_le; lia)
  end.

Lemma shr_m_of_loc m l : shr_m (shr_record_of_loc m l) = m.
Proof. destruct l as [|[]]; reflexivity. Qed.

Lemma loc_of_shr_of_loc m l : loc_of_shr_record (shr_record_of_loc m l) = l.
Proof. destruct l as [|[]]; reflexivity. Qed.

Lemma shr_m_shr_1 mrs : 0 <= shr_m mrs -> shr_m (shr_1 mrs) = shr_m mrs / 2.
Proof.
  destruct mrs as [m r s]; simpl; intros Hm.
  destruct m as [|p|p]; [reflexivity | | lia].
  destruct p as [p|p|]; simpl shr_m.
  - rewrite Pos2Z.inj_xI. apply Z.div_unique with (r := 1); lia.
  - rewrite Pos2Z.inj_xO. apply Z.div_unique with (r := 0); lia.
  - reflexivity.
Qed.

Lemma shr_1_exact_even m :
  0 <= m -> shr_1 (Build_shr_record (2 * m) false false) = Build_shr_record m false false.
Proof. destruct m as [|p|p]; [reflexivity | reflexivity | lia]. Qed.

Lemma round_nearest_even_range m l :
  m <= round_nearest_even m l <= m + 1.
Proof.
  destruct l as [|[]]; simpl; try lia. destruct (Z.even m); lia.
Qed.

Lemma shr_fexp_unfold m e l :
  shr_fexp 53 1024 m e l =
  shr (shr_record_of_loc m l) e (Z.max (Zdigits2 m + e - 53) (-1074) - e).
Proof. reflexivity. Qed.

Lemma shr_fexp_53 m e l :
  2 ^ 52 <= m < 2 ^ 53 -> -1074 <= e ->
  shr_fexp 53 1024 m e l = (shr_record_of_loc m l, e).
Proof.
  intros Hm He. rewrite shr_fexp_unfold.
  destruct m as [|p|p]; try lia.
  simpl Zdigits2. rewrite (digits2_pos_unique p 53) by (simpl; lia).
  replace (Z.max (53 + e - 53) (-1074) - e) with 0 by lia. reflexivity.
Qed.

Lemma shr_fexp_54 m e l :
  2 ^ 53 <= m < 2 ^ 54 -> -1074 <= e ->
  shr_fexp 53 1024 m e l = (shr_1 (shr_record_of_loc m l), e + 1).
Proof.
  intros Hm He. rewrite shr_fexp_unfold.
  destruct m as [|p|p]; try lia.
  simpl Zdigits2. rewrite (digits2_pos_unique p 54) by (simpl; lia).
  replace (Z.max (54 + e - 53) (-1074) - e) with 1 by lia. reflexivity.
Qed.

(** Second stage of [binary_round_aux]: a rounded mantissa of 53 bits is kept,
    the carry 2^53 is renormalised to 2^52. *)
Lemma round_aux_finish (s : bool) (m e : Z) :
  2 ^ 52 <= m <= 2 ^ 53 -> -1074 <= e <= 969 ->
  exists m' e',
    (let '(mrs, e1) := shr_fexp 53 1024 m e loc_Exact in
     match shr_m mrs with
     | 0 => S754_zero s
     | Z.pos q => if e1 <=? 1024 - 53 then S754_finite s q e1 else S754_infinity s
     | Z.neg _ => S754_nan
     end) = S754_finite s m' e'
    /\ e <= e' <= e + 1 /\ Z.pos m' * 2 ^ (e' - e) = m
    /\ 2 ^ 52 <= Z.pos m' < 2 ^ 53.
Proof.
  intros Hm He.
  destruct (Z.eq_dec m (2 ^ 53)) as [-> | Hne].
  - rewrite shr_fexp_54 by lia.
    exists (Z.to_pos (2 ^ 52)), (e + 1).
    change (shr_record_of_loc (2 ^ 53) loc_Exact)
      with (Build_shr_record (2 * 2 ^ 52) false false).
    rewrite shr_1_exact_even by lia. simpl shr_m.
    change (2 ^ 52) with (Z.pos (Z.to_pos (2 ^ 52))) at 1.
    cbv iota.
    exponent_fits.
    replace (e + 1 - e) with 1 by lia.
    repeat split; try lia; reflexivity.
  - rewrite shr_fexp_53 by lia. simpl shr_m.
    destruct m as [|p|p]; try lia.
    exists p, e.
    exponent_fits.
    rewrite Z.sub_diag. repeat split; try lia.
Qed.

Lemma round_aux_weak (s : bool) (mz ez : Z) (l : location) :
  2 ^ 52 <= mz < 2 ^ 54 -> -1074 <= ez <= 960 ->
  exists m e,
    binary_round_aux 53 1024 s mz ez l = S754_finite s m e
    /\ ez <= e <= ez + 2
    /\ mz - 1 <= Z.pos m * 2 ^ (e - ez) <= mz + 2
    /\ (l = loc_Exact -> Z.even mz = true -> Z.pos m * 2 ^ (e - ez) = mz).
Proof.
  intros Hm He. unfold binary_round_aux.
  destruct (Z_lt_le_dec mz (2 ^ 53)) as [H53 | H54].
  - rewrite shr_fexp_53 by lia.
    rewrite shr_m_of_loc, loc_of_shr_of_loc.
    pose proof (round_nearest_even_range mz l) as Hr.
    destruct (round_aux_finish s (round_nearest_even mz l) ez) as (m' & e' & Heq & He' & Hv & _);
      [lia | lia |].
    exists m', e'. rewrite Heq. repeat split; try lia.
    intros -> _. simpl in Hv. exact Hv.
  - rewrite shr_fexp_54 by lia.
    set (mrs := shr_1 (shr_record_of_loc mz l)).
    assert (Hm0 : shr_m mrs = mz / 2).
    { unfold mrs. rewrite shr_m_shr_1; rewrite shr_m_of_loc; [reflexivity | clear mrs; lia]. }
    pose proof (round_nearest_even_range (shr_m mrs) (loc_of_shr_record mrs)) as Hr.
    assert (Hdiv : 2 * (mz / 2) <= mz < 2 * (mz / 2) + 2).
    { pose proof (Z.div_mod mz 2 ltac:(lia)). pose proof (Z.mod_pos_bound mz 2 ltac:(lia)). lia. }
    destruct (round_aux_finish s (round_nearest_even (shr_m mrs) (loc_of_shr_record mrs)) (ez + 1))
      as (m' & e' & Heq & He' & Hv & _); [lia | lia |].
    exists m', e'. rewrite Heq.
    assert (Hpow : 2 ^ (e' - ez) = 2 * 2 ^ (e' - (ez + 1))).
    { replace (e' - ez) with (Z.succ (e' - (ez + 1))) by lia.
      rewrite Z.pow_succ_r by lia. reflexivity. }
    repeat split; try lia.
    intros -> Hev.
    assert (Hmz : mz = 2 * (mz / 2)).
    { apply Z.even_spec in Hev. destruct Hev as [k ->].
      rewrite (Z.mul_comm 2 k), Z.div_mul by lia. lia. }
    assert (Hrec : mrs = Build_shr_record (mz / 2) false false).
    { unfold mrs. simpl shr_record_of_loc. rewrite Hmz at 1.
      apply shr_1_exact_even. lia. }
    rewrite Hrec in Hv. cbn [shr_m loc_of_shr_record round_nearest_even] in Hv.
    rewrite Hpow. lia.
Qed.

Lemma iter_pos_nat {A} (f : A -> A) (p : positive) (x : A) :
  iter_pos f p x = Nat.iter (Pos.to_nat p) f x.
Proof.
  revert x; induction p as [p IH | p IH |]; intros x; simpl iter_pos.
  - rewrite !IH, Pos2Nat.inj_xI.
    replace (S (2 * Pos.to_nat p))%nat with (Pos.to_nat p + S (Pos.to_nat p))%nat by lia.
    rewrite Nat.iter_add, Nat.iter_succ_r. reflexivity.
  - rewrite !IH, Pos2Nat.inj_xO.
    replace (2 * Pos.to_nat p)%nat with (Pos.to_nat p + Pos.to_nat p)%nat by lia.
    rewrite Nat.iter_add. reflexivity.
  - reflexivity.
Qed.

Lemma iter_shr_1_exact (k : nat) (m : Z) :
  0 <= m ->
  Nat.iter k shr_1 (Build_shr_record (m * 2 ^ Z.of_nat k) false false)
  = Build_shr_record m false false.
Proof.
  intros Hm. induction k as [|k IH].
  - simpl. rewrite Z.mul_1_r. reflexivity.
  - rewrite Nat.iter_succ_r, Nat2Z.inj_succ, Z.pow_succ_r by lia.
    replace (m * (2 * 2 ^ Z.of_nat k)) with (2 * (m * 2 ^ Z.of_nat k)) by lia.
    rewrite shr_1_exact_even by (apply Z.mul_nonneg_nonneg; lia).
    exact IH.
Qed.

Lemma shr_exact (m e n : Z) :
  0 <= m -> 0 <= n ->
  shr (Build_shr_record (m * 2 ^ n) false false) e n
  = (Build_shr_record m false false, e + n).
Proof.
  intros Hm Hn. destruct n as [|p|p]; [| | lia].
  - simpl. rewrite Z.mul_1_r, Z.add_0_r. reflexivity.
  - unfold shr. rewrite iter_pos_nat.
    rewrite <- (positive_nat_Z p) at 1.
    rewrite iter_shr_1_exact by exact Hm. reflexivity.
Qed.

(** A 53-bit mantissa with an in-range exponent is left alone by rounding. *)
Lemma round_aux_exact_53 (s : bool) (m : positive) (e : Z) :
  2 ^ 52 <= Z.pos m < 2 ^ 53 -> -1074 <= e <= 969 ->
  binary_round_aux 53 1024 s (Z.pos m) e loc_Exact = S754_finite s m e.
Proof.
  intros Hm He. unfold binary_round_aux.
  rewrite shr_fexp_53 by lia. cbn [shr_record_of_loc shr_m loc_of_shr_record round_nearest_even].
  rewrite shr_fexp_53 by lia. cbn [shr_record_of_loc shr_m].
  exponent_fits.
  reflexivity.
Qed.

(** Rounding an exactly representable value [v * 2^ex] given with a mantissa
    of any width at least 53 bits. *)
Lemma round_aux_exact_wide (s : bool) (v sh ex : Z) :
  2 ^ 52 <= v < 2 ^ 53 -> 0 <= sh -> -1074 <= ex -> ex + sh <= 969 ->
  binary_round_aux 53 1024 s (v * 2 ^ sh) ex loc_Exact
  = S754_finite s (Z.to_pos v) (ex + sh).
Proof.
  intros Hv Hsh Hex Hhi. unfold binary_round_aux.
  assert (Hpow : 0 < 2 ^ sh) by (apply Z.pow_pos_nonneg; lia).
  assert (Hdig : Zdigits2 (v * 2 ^ sh) = 53 + sh).
  { destruct (v * 2 ^ sh) as [|p|p] eqn:Hp; try nia.
    cbn [Zdigits2]. apply digits2_pos_unique. rewrite <- Hp.
    replace (53 + sh - 1) with (52 + sh) by lia.
    rewrite !Z.pow_add_r by lia. change (2 ^ 53) with (2 * 2 ^ 52) in *. nia. }
  rewrite shr_fexp_unfold, Hdig.
  replace (Z.max (53 + sh + ex - 53) (-1074) - ex) with sh by lia.
  cbn [shr_record_of_loc]. rewrite shr_exact by lia.
  cbn [shr_m loc_of_shr_record round_nearest_even].
  rewrite shr_fexp_53 by lia. cbn [shr_record_of_loc shr_m].
  destruct v as [|p|p]; try lia.
  exponent_fits.
  reflexivity.
Qed.

(** ** Integers as binary64 numbers *)

Lemma pos_iter_xO (m k : positive) : Z.pos (Pos.iter xO m k) = Z.pos m * 2 ^ Z.pos k.
Proof.
  induction k as [|k IH] using Pos.peano_ind.
  - simpl. lia.
  - rewrite Pos.iter_succ, Pos2Z.inj_xO, IH, Pos2Z.inj_succ, Z.pow_succ_r by lia. lia.
Qed.

Lemma of_Z_is_int (n : Z) : 0 < n < 2 ^ 53 -> is_int (of_Z n) n.
Proof.
  intros Hn. destruct n as [|p|p]; try lia.
  unfold of_Z, binary_normalize, binary_round, shl_align.
  pose proof (digits2_pos_bounds p) as Hd.
  set (d := Z.pos (digits2_pos p)) in *.
  assert (Hd53 : 1 <= d <= 53).
  { split; [unfold d; lia |].
    destruct (Z_le_gt_dec d 53) as [H|H]; [exact H|].
    assert (2 ^ 53 <= 2 ^ (d - 1)) by (apply Z.pow_le_mono_r; lia). lia. }
  replace (fexp prec emax (d + 0) - 0) with (d - 53)
    by (unfold fexp, emin, prec, emax; lia).
  replace (fexp prec emax (d + 0)) with (d - 53)
    by (unfold fexp, emin, prec, emax; lia).
  assert (Hscale : forall k, 0 <= k -> d + k = 53 ->
            2 ^ 52 <= Z.pos p * 2 ^ k < 2 ^ 53).
  { intros k Hk Hdk.
    replace 52 with ((d - 1) + k) by lia. replace 53 with (d + k) by lia.
    rewrite !Z.pow_add_r by lia.
    assert (0 < 2 ^ k) by (apply Z.pow_pos_nonneg; lia). nia. }
  destruct (d - 53) as [|q|q] eqn:Hq; try lia.
  - exists p, 0. split.
    + apply round_aux_exact_53; [|lia]. specialize (Hscale 0 ltac:(lia) ltac:(lia)).
      rewrite Z.mul_1_r in Hscale. exact Hscale.
    + specialize (Hscale 0 ltac:(lia) ltac:(lia)). rewrite Z.mul_1_r in Hscale.
      repeat split; try lia.
  - specialize (Hscale (Z.pos q) ltac:(lia) ltac:(lia)).
    exists (Pos.iter xO p q), (Z.neg q). split.
    + apply round_aux_exact_53; [rewrite pos_iter_xO; exact Hscale | lia].
    + rewrite pos_iter_xO. repeat split; try lia.
Qed.

Lemma trunc_is_int (x : double) (n : Z) : is_int x n -> trunc x = Some n.
Proof.
  intros (m & e & -> & He & Hm & Hv). unfold trunc, cond_Zopp.
  destruct (Z.leb_spec 0 e) as [H0 | H0].
  - assert (e = 0) by lia. subst e. simpl in Hv. rewrite Hv. f_equal. simpl. lia.
  - rewrite Hv, Z.div_mul; [reflexivity|].
    apply Z.pow_nonzero; lia.
Qed.

Lemma mul_is_int (x y : double) (a b : Z) :
  is_int x a -> is_int y b -> a * b < 2 ^ 53 -> is_int (mul x y) (a * b).
Proof.
  intros (ma & ea & -> & Hea & Hma & Hva) (mb & eb & -> & Heb & Hmb & Hvb) Hab.
  unfold mul, SFmul. cbn [xorb].
  assert (Hpa : 0 < 2 ^ (- ea)) by (apply Z.pow_pos_nonneg; lia).
  assert (Hpb : 0 < 2 ^ (- eb)) by (apply Z.pow_pos_nonneg; lia).
  assert (Ha : 0 < a) by nia.
  assert (Hb : 0 < b) by nia.
  assert (Hab0 : 0 < a * b) by nia.
  (* the product has [D] significant bits *)
  destruct (a * b) as [|pab|pab] eqn:Hpab; try lia.
  pose proof (digits2_pos_bounds pab) as HD.
  set (D := Z.pos (digits2_pos pab)) in *.
  assert (HD53 : 1 <= D <= 53).
  { split; [unfold D; lia |].
    destruct (Z_le_gt_dec D 53) as [H|H]; [exact H|].
    assert (2 ^ 53 <= 2 ^ (D - 1)) by (apply Z.pow_le_mono_r; lia). lia. }
  set (t := 53 - D).
  assert (Hv : 2 ^ 52 <= Z.pos pab * 2 ^ t < 2 ^ 53).
  { replace 52 with ((D - 1) + t) by (unfold t; lia).
    replace 53 with (D + t) by (unfold t; lia).
    rewrite !Z.pow_add_r by (unfold t; lia).
    assert (0 < 2 ^ t) by (apply Z.pow_pos_nonneg; unfold t; lia). nia. }
  (* exponents: the exact product is (a*b*2^t) * 2^(-ea-eb-t) * 2^(ea+eb) *)
  assert (Hsh : 0 <= - ea - eb - t).
  { (* 2^104 <= ma*mb = a*b*2^(-ea-eb) < 2^D * 2^(-ea-eb) *)
    destruct (Z_le_gt_dec 0 (- ea - eb - t)) as [H|H]; [exact H|exfalso].
    assert (Hprod : 2 ^ 104 <= Z.pos pab * 2 ^ (- ea - eb)).
    { rewrite <- Hpab. replace (- ea - eb) with (- ea + - eb) by lia.
      rewrite Z.pow_add_r by lia. change (2 ^ 104) with (2 ^ 52 * 2 ^ 52). nia. }
    assert (Hlt : Z.pos pab * 2 ^ (- ea - eb) < 2 ^ (D + (- ea - eb))).
    { rewrite Z.pow_add_r by lia.
      assert (0 < 2 ^ (- ea - eb)) by (apply Z.pow_pos_nonneg; lia). nia. }
    assert (2 ^ (D + (- ea - eb)) <= 2 ^ 104) by (apply Z.pow_le_mono_r; unfold t in H; lia).
    lia. }
  assert (Hfact : Z.pos (ma * mb) = (Z.pos pab * 2 ^ t) * 2 ^ (- ea - eb - t)).
  { assert (Hp2 : 2 ^ t * 2 ^ (- ea - eb - t) = 2 ^ (- ea) * 2 ^ (- eb)).
    { rewrite <- !Z.pow_add_r by (unfold t; lia). f_equal. lia. }
    rewrite Pos2Z.inj_mul, Hva, Hvb.
    transitivity (a * b * (2 ^ (- ea) * 2 ^ (- eb))); [ring|].
    rewrite Hpab, <- Hp2. ring. }
  rewrite Hfact.
  rewrite round_aux_exact_wide by lia.
  exists (Z.to_pos (Z.pos pab * 2 ^ t)), (ea + eb + (- ea - eb - t)).
  split; [reflexivity|].
  rewrite Z2Pos.id by lia.
  replace (- (ea + eb + (- ea - eb - t))) with t by lia.
  repeat split; unfold t in *; lia.
Qed.

(** ** Division by the sector size, rounded up *)

Lemma of_Z_sector : of_Z 2352 = S754_finite false 5172102697058304 (-41).
Proof. vm_compute. reflexivity. Qed.

Lemma div_core_sector (m1 : positive) (e1 : Z) :
  2 ^ 52 <= Z.pos m1 < 2 ^ 53 -> -52 <= e1 <= 0 ->
  SFdiv_core_binary 53 1024 (Z.pos m1) e1 5172102697058304 (-41)
  = ((Z.pos m1 * 2 ^ 53) / 5172102697058304, e1 - 12,
     new_location 5172102697058304 ((Z.pos m1 * 2 ^ 53) mod 5172102697058304)).
Proof.
  intros Hm He. unfold SFdiv_core_binary. cbn [Zdigits2].
  rewrite (digits2_pos_unique m1 53) by lia.
  rewrite (digits2_pos_unique 5172102697058304 53) by lia.
  replace (Z.min (fexp 53 1024 (53 + e1 - (53 + -41))) (e1 - -41)) with (e1 - 12)
    by (unfold fexp, emin; lia).
  replace (e1 - -41 - (e1 - 12)) with 53 by lia.
  cbv iota. rewrite Z.shiftl_mul_pow2 by lia.
  unfold Z.div, Z.modulo.
  destruct (Z.div_eucl (Z.pos m1 * 2 ^ 53) 5172102697058304) as [q r].
  reflexivity.
Qed.

(** Shape of the integer quotient computed by the division core when the
    dividend is the integer [raw] and the divisor is 2352. *)
Lemma sector_quotient (raw T : Z) :
  0 <= raw -> 33 <= T ->
  let k := raw / 2352 in
  let rho := raw mod 2352 in
  let w := (rho * 2 ^ T) / 2352 in
  (raw * 2 ^ T) / 2352 = k * 2 ^ T + w
  /\ (rho = 0 -> w = 0 /\ (raw * 2 ^ T) mod 2352 = 0)
  /\ (0 < rho -> 2 <= w /\ w + 3 < 2 ^ T).
Proof.
  intros Hraw HT k rho w.
  assert (Hpow : 2 ^ 33 <= 2 ^ T) by (apply Z.pow_le_mono_r; lia).
  pose proof (Z.div_mod raw 2352 ltac:(lia)) as Hdm.
  pose proof (Z.mod_pos_bound raw 2352 ltac:(lia)) as Hrho.
  fold k rho in Hdm, Hrho.
  assert (Hsplit : raw * 2 ^ T = (k * 2 ^ T) * 2352 + rho * 2 ^ T) by (rewrite Hdm at 1; ring).
  split; [| split].
  - rewrite Hsplit, Z.div_add_l by lia. reflexivity.
  - intros H0. unfold w. rewrite Hsplit, H0. simpl (0 * _).
    rewrite Z.add_0_r, Z.mod_mul by lia. split; reflexivity.
  - intros Hpos. split.
    + unfold w. apply Z.div_le_lower_bound; [lia | nia].
    + assert (Hw : 2352 * w <= rho * 2 ^ T) by (unfold w; apply Z.mul_div_le; lia).
      nia.
Qed.

Lemma ceil_div_sector (x : double) (raw : Z) :
  0 < raw < 2 ^ 32 -> is_int x raw ->
  ceil (div x (of_Z 2352)) = of_Z ((raw + 2351) / 2352).
Proof.
  intros Hraw (m1 & e1 & -> & He1 & Hm1 & Hv).
  rewrite of_Z_sector. unfold div, SFdiv, prec, emax.
  rewrite div_core_sector by lia. cbn [xorb].
  set (T := 12 - e1).
  assert (HT : 33 <= T).
  { destruct (Z_le_gt_dec 33 T) as [H|H]; [exact H | exfalso].
    assert (2 ^ (- e1) <= 2 ^ 20) by (apply Z.pow_le_mono_r; unfold T in H; lia).
    nia. }
  assert (Hnum : Z.pos m1 * 2 ^ 53 = (raw * 2 ^ T) * 2 ^ 41).
  { rewrite Hv. unfold T. replace (12 - e1) with (- e1 + 12) by lia.
    rewrite Z.pow_add_r by lia. change (2 ^ 53) with (2 ^ 12 * 2 ^ 41). ring. }
  change 5172102697058304 with (2352 * 2 ^ 41).
  rewrite Hnum, Z.div_mul_cancel_r, Z.mul_mod_distr_r by lia.
  destruct (sector_quotient raw T ltac:(lia) HT) as (Hq & Hexact & Hinexact).
  set (k := raw / 2352) in *. set (rho := raw mod 2352) in *.
  set (w := rho * 2 ^ T / 2352) in *.
  set (q := raw * 2 ^ T / 2352) in *.
  pose proof (Z.div_mod raw 2352 ltac:(lia)) as Hdm.
  pose proof (Z.mod_pos_bound raw 2352 ltac:(lia)) as Hrho.
  fold k rho in Hdm, Hrho.
  assert (Hk : 0 <= k) by (unfold k; apply Z.div_pos; lia).
  assert (HpT : 2 ^ 33 <= 2 ^ T) by (apply Z.pow_le_mono_r; lia).
  assert (Hqr : 2 ^ 52 <= q < 2 ^ 54).
  { assert (Hq1 : q = (Z.pos m1 * 2 ^ 8) / 147).
    { unfold q. rewrite <- (Z.div_mul_cancel_r (raw * 2 ^ T) 2352 (2 ^ 41)) by lia.
      rewrite <- Hnum. change (2352 * 2 ^ 41) with (147 * 2 ^ 45).
      change (2 ^ 53) with (2 ^ 8 * 2 ^ 45). rewrite Z.mul_assoc.
      apply Z.div_mul_cancel_r; lia. }
    rewrite Hq1. split.
    - apply Z.div_le_lower_bound; lia.
    - apply Z.div_lt_upper_bound; lia. }
  destruct (round_aux_weak false q (e1 - 12)
              (new_location (2352 * 2 ^ 41) (raw * 2 ^ T mod 2352 * 2 ^ 41)))
    as (m & e & Hres & He & Hval & Hex); [exact Hqr | lia |].
  rewrite Hres. unfold ceil.
  replace (0 <=? e) with false by (symmetry; apply Z.leb_gt; lia).
  set (j := e - (e1 - 12)) in *.
  assert (Hj : 0 <= j <= 2) by (unfold j; lia).
  assert (HeT : - e = T - j) by (unfold j, T; lia).
  assert (Hpe : 2 ^ T = 2 ^ (- e) * 2 ^ j).
  { rewrite HeT, <- Z.pow_add_r by lia. f_equal. lia. }
  assert (Hpj : 1 <= 2 ^ j) by (apply (Z.pow_le_mono_r 2 0 j); lia).
  assert (Hpne : 0 < 2 ^ (- e)) by (apply Z.pow_pos_nonneg; lia).
  unfold of_Z. f_equal.
  destruct (Z.eq_dec rho 0) as [Hz | Hnz].
  - (* raw is a whole number of sectors: the quotient is exact *)
    destruct (Hexact Hz) as [Hw0 Hmod0].
    assert (Hmk : Z.pos m = k * 2 ^ (- e)).
    { assert (Hmj : Z.pos m * 2 ^ j = q).
      { apply Hex.
        - rewrite Hmod0. reflexivity.
        - rewrite Hq, Hw0, Z.add_0_r.
          rewrite Z.even_mul, Z.even_pow by lia. apply orb_true_r. }
      rewrite Hq, Hw0, Z.add_0_r, Hpe, Z.mul_assoc in Hmj.
      apply Z.mul_cancel_r in Hmj; lia. }
    rewrite Hmk, Z.mod_mul, Z.div_mul by lia. simpl.
    replace (raw + 2351) with (k * 2352 + 2351) by lia.
    rewrite Z.div_add_l by lia. change (2351 / 2352) with 0. lia.
  - (* otherwise the rounded quotient stays strictly between k and k+1 *)
    destruct (Hinexact ltac:(lia)) as [Hw2 Hw3].
    assert (Hlo : k * 2 ^ (- e) < Z.pos m) by nia.
    assert (Hhi : Z.pos m < (k + 1) * 2 ^ (- e)) by nia.
    assert (Hqc : Z.pos m / 2 ^ (- e) = k).
    { symmetry. apply Z.div_unique with (r := Z.pos m - k * 2 ^ (- e)); lia. }
    assert (Hrc : Z.pos m mod 2 ^ (- e) <> 0).
    { pose proof (Z.div_mod (Z.pos m) (2 ^ (- e)) ltac:(lia)) as Hd.
      rewrite Hqc in Hd. lia. }
    rewrite Hqc. apply Z.eqb_neq in Hrc. rewrite Hrc.
    replace (raw + 2351) with ((k + 1) * 2352 + (rho - 1)) by lia.
    rewrite Z.div_add_l, Z.div_small by lia. lia.
Qed.

End Binary64Facts.

(** * The aligned size *)

Lemma spec_alignedSize_bounds (rawSize : Z) :
  spec_alignedSize rawSize mod CD_SECTOR_SIZE = 0
  /\ rawSize <= spec_alignedSize rawSize < rawSize + CD_SECTOR_SIZE.
Proof.
  unfold spec_alignedSize, CD_SECTOR_SIZE. split.
  - apply Z.mod_mul. lia.
  - pose proof (Z.div_mod (rawSize + (2352 - 1)) 2352 ltac:(lia)).
    pose proof (Z.mod_pos_bound (rawSize + (2352 - 1)) 2352 ltac:(lia)). lia.
Qed.

(** [spec_alignedSize] is the least whole number of sectors that holds the
    payload. *)
Lemma spec_alignedSize_least (rawSize sectors : Z) :
  rawSize <= sectors * CD_SECTOR_SIZE -> spec_alignedSize rawSize <= sectors * CD_SECTOR_SIZE.
Proof.
  unfold spec_alignedSize, CD_SECTOR_SIZE. intros H.
  apply Z.mul_le_mono_nonneg_r; [lia|].
  apply Z.lt_succ_r, Z.div_lt_upper_bound; lia.
Qed.

(** Below the last 1263 values of [uint32_t] the floating-point computation
    is the integer ceiling, without rounding error. *)
Lemma alignedSize_exact (rawSize : Z) :
  0 <= rawSize <= max_alignable -> alignedSize rawSize = Some (spec_alignedSize rawSize).
Proof.
  unfold max_alignable. intros Hr.
  destruct (Z.eq_dec rawSize 0) as [-> | Hnz]; [vm_compute; reflexivity|].
  unfold alignedSize, spec_alignedSize, CD_SECTOR_SIZE.
  rewrite (Binary64Facts.ceil_div_sector (Binary64.of_Z rawSize) rawSize)
    by (try apply Binary64Facts.of_Z_is_int; lia).
  change (2352 - 1) with 2351.
  set (K := (rawSize + 2351) / 2352).
  assert (HK : 1 <= K <= 1826091).
  { unfold K. split.
    - apply Z.div_le_lower_bound; lia.
    - apply Z.lt_succ_r, Z.div_lt_upper_bound; lia. }
  assert (Hint : Binary64.is_int
                   (Binary64.mul (Binary64.of_Z K) (Binary64.of_Z 2352)) (K * 2352)).
  { apply Binary64Facts.mul_is_int; try apply Binary64Facts.of_Z_is_int; lia. }
  unfold Binary64.to_uint32. rewrite (Binary64Facts.trunc_is_int _ _ Hint).
  replace ((0 <=? K * 2352) && (K * 2352 <? 2 ^ 32)) with true; [reflexivity|].
  symmetry. apply andb_true_iff. split; [apply Z.leb_le | apply Z.ltb_lt]; lia.
Qed.

(** From [max_alignable + 1] on the rounded size is 2^32 + 1088, which
    [uint32_t] cannot hold. *)
Lemma alignedSize_overflow (rawSize : Z) :
  max_alignable < rawSize < 2 ^ 32 -> alignedSize rawSize = None.
Proof.
  unfold max_alignable. intros Hr.
  unfold alignedSize, CD_SECTOR_SIZE.
  rewrite (Binary64Facts.ceil_div_sector (Binary64.of_Z rawSize) rawSize)
    by (try apply Binary64Facts.of_Z_is_int; lia).
  assert (HK : (rawSize + 2351) / 2352 = 1826092).
  { symmetry. apply Z.div_unique with (r := rawSize + 2351 - 2352 * 1826092); lia. }
  rewrite HK. vm_compute. reflexivity.
Qed.

Lemma spec_alignedSize_overflow (rawSize : Z) :
  max_alignable < rawSize < 2 ^ 32 -> spec_alignedSize rawSize = 2 ^ 32 + 1088.
Proof.
  unfold max_alignable, spec_alignedSize, CD_SECTOR_SIZE. intros Hr.
  replace ((rawSize + (2352 - 1)) / 2352) with 1826092; [reflexivity|].
  apply Z.div_unique with (r := rawSize + 2351 - 2352 * 1826092); lia.
Qed.

(** ** C1 *)

(** C1.  For a payload size [rawSize] of 32 bits, the aligned size the code
    computes is the exact integer ceiling [ceil(rawSize / 2352) * 2352], free
    of rounding error: the least multiple of 2352 that is at least
    [rawSize], hence less than a sector above it, as long as
    [rawSize <= 4294966032].  For the 1263 larger sizes the ceiling is
    2^32 + 1088: the conversion to [uint32_t] has no defined result, and no
    32-bit value is both a multiple of 2352 and at least [rawSize]. *)
Theorem C1_alignedSize_characterised (rawSize : Z) :
  0 <= rawSize < 2 ^ 32 ->
  (rawSize <= max_alignable ->
   exists a, alignedSize rawSize = Some a
             /\ a = spec_alignedSize rawSize
             /\ a mod 2352 = 0 /\ rawSize <= a /\ a - rawSize < 2352
             /\ forall sectors, rawSize <= sectors * 2352 -> a <= sectors * 2352)
  /\ (max_alignable < rawSize ->
      alignedSize rawSize = None
      /\ spec_alignedSize rawSize = 2 ^ 32 + 1088
      /\ forall a, 0 <= a < 2 ^ 32 -> a mod 2352 = 0 -> a < rawSize).
Proof.
  intros Hr. split.
  - intros Hle. exists (spec_alignedSize rawSize).
    pose proof (spec_alignedSize_bounds rawSize) as [Hmod Hb].
    pose proof (spec_alignedSize_least rawSize) as Hleast.
    unfold CD_SECTOR_SIZE in *.
    rewrite alignedSize_exact by lia. repeat split; try lia. exact Hleast.
  - intros Hgt. split; [|split].
    + apply alignedSize_overflow. lia.
    + apply spec_alignedSize_overflow. lia.
    + unfold max_alignable in Hgt. intros a Ha Hmod.
      pose proof (Z.div_mod a 2352 ltac:(lia)) as Hdm. rewrite Hmod in Hdm.
      assert (a / 2352 <= 1826091) by (apply Z.lt_succ_r, Z.div_lt_upper_bound; lia).
      lia.
Qed.

(** The largest 32-bit size, which streaming encoders write for a length
    not known in advance: no aligned size is computed. *)
Lemma C1_witness_largest_size :
  0 <= 4294967295 < 2 ^ 32
  /\ alignedSize 4294967295 = None
  /\ spec_alignedSize 4294967295 = 2 ^ 32 + 1088
  /\ forall a, 0 <= a < 2 ^ 32 -> a mod 2352 = 0 -> a < 4294967295.
Proof.
  split; [lia|].
  apply (C1_alignedSize_characterised 4294967295); unfold max_alignable; lia.
Defined.

(** * Headers and buffers *)

(** A property of every path of a non-empty list, split into the head and
    the rest. *)
Ltac forallb_cons H Hhead Hrest :=
  cbn [forallb] in H; apply andb_true_iff in H; destruct H as [Hhead Hrest].

Lemma byte_val_range (b : byte) : 0 <= byte_val b < 256.
Proof.
  unfold byte_val. pose proof (Byte.to_N_bounded b). lia.
Qed.

Lemma le_combine_range (l : list byte) :
  0 <= le_combine l < 256 ^ Z.of_nat (List.length l).
Proof.
  induction l as [|b t IH].
  - simpl. lia.
  - cbn [le_combine List.length]. rewrite Nat2Z.inj_succ, Z.pow_succ_r by lia.
    pose proof (byte_val_range b). lia.
Qed.

Lemma slice_length_le (off len : nat) (l : list byte) :
  (List.length (slice off len l) <= len)%nat.
Proof. unfold slice. apply firstn_le_length. Qed.

(** Every header field of four bytes is a [uint32_t]. *)
Lemma declared_size_range (wavFile : list byte) :
  0 <= declared_size wavFile < 2 ^ 32.
Proof.
  unfold declared_size, decode_WAVHeader. cbn [subchunk2Size].
  pose proof (le_combine_range (slice 40 4 (firstn sizeof_WAVHeader wavFile))) as [H0 H1].
  split; [exact H0|].
  eapply Z.lt_le_trans; [exact H1|].
  change (2 ^ 32) with (256 ^ Z.of_nat 4).
  apply Z.pow_le_mono_r; [lia|].
  apply Nat2Z.inj_le, slice_length_le.
Qed.

Lemma skipn_repeat {A} (x : A) (k n : nat) : skipn k (repeat x n) = repeat x (n - k).
Proof.
  revert n; induction k as [|k IH]; intros n.
  - rewrite Nat.sub_0_r. reflexivity.
  - destruct n as [|n]; [reflexivity|]. simpl. apply IH.
Qed.

(** A read that fits the zero-filled buffer leaves the bytes read followed
    by zeros. *)
Lemma store_zero_buffer (n : nat) (src : list byte) :
  (List.length src <= n)%nat ->
  store (repeat x00 n) src = Some (src ++ repeat x00 (n - List.length src)).
Proof.
  intros Hle. unfold store. rewrite repeat_length.
  apply Nat.leb_le in Hle. rewrite Hle, skipn_repeat. reflexivity.
Qed.

Lemma istream_read_length (n : Z) (wavFile : list byte) :
  (List.length (istream_read n wavFile) <= Z.to_nat n)%nat.
Proof. unfold istream_read. apply firstn_le_length. Qed.

Lemma spec_block_length (fs : FileSystem) (path : string) :
  List.length (spec_block fs path)
  = Z.to_nat (spec_alignedSize (declared_size (wav_bytes fs path))).
Proof.
  unfold spec_block. cbv zeta. rewrite length_app, repeat_length.
  pose proof (declared_size_range (wav_bytes fs path)) as Hd.
  pose proof (spec_alignedSize_bounds (declared_size (wav_bytes fs path))) as [_ Hb].
  assert (List.length (payload_read (wav_bytes fs path))
          <= Z.to_nat (declared_size (wav_bytes fs path)))%nat
    by (unfold payload_read; apply firstn_le_length).
  lia.
Qed.

(** * The loop of [convertWAVToBIN] *)

Lemma valid_wav_inv (fs : FileSystem) (path : string) :
  valid_wav fs path = true ->
  exists wavFile,
    ifstream_open fs path = Some wavFile
    /\ (sizeof_WAVHeader <= List.length wavFile)%nat
    /\ badHeader (decode_WAVHeader (firstn sizeof_WAVHeader wavFile)) = false.
Proof.
  unfold valid_wav. destruct (ifstream_open fs path) as [wavFile|]; [|discriminate].
  intros H. apply andb_true_iff in H as [Hlen Hbad].
  exists wavFile. repeat split.
  - apply Nat.leb_le. exact Hlen.
  - apply negb_true_iff. exact Hbad.
Qed.

Lemma read_WAVHeader_whole (wavFile : list byte) :
  (sizeof_WAVHeader <= List.length wavFile)%nat ->
  read_WAVHeader wavFile
  = Some (decode_WAVHeader (firstn sizeof_WAVHeader wavFile), payload wavFile).
Proof.
  intros Hlen. unfold read_WAVHeader.
  replace (List.length wavFile <? sizeof_WAVHeader)%nat with false; [reflexivity|].
  symmetry. apply Nat.ltb_ge. exact Hlen.
Qed.

(** One iteration on a file that opens and ends before its header does. *)
Lemma body_on_short_header (fs : FileSystem) (path : string) (wavFile : list byte)
    (st : ConvState) :
  ifstream_open fs path = Some wavFile ->
  (List.length wavFile < sizeof_WAVHeader)%nat ->
  convertWAVToBIN_body fs path st
  = (if rejected wavFile
     then Throw ("Invalid or unsupported WAV file format: " ++ path)%string
     else Undefined, st).
Proof.
  intros Hopen Hlen. unfold convertWAVToBIN_body, read_WAVHeader, rejected.
  rewrite Hopen.
  replace (List.length wavFile <? sizeof_WAVHeader)%nat with true
    by (symmetry; apply Nat.ltb_lt; exact Hlen).
  replace (sizeof_WAVHeader <=? List.length wavFile)%nat with false
    by (symmetry; apply Nat.leb_gt; exact Hlen).
  destruct (badHeader_short wavFile) as [[|]|]; reflexivity.
Qed.

(** One iteration on a file that opens and delivers a whole header. *)
Lemma body_on_whole_header (fs : FileSystem) (path : string) (wavFile : list byte)
    (st : ConvState) :
  ifstream_open fs path = Some wavFile ->
  (sizeof_WAVHeader <= List.length wavFile)%nat ->
  convertWAVToBIN_body fs path st
  = if badHeader (decode_WAVHeader (firstn sizeof_WAVHeader wavFile))
    then (Throw ("Invalid or unsupported WAV file format: " ++ path)%string, st)
    else
      match alignedSize (declared_size wavFile) with
      | None => (Undefined, st)
      | Some a =>
          match store (repeat x00 (Z.to_nat a)) (payload_read wavFile) with
          | None => (Undefined, st)
          | Some audioData =>
              (Ok tt,
               {| binFile := binFile st ++ ostream_write audioData a;
                  tracks := tracks st ++ [{| title := stem path;
                                             offsetFrames := currentOffsetFrames st |}];
                  currentOffsetFrames :=
                    wrap32 (currentOffsetFrames st + a / CD_BYTES_PER_FRAME) |})
          end
      end.
Proof.
  intros Hopen Hlen. unfold convertWAVToBIN_body.
  rewrite Hopen, (read_WAVHeader_whole wavFile Hlen). reflexivity.
Qed.

(** One iteration on a valid file of alignable size: the block of the file
    is appended, its track is recorded at the running offset, and the
    offset advances by the frames of the block. *)
Lemma body_processable (fs : FileSystem) (path : string) (st : ConvState) :
  processable fs path = true ->
  convertWAVToBIN_body fs path st
  = (Ok tt,
     {| binFile := binFile st ++ spec_block fs path;
        tracks := tracks st ++ [{| title := stem path;
                                   offsetFrames := currentOffsetFrames st |}];
        currentOffsetFrames := wrap32 (currentOffsetFrames st + track_frames fs path) |}).
Proof.
  unfold processable. intros H. apply andb_true_iff in H as [Hvalid Hfit].
  destruct (valid_wav_inv fs path Hvalid) as (wavFile & Hopen & Hlen & Hbad).
  unfold alignable, wav_bytes in Hfit. apply Z.leb_le in Hfit.
  unfold convertWAVToBIN_body, spec_block, track_frames, track_alignedSize, wav_bytes.
  rewrite Hopen in *. rewrite (read_WAVHeader_whole wavFile Hlen), Hbad.
  fold (declared_size wavFile).
  pose proof (declared_size_range wavFile) as Hd.
  rewrite alignedSize_exact by lia.
  pose proof (spec_alignedSize_bounds (declared_size wavFile)) as [_ Hb].
  fold (payload_read wavFile).
  assert (Hread : (List.length (payload_read wavFile)
                   <= Z.to_nat (spec_alignedSize (declared_size wavFile)))%nat).
  { pose proof (istream_read_length (declared_size wavFile) (payload wavFile)).
    unfold payload_read, istream_read in *. lia. }
  change (istream_read (declared_size wavFile) (payload wavFile))
    with (payload_read wavFile).
  rewrite store_zero_buffer by exact Hread.
  unfold ostream_write. rewrite firstn_all2; [reflexivity|].
  rewrite length_app, repeat_length. lia.
Qed.

Lemma wrap32_range (z : Z) : 0 <= wrap32 z < 2 ^ 32.
Proof. unfold wrap32. apply Z.mod_pos_bound. lia. Qed.

Lemma wrap32_small (z : Z) : 0 <= z < 2 ^ 32 -> wrap32 z = z.
Proof. unfold wrap32. apply Z.mod_small. Qed.

Lemma wrap32_add_l (a b : Z) : wrap32 (wrap32 a + b) = wrap32 (a + b).
Proof. unfold wrap32. apply Zplus_mod_idemp_l. Qed.

(** The loop on valid files of alignable size runs to its end. *)
Lemma loop_processable (fs : FileSystem) (paths : list string) (st : ConvState) :
  forallb (processable fs) paths = true ->
  exists offset,
    convertWAVToBIN_loop fs paths st
    = (Ok tt,
       {| binFile := binFile st ++ List.concat (map (spec_block fs) paths);
          tracks := tracks st ++ tracks_from fs (currentOffsetFrames st) paths;
          currentOffsetFrames := offset |}).
Proof.
  revert st. induction paths as [|path rest IH]; intros st Hall.
  - exists (currentOffsetFrames st). simpl. rewrite !app_nil_r. destruct st; reflexivity.
  - forallb_cons Hall Hp Hrest.
    cbn [convertWAVToBIN_loop]. rewrite (body_processable fs path st Hp).
    destruct (IH {| binFile := binFile st ++ spec_block fs path;
                    tracks := tracks st ++ [{| title := stem path;
                                               offsetFrames := currentOffsetFrames st |}];
                    currentOffsetFrames :=
                      wrap32 (currentOffsetFrames st + track_frames fs path) |} Hrest)
      as [offset Heq].
    exists offset. rewrite Heq. cbn [binFile tracks currentOffsetFrames map List.concat tracks_from].
    rewrite <- !app_assoc. reflexivity.
Qed.

Lemma tracks_from_length (fs : FileSystem) (offset : Z) (paths : list string) :
  List.length (tracks_from fs offset paths) = List.length paths.
Proof.
  revert offset; induction paths as [|p r IH]; intros offset; simpl; [reflexivity|].
  rewrite IH. reflexivity.
Qed.

(** The offset recorded for the track at index [i]: the frames of the tracks
    before it, counted from the offset at the start modulo 2^32. *)
Lemma tracks_from_nth (fs : FileSystem) (paths : list string) (offset : Z) (i : nat)
    (t : TrackInfo) :
  0 <= offset < 2 ^ 32 ->
  nth_error (tracks_from fs offset paths) i = Some t ->
  offsetFrames t = wrap32 (offset + sum_frames fs (firstn i paths))
  /\ nth_error paths i = Some (nth i paths EmptyString)
  /\ title t = stem (nth i paths EmptyString).
Proof.
  revert offset i. induction paths as [|p r IH]; intros offset i Ho Hnth.
  - destruct i; discriminate.
  - destruct i as [|i].
    + simpl in Hnth. injection Hnth as <-. cbn [offsetFrames title firstn sum_frames nth nth_error].
      rewrite Z.add_0_r, wrap32_small by lia. repeat split.
    + cbn [tracks_from nth_error] in Hnth.
      destruct (IH _ i (wrap32_range _) Hnth) as (Hoff & Hp & Ht).
      cbn [firstn sum_frames nth nth_error]. repeat split; try assumption.
      rewrite Hoff, wrap32_add_l. f_equal. lia.
Qed.

(** * The BIN image and the track offsets *)

Lemma processable_alignedSize (fs : FileSystem) (path : string) :
  processable fs path = true ->
  alignedSize (declared_size (wav_bytes fs path))
  = Some (spec_alignedSize (declared_size (wav_bytes fs path))).
Proof.
  unfold processable, alignable. intros H. apply andb_true_iff in H as [_ Hfit].
  apply Z.leb_le in Hfit.
  pose proof (declared_size_range (wav_bytes fs path)).
  apply alignedSize_exact. lia.
Qed.

Lemma track_alignedSize_processable (fs : FileSystem) (path : string) :
  processable fs path = true ->
  track_alignedSize fs path = spec_alignedSize (declared_size (wav_bytes fs path)).
Proof.
  intros H. unfold track_alignedSize. rewrite (processable_alignedSize fs path H).
  reflexivity.
Qed.

Lemma spec_block_is_track_block (fs : FileSystem) (path : string) :
  processable fs path = true ->
  is_track_block (wav_bytes fs path) (spec_block fs path).
Proof.
  intros H. exists (spec_alignedSize (declared_size (wav_bytes fs path))).
  pose proof (declared_size_range (wav_bytes fs path)) as Hd.
  pose proof (spec_alignedSize_bounds (declared_size (wav_bytes fs path))) as [_ Hb].
  split; [apply processable_alignedSize; exact H|].
  split; [rewrite spec_block_length; lia|].
  unfold spec_block. cbv zeta.
  set (wavFile := wav_bytes fs path) in *.
  assert (Hlen : List.length (payload_read wavFile)
                 = Nat.min (Z.to_nat (declared_size wavFile)) (List.length (payload wavFile)))
    by (unfold payload_read; apply length_firstn).
  split.
  - intros j Hj1 Hj2.
    rewrite nth_error_app1 by lia.
    unfold payload_read. rewrite nth_error_firstn.
    apply Nat.ltb_lt in Hj1. rewrite Hj1. reflexivity.
  - intros j Hj.
    rewrite nth_error_app2 by lia.
    apply nth_error_repeat. lia.
Qed.

(** A run on valid files of alignable size: the image is the blocks in input
    order and the tracks are those of [tracks_from]. *)
Lemma convertWAVToBIN_processable (fs : FileSystem) (wavFilePaths : list string)
    (binFilePath : string) (tracks0 : list TrackInfo) :
  ofstream_open fs binFilePath = true ->
  forallb (processable fs) wavFilePaths = true ->
  convertWAVToBIN fs wavFilePaths binFilePath tracks0
  = {| outcome := Ok tt;
       binContents := Some (List.concat (map (spec_block fs) wavFilePaths));
       tracksOut := tracks0 ++ tracks_from fs 0 wavFilePaths |}.
Proof.
  intros Hopen Hall. unfold convertWAVToBIN. rewrite Hopen. cbn [negb].
  destruct (loop_processable fs wavFilePaths
              {| binFile := []; tracks := tracks0; currentOffsetFrames := 0 |} Hall)
    as [offset Heq].
  rewrite Heq. reflexivity.
Qed.

Lemma sum_aligned_blocks (fs : FileSystem) (paths : list string) :
  forallb (processable fs) paths = true ->
  Z.of_nat (List.length (List.concat (map (spec_block fs) paths))) = sum_aligned fs paths.
Proof.
  induction paths as [|p r IH]; intros Hall; [reflexivity|].
  forallb_cons Hall Hp Hr.
  cbn [map List.concat sum_aligned].
  rewrite length_app, Nat2Z.inj_add, (IH Hr), spec_block_length,
    (track_alignedSize_processable fs p Hp).
  pose proof (declared_size_range (wav_bytes fs p)).
  pose proof (spec_alignedSize_bounds (declared_size (wav_bytes fs p))) as [_ Hb].
  lia.
Qed.

(** A valid file that declares more than [max_alignable] bytes: the aligned
    size is not defined, nor is what follows. *)
Lemma body_oversize (fs : FileSystem) (path : string) (st : ConvState) :
  valid_wav fs path = true -> alignable fs path = false ->
  convertWAVToBIN_body fs path st = (Undefined, st).
Proof.
  intros Hvalid Hfit.
  destruct (valid_wav_inv fs path Hvalid) as (wavFile & Hopen & Hlen & Hbad).
  unfold alignable, wav_bytes in Hfit. rewrite Hopen in Hfit. apply Z.leb_gt in Hfit.
  rewrite (body_on_whole_header fs path wavFile st Hopen Hlen), Hbad.
  pose proof (declared_size_range wavFile) as Hd.
  rewrite alignedSize_overflow by lia. reflexivity.
Qed.

Lemma loop_oversize (fs : FileSystem) (paths : list string) (st : ConvState) :
  forallb (valid_wav fs) paths = true ->
  forallb (alignable fs) paths = false ->
  fst (convertWAVToBIN_loop fs paths st) = Undefined.
Proof.
  revert st. induction paths as [|p r IH]; intros st Hvalid Hfit; [discriminate|].
  cbn [forallb] in Hvalid, Hfit. apply andb_true_iff in Hvalid as [Hp Hr].
  cbn [convertWAVToBIN_loop].
  destruct (alignable fs p) eqn:Hap.
  - rewrite (body_processable fs p st)
      by (unfold processable; rewrite Hp, Hap; reflexivity).
    apply IH; assumption.
  - rewrite (body_oversize fs p st Hp Hap). reflexivity.
Qed.

Lemma forallb_processable (fs : FileSystem) (paths : list string) :
  forallb (valid_wav fs) paths = true -> forallb (alignable fs) paths = true ->
  forallb (processable fs) paths = true.
Proof.
  intros Hv Ha. rewrite forallb_forall in *. intros p Hin.
  unfold processable. rewrite (Hv p Hin), (Ha p Hin). reflexivity.
Qed.

(** ** C2 *)

(** C2.  For every ordered sequence of valid input WAV files (each opens,
    delivers its 44-byte header and passes the three checks): when every
    declared size is alignable, the run ends normally and the BIN image is
    the concatenation, in input order, of one block per track; a block is as
    long as the track's aligned size, starts with the payload bytes read
    (up to the declared size or the end of the file) and is zero from there
    to its end, in particular at the padding positions from the declared
    size on; the length of the image is the sum of the aligned sizes.  When
    some file declares more than 4294966032 bytes, the run is undefined from
    that file on. *)
Theorem C2_bin_is_concatenation_of_blocks (fs : FileSystem) (wavFilePaths : list string)
    (binFilePath : string) :
  ofstream_open fs binFilePath = true ->
  forallb (valid_wav fs) wavFilePaths = true ->
  (forallb (alignable fs) wavFilePaths = true ->
   exists blocks,
     outcome (convertWAVToBIN fs wavFilePaths binFilePath []) = Ok tt
     /\ binContents (convertWAVToBIN fs wavFilePaths binFilePath [])
        = Some (List.concat blocks)
     /\ Forall2 (fun path block => is_track_block (wav_bytes fs path) block)
                wavFilePaths blocks
     /\ Z.of_nat (List.length (List.concat blocks)) = sum_aligned fs wavFilePaths)
  /\ (forallb (alignable fs) wavFilePaths = false ->
      outcome (convertWAVToBIN fs wavFilePaths binFilePath []) = Undefined).
Proof.
  intros Hopen Hvalid. split.
  - intros Hfit. pose proof (forallb_processable fs wavFilePaths Hvalid Hfit) as Hall.
    exists (map (spec_block fs) wavFilePaths).
    rewrite (convertWAVToBIN_processable fs wavFilePaths binFilePath [] Hopen Hall).
    cbn [outcome binContents]. repeat split.
    + clear Hopen Hvalid Hfit. induction wavFilePaths as [|p r IH]; [constructor|].
      forallb_cons Hall Hp Hr.
      cbn [map]. constructor; [apply spec_block_is_track_block; exact Hp | apply IH; exact Hr].
    + apply sum_aligned_blocks. exact Hall.
  - intros Hfit. unfold convertWAVToBIN. rewrite Hopen. cbn [negb].
    pose proof (loop_oversize fs wavFilePaths
                  {| binFile := []; tracks := []; currentOffsetFrames := 0 |} Hvalid Hfit)
      as Hloop.
    destruct (convertWAVToBIN_loop fs wavFilePaths _) as [r st]. exact Hloop.
Qed.

(** One full sector, one byte, and a file shorter than it declares give three
    blocks; a header that declares the largest 32-bit size gives no defined
    run. *)
Lemma C2_witness_three_tracks_and_oversize :
  ofstream_open sample_fs "disc.bin" = true
  /\ forallb (valid_wav sample_fs) ["/music/one.wav"; "two.wav"; "short.wav"] = true
  /\ forallb (alignable sample_fs) ["/music/one.wav"; "two.wav"; "short.wav"] = true
  /\ (exists blocks,
        outcome (convertWAVToBIN sample_fs ["/music/one.wav"; "two.wav"; "short.wav"]
                   "disc.bin" []) = Ok tt
        /\ binContents (convertWAVToBIN sample_fs ["/music/one.wav"; "two.wav"; "short.wav"]
                          "disc.bin" [])
           = Some (List.concat blocks)
        /\ Forall2 (fun path block => is_track_block (wav_bytes sample_fs path) block)
                   ["/music/one.wav"; "two.wav"; "short.wav"] blocks
        /\ Z.of_nat (List.length (List.concat blocks))
           = sum_aligned sample_fs ["/music/one.wav"; "two.wav"; "short.wav"])
  /\ forallb (valid_wav sample_fs) ["two.wav"; "huge.wav"] = true
  /\ forallb (alignable sample_fs) ["two.wav"; "huge.wav"] = false
  /\ outcome (convertWAVToBIN sample_fs ["two.wav"; "huge.wav"] "disc.bin" []) = Undefined.
Proof.
  split; [reflexivity|]. split; [reflexivity|]. split; [reflexivity|].
  split; [apply (C2_bin_is_concatenation_of_blocks sample_fs); reflexivity|].
  split; [reflexivity|]. split; [reflexivity|].
  apply (C2_bin_is_concatenation_of_blocks sample_fs ["two.wav"; "huge.wav"] "disc.bin");
    reflexivity.
Defined.

(** * Track offsets *)

Lemma track_frames_processable (fs : FileSystem) (path : string) :
  processable fs path = true ->
  exists a, alignedSize (declared_size (wav_bytes fs path)) = Some a
            /\ a mod 2352 = 0 /\ track_frames fs path * 2352 = a.
Proof.
  intros H. exists (spec_alignedSize (declared_size (wav_bytes fs path))).
  split; [apply processable_alignedSize; exact H|].
  pose proof (spec_alignedSize_bounds (declared_size (wav_bytes fs path))) as [Hmod _].
  unfold CD_SECTOR_SIZE in Hmod. split; [exact Hmod|].
  unfold track_frames, CD_BYTES_PER_FRAME, CD_SECTOR_SIZE.
  rewrite (track_alignedSize_processable fs path H).
  pose proof (Z.div_mod (spec_alignedSize (declared_size (wav_bytes fs path))) 2352
                ltac:(lia)). lia.
Qed.

Lemma forallb_repeat {A} (f : A -> bool) (x : A) (n : nat) :
  f x = true -> forallb f (repeat x n) = true.
Proof. intros H. induction n; simpl; [reflexivity|]. rewrite H, IHn. reflexivity. Qed.

Lemma firstn_repeat_le {A} (x : A) (k n : nat) :
  (k <= n)%nat -> firstn k (repeat x n) = repeat x k.
Proof.
  revert n; induction k as [|k IH]; intros n Hle; [reflexivity|].
  destruct n as [|n]; [lia|]. simpl. rewrite IH by lia. reflexivity.
Qed.

Lemma sum_frames_repeat (fs : FileSystem) (path : string) (n : nat) :
  sum_frames fs (repeat path n) = Z.of_nat n * track_frames fs path.
Proof.
  induction n as [|n IH]; [reflexivity|].
  cbn [repeat sum_frames]. rewrite IH. lia.
Qed.

(** ** C3 *)

(** C3, as the code has it.  For every ordered sequence of valid input WAV
    files of alignable size, the run records one track per file; the offset
    of track [i] is the sum, over the tracks before it, of the aligned size
    divided by 2352, reduced modulo 2^32 as the 32-bit counter wraps; it is
    that sum itself whenever the sum is below 2^32; the first track has
    offset 0; and every aligned size is a multiple of 2352, so the divisions
    leave no remainder. *)
Theorem C3_offsets_are_frame_sums_modulo_2_32 (fs : FileSystem)
    (wavFilePaths : list string) (binFilePath : string) :
  ofstream_open fs binFilePath = true ->
  forallb (processable fs) wavFilePaths = true ->
  let recorded := tracksOut (convertWAVToBIN fs wavFilePaths binFilePath []) in
  outcome (convertWAVToBIN fs wavFilePaths binFilePath []) = Ok tt
  /\ List.length recorded = List.length wavFilePaths
  /\ (forall i t, nth_error recorded i = Some t ->
        offsetFrames t = wrap32 (sum_frames fs (firstn i wavFilePaths))
        /\ (sum_frames fs (firstn i wavFilePaths) < 2 ^ 32 ->
            offsetFrames t = sum_frames fs (firstn i wavFilePaths)))
  /\ (forall t, nth_error recorded 0 = Some t -> offsetFrames t = 0)
  /\ (forall path, In path wavFilePaths ->
        exists a, alignedSize (declared_size (wav_bytes fs path)) = Some a
                  /\ a mod 2352 = 0 /\ track_frames fs path * 2352 = a).
Proof.
  intros Hopen Hall recorded. unfold recorded.
  rewrite (convertWAVToBIN_processable fs wavFilePaths binFilePath [] Hopen Hall).
  cbn [outcome tracksOut app].
  assert (Hnonneg : forall paths, forallb (processable fs) paths = true ->
                                  0 <= sum_frames fs paths).
  { induction paths as [|p r IH]; intros Hp; [simpl; lia|].
    forallb_cons Hp Hp Hr.
    cbn [sum_frames]. specialize (IH Hr).
    destruct (track_frames_processable fs p Hp) as (a & Ha & _ & Hf).
    pose proof (processable_alignedSize fs p Hp) as Hs. rewrite Ha in Hs.
    injection Hs as Hs.
    pose proof (declared_size_range (wav_bytes fs p)).
    pose proof (spec_alignedSize_bounds (declared_size (wav_bytes fs p))) as [_ Hb].
    lia. }
  split; [reflexivity|]. split; [apply tracks_from_length|]. split; [|split].
  - intros i t Hnth.
    destruct (tracks_from_nth fs wavFilePaths 0 i t ltac:(lia) Hnth) as (Hoff & _ & _).
    rewrite Z.add_0_l in Hoff. split; [exact Hoff|].
    intros Hsmall. rewrite Hoff. apply wrap32_small. split; [|exact Hsmall].
    apply Hnonneg.
    rewrite <- (firstn_skipn i wavFilePaths), forallb_app in Hall.
    apply andb_true_iff in Hall as [Hfirst _]. exact Hfirst.
  - intros t Hnth.
    destruct (tracks_from_nth fs wavFilePaths 0 0%nat t ltac:(lia) Hnth) as (Hoff & _ & _).
    rewrite Hoff. reflexivity.
  - intros path Hin. apply track_frames_processable.
    rewrite forallb_forall in Hall. apply Hall. exact Hin.
Qed.

(** The scenario of the specification: one sector, then one byte, then a
    third track. *)
Lemma C3_witness_three_tracks :
  ofstream_open sample_fs "disc.bin" = true
  /\ forallb (processable sample_fs) ["/music/one.wav"; "two.wav"; "short.wav"] = true
  /\ map offsetFrames
       (tracksOut (convertWAVToBIN sample_fs ["/music/one.wav"; "two.wav"; "short.wav"]
                     "disc.bin" []))
     = [0; 1; 2]
  /\ forall t,
       nth_error
         (tracksOut (convertWAVToBIN sample_fs ["/music/one.wav"; "two.wav"; "short.wav"]
                       "disc.bin" [])) 0 = Some t ->
       offsetFrames t = 0.
Proof.
  split; [reflexivity|]. split; [reflexivity|]. split; [vm_compute; reflexivity|].
  apply (C3_offsets_are_frame_sums_modulo_2_32 sample_fs
           ["/music/one.wav"; "two.wav"; "short.wav"] "disc.bin"); reflexivity.
Defined.

(** 2354 tracks that each declare the largest alignable size (1826091
    frames): the counter has wrapped when the last one is recorded. *)
Lemma C3_counterexample_counter_wraps :
  outcome (convertWAVToBIN sample_fs (repeat "full.wav" 2354) "disc.bin" []) = Ok tt
  /\ exists t,
       nth_error (tracksOut (convertWAVToBIN sample_fs (repeat "full.wav" 2354)
                               "disc.bin" [])) 2353 = Some t
       /\ offsetFrames t = 1824827
       /\ sum_frames sample_fs (firstn 2353 (repeat "full.wav" 2354)) = 4296792123
       /\ offsetFrames t <> sum_frames sample_fs (firstn 2353 (repeat "full.wav" 2354)).
Proof.
  assert (Hp : processable sample_fs "full.wav" = true) by reflexivity.
  assert (Hall : forallb (processable sample_fs) (repeat "full.wav" 2354) = true)
    by (apply forallb_repeat; exact Hp).
  rewrite (convertWAVToBIN_processable sample_fs _ "disc.bin" [] eq_refl Hall).
  cbn [outcome tracksOut app]. split; [reflexivity|].
  assert (Hframes : track_frames sample_fs "full.wav" = 1826091).
  { unfold track_frames. rewrite (track_alignedSize_processable _ _ Hp). reflexivity. }
  assert (Hsum : sum_frames sample_fs (firstn 2353 (repeat "full.wav" 2354)) = 4296792123).
  { replace (firstn 2353 (repeat "full.wav" 2354)) with (repeat "full.wav" 2353)
      by (symmetry; apply firstn_repeat_le, Nat.leb_le; reflexivity).
    rewrite sum_frames_repeat, Hframes. reflexivity. }
  destruct (nth_error (tracks_from sample_fs 0 (repeat "full.wav" 2354)) 2353) as [t|] eqn:Hnth.
  - exists t. split; [reflexivity|].
    destruct (tracks_from_nth sample_fs _ 0 _ t ltac:(lia) Hnth) as (Hoff & _ & _).
    rewrite Hsum in *. rewrite Hoff. repeat split. discriminate.
  - apply nth_error_None in Hnth. rewrite tracks_from_length, repeat_length in Hnth. lia.
Qed.

(** * The CUE sheet *)

Lemma append_assoc (a b c : string) : ((a ++ b) ++ c = a ++ (b ++ c))%string.
Proof. induction a as [|x a IH]; simpl; [reflexivity|]. rewrite IH. reflexivity. Qed.

Lemma append_nil_r (a : string) : (a ++ EmptyString = a)%string.
Proof. induction a as [|x a IH]; simpl; [reflexivity|]. rewrite IH. reflexivity. Qed.

(** With no field width set, a string is inserted as it is. *)
Lemma put_string_plain (s : string) (o : ostream) :
  width o = 0%nat ->
  put_string s o = {| written := (written o ++ s)%string; width := 0; fill := fill o |}.
Proof.
  intros Hw. unfold put_string, padded. rewrite Hw. reflexivity.
Qed.

(** [setw(2)] and [setfill('0')] before a number: two digits, and the width
    is reset. *)
Lemma put_unsigned_two_digits (n : Z) (o : ostream) :
  put_unsigned n (setfill "0"%char (setw 2 o))
  = {| written := (written o ++ two_digits n)%string; width := 0; fill := "0"%char |}.
Proof. reflexivity. Qed.

Lemma writeCUEFile_body_closed (i : nat) (track : TrackInfo) (cueFile : ostream) :
  width cueFile = 0%nat ->
  writeCUEFile_body i track cueFile
  = {| written := (written cueFile ++ cue_track decimal (Z.of_nat i + 1) track)%string;
       width := 0; fill := "0"%char |}.
Proof.
  intros Hw. destruct cueFile as [text w f]. cbn [width] in Hw. subst w.
  cbv [writeCUEFile_body insert fold_left put_unsigned put_string setw setfill padded
       written width fill].
  cbn [Nat.sub replicate]. f_equal.
  unfold cue_track, cue_index_line, timecode, two_digits, zero_pad2, CD_FRAMES_PER_SECOND.
  rewrite !append_assoc. reflexivity.
Qed.

Lemma writeCUEFile_loop_closed (tracks : list TrackInfo) (i : nat) (cueFile : ostream) :
  width cueFile = 0%nat ->
  written (writeCUEFile_loop i tracks cueFile)
  = (written cueFile ++ cue_tracks decimal (Z.of_nat i + 1) tracks)%string.
Proof.
  revert i cueFile. induction tracks as [|track rest IH]; intros i cueFile Hw.
  - simpl. rewrite append_nil_r. reflexivity.
  - cbn [writeCUEFile_loop cue_tracks].
    rewrite (writeCUEFile_body_closed i track cueFile Hw).
    rewrite IH by reflexivity. cbn [written].
    rewrite append_assoc. do 3 f_equal. lia.
Qed.

(** The text of the sheet: the FILE line, then the lines of each track with
    its number in plain decimal. *)
Lemma writeCUEFile_closed (fs : FileSystem) (cueFilePath binFileName : string)
    (tracks : list TrackInfo) :
  writeCUEFile fs cueFilePath binFileName tracks
  = if ofstream_open fs cueFilePath
    then Ok (plain_cue_sheet binFileName tracks)
    else Throw "Failed to open CUE file for writing.".
Proof.
  unfold writeCUEFile. destruct (ofstream_open fs cueFilePath); [|reflexivity].
  cbn [negb]. f_equal.
  rewrite writeCUEFile_loop_closed by reflexivity.
  unfold plain_cue_sheet, cue_file_line. cbn [insert fold_left].
  repeat (rewrite put_string_plain by reflexivity; cbn [written width fill]).
  cbn [ostream_init written Z.of_nat Z.add].
  rewrite !append_assoc. reflexivity.
Qed.

Lemma cue_tracks_app (number : Z -> string) (n : Z) (before after : list TrackInfo) :
  cue_tracks number n (before ++ after)
  = (cue_tracks number n before
     ++ cue_tracks number (n + Z.of_nat (List.length before)) after)%string.
Proof.
  revert n. induction before as [|t r IH]; intros n.
  - simpl. rewrite Z.add_0_r. reflexivity.
  - cbn [app cue_tracks List.length]. rewrite IH, append_assoc.
    do 3 f_equal. lia.
Qed.

(** Numbers below 100 take exactly two characters once padded. *)
Lemma two_digits_length (n : Z) : 0 <= n < 100 -> String.length (two_digits n) = 2%nat.
Proof.
  intros Hn.
  assert (Hall : forallb (fun k => Nat.eqb (String.length (two_digits (Z.of_nat k))) 2)
                   (seq 0 100) = true) by (vm_compute; reflexivity).
  rewrite forallb_forall in Hall.
  specialize (Hall (Z.to_nat n)). rewrite Z2Nat.id in Hall by lia.
  apply Nat.eqb_eq, Hall, in_seq. lia.
Qed.

(** From 10 on a number needs no padding. *)
Lemma two_digits_from_10 (n : Z) : 10 <= n < 100 -> two_digits n = decimal n.
Proof.
  intros Hn.
  assert (Hall : forallb (fun k => (two_digits (Z.of_nat k) =? decimal (Z.of_nat k))%string)
                   (seq 10 90) = true) by (vm_compute; reflexivity).
  rewrite forallb_forall in Hall.
  specialize (Hall (Z.to_nat n)). rewrite Z2Nat.id in Hall by lia.
  apply String.eqb_eq, Hall, in_seq. lia.
Qed.

(** ** Decimal digits *)

Lemma decimal_digits_nonnil (n : Z) : N.to_uint (Z.to_N n) <> Decimal.Nil.
Proof.
  destruct (Z.to_N n) as [|p]; [discriminate|]. apply DecimalPos.Unsigned.to_uint_nonnil.
Qed.

(** The digits of a number read back to the number. *)
Lemma read_decimal_decimal (n : Z) : 0 <= n -> read_decimal (decimal n) = Some n.
Proof.
  intros Hn. unfold read_decimal, decimal.
  rewrite NilZero.usu by apply decimal_digits_nonnil.
  cbn [option_map]. rewrite DecimalN.Unsigned.of_to, Z2N.id by exact Hn. reflexivity.
Qed.

Lemma decimal_nonempty (n : Z) : 0 <= n -> decimal n <> EmptyString.
Proof.
  intros Hn Hempty. pose proof (read_decimal_decimal n Hn) as Hread.
  rewrite Hempty in Hread. discriminate.
Qed.

(** A leading zero does not change the number read. *)
Lemma read_decimal_leading_zero (s : string) :
  s <> EmptyString -> read_decimal (String "0"%char s) = read_decimal s.
Proof.
  intros Hs. unfold read_decimal, NilZero.uint_of_string.
  destruct s as [|c s]; [congruence|].
  cbn [NilEmpty.uint_of_string].
  destruct (uint_of_char c (NilEmpty.uint_of_string s)) as [d|]; reflexivity.
Qed.

Lemma read_decimal_two_digits (n : Z) : 0 <= n -> read_decimal (two_digits n) = Some n.
Proof.
  intros Hn. unfold two_digits, zero_pad2.
  pose proof (decimal_nonempty n Hn) as Hne.
  pose proof (read_decimal_decimal n Hn) as Hread.
  destruct (decimal n) as [|c s] eqn:Hd; [congruence|].
  destruct (2 - String.length (String c s))%nat as [|[|k]] eqn:Hk.
  - exact Hread.
  - cbn [replicate append]. rewrite read_decimal_leading_zero by discriminate. exact Hread.
  - cbn [String.length] in Hk. lia.
Qed.

Lemma length_append (a b : string) :
  String.length (a ++ b) = (String.length a + String.length b)%nat.
Proof. induction a as [|c a IH]; simpl; [reflexivity|]. rewrite IH. reflexivity. Qed.

(** Two texts that agree and whose tails are equally long agree in their
    heads and in their tails. *)
Lemma append_inj_tail (a a' b b' : string) :
  (a ++ b = a' ++ b')%string -> String.length b = String.length b' -> a = a' /\ b = b'.
Proof.
  revert a'. induction a as [|c a IH]; intros a' Heq Hlen.
  - destruct a' as [|c' a']; [split; [reflexivity | exact Heq]|].
    exfalso. apply (f_equal String.length) in Heq. cbn [append] in Heq.
    cbn [String.length] in Heq. rewrite length_append in Heq. lia.
  - destruct a' as [|c' a'].
    + exfalso. apply (f_equal String.length) in Heq. cbn [append] in Heq.
      cbn [String.length] in Heq. rewrite length_append in Heq. lia.
    + cbn [append] in Heq. injection Heq as -> Heq.
      destruct (IH a' Heq Hlen) as [-> ->]. split; reflexivity.
Qed.

(** A number written with at most two digits is below 100. *)
Lemma decimal_short_bound (n : Z) :
  0 <= n -> (String.length (decimal n) <= 2)%nat -> n < 100.
Proof.
  intros Hn Hlen. pose proof (read_decimal_decimal n Hn) as Hread.
  destruct (decimal n) as [|a [|b [|c s]]].
  - discriminate Hread.
  - unfold read_decimal, NilZero.uint_of_string in Hread.
    cbn [NilEmpty.uint_of_string] in Hread.
    destruct (uint_of_char a (Some Decimal.Nil)) as [d|] eqn:Ha; [|discriminate].
    apply uint_of_char_spec in Ha.
    repeat (destruct Ha as [[_ ->] | Ha]); try destruct Ha as [_ ->];
      injection Hread as <-; vm_compute; reflexivity.
  - unfold read_decimal, NilZero.uint_of_string in Hread.
    cbn [NilEmpty.uint_of_string] in Hread.
    destruct (uint_of_char b (Some Decimal.Nil)) as [d|] eqn:Hb;
      [|destruct a as [[|] [|] [|] [|] [|] [|] [|] [|]]; discriminate].
    destruct (uint_of_char a (Some d)) as [d'|] eqn:Ha; [|discriminate].
    apply uint_of_char_spec in Hb. apply uint_of_char_spec in Ha.
    repeat (destruct Hb as [[_ ->] | Hb]); try destruct Hb as [_ ->];
      repeat (destruct Ha as [[_ ->] | Ha]); try destruct Ha as [_ ->];
      injection Hread as <-; vm_compute; reflexivity.
  - cbn [String.length] in Hlen. lia.
Qed.

(** From 100 on a number is written in full: the padding adds nothing. *)
Lemma two_digits_from_100 (n : Z) :
  100 <= n -> two_digits n = decimal n /\ (3 <= String.length (decimal n))%nat.
Proof.
  intros Hn.
  assert (Hlong : (3 <= String.length (decimal n))%nat).
  { destruct (Nat.le_gt_cases 3 (String.length (decimal n))) as [H | H]; [exact H|].
    pose proof (decimal_short_bound n ltac:(lia) ltac:(lia)). lia. }
  split; [|exact Hlong].
  unfold two_digits, zero_pad2.
  replace (2 - String.length (decimal n))%nat with 0%nat by lia. reflexivity.
Qed.

(** ** C4 *)

(** C4, as the code has it.  For every track, wherever it stands in the
    list, the INDEX line the CUE emitter writes for it carries MM:SS:FF with
    MM = floor(offsetFrames / (75*60)), SS = floor(offsetFrames / 75) mod 60
    and FF = offsetFrames mod 75.  SS and FF are padded with zeros to
    exactly two digits.  MM is padded with zeros to at least two digits:
    it takes exactly two characters for offsets below 100 minutes (450000
    frames) and is written in full, with three digits or more, from there
    on.  Offsets 0, 75, 4500 and 80 give 00:00:00, 00:01:00, 01:00:00 and
    00:01:05. *)
Theorem C4_index_timecode (fs : FileSystem) (cueFilePath binFileName : string)
    (before after : list TrackInfo) (track : TrackInfo) :
  ofstream_open fs cueFilePath = true ->
  0 <= offsetFrames track < 2 ^ 32 ->
  let MM := two_digits (offsetFrames track / (75 * 60)) in
  let SS := two_digits ((offsetFrames track / 75) mod 60) in
  let FF := two_digits (offsetFrames track mod 75) in
  writeCUEFile fs cueFilePath binFileName (before ++ track :: after)
  = Ok (plain_cue_sheet binFileName before
        ++ "  TRACK " ++ decimal (Z.of_nat (List.length before) + 1) ++ " AUDIO" ++ nl
        ++ "    TITLE " ++ dquote ++ title track ++ dquote ++ nl
        ++ "    INDEX 01 " ++ MM ++ ":" ++ SS ++ ":" ++ FF ++ nl
        ++ cue_tracks decimal (Z.of_nat (List.length before) + 2) after)%string
  /\ String.length SS = 2%nat
  /\ String.length FF = 2%nat
  /\ (offsetFrames track < 450000 -> String.length MM = 2%nat)
  /\ (450000 <= offsetFrames track ->
      MM = decimal (offsetFrames track / (75 * 60)) /\ (3 <= String.length MM)%nat)
  /\ read_decimal MM = Some (offsetFrames track / (75 * 60))
  /\ read_decimal SS = Some ((offsetFrames track / 75) mod 60)
  /\ read_decimal FF = Some (offsetFrames track mod 75)
  /\ (offsetFrames track = 0 -> (MM ++ ":" ++ SS ++ ":" ++ FF)%string = "00:00:00")
  /\ (offsetFrames track = 75 -> (MM ++ ":" ++ SS ++ ":" ++ FF)%string = "00:01:00")
  /\ (offsetFrames track = 4500 -> (MM ++ ":" ++ SS ++ ":" ++ FF)%string = "01:00:00")
  /\ (offsetFrames track = 80 -> (MM ++ ":" ++ SS ++ ":" ++ FF)%string = "00:01:05").
Proof.
  intros Hopen Hf MM SS FF. split.
  - rewrite writeCUEFile_closed, Hopen. f_equal.
    unfold plain_cue_sheet. rewrite cue_tracks_app. cbn [cue_tracks].
    unfold cue_track, cue_index_line, timecode. fold MM SS FF.
    rewrite !append_assoc.
    replace (1 + Z.of_nat (List.length before) + 1)
      with (Z.of_nat (List.length before) + 2) by lia.
    replace (1 + Z.of_nat (List.length before))
      with (Z.of_nat (List.length before) + 1) by lia.
    reflexivity.
  - pose proof (Z.mod_pos_bound (offsetFrames track / 75) 60 ltac:(lia)).
    pose proof (Z.mod_pos_bound (offsetFrames track) 75 ltac:(lia)).
    assert (0 <= offsetFrames track / (75 * 60)) by (apply Z.div_pos; lia).
    split; [|split; [|split; [|split; [|split; [|split; [|split]]]]]].
    + apply two_digits_length. lia.
    + apply two_digits_length. lia.
    + intros Hlt. apply two_digits_length. split; [assumption|].
      apply Z.div_lt_upper_bound; lia.
    + intros Hge. unfold MM.
      assert (Hmm : 100 <= offsetFrames track / (75 * 60))
        by (apply Z.div_le_lower_bound; lia).
      destruct (two_digits_from_100 _ Hmm) as [Heq Hlong].
      rewrite Heq. split; [reflexivity | exact Hlong].
    + apply read_decimal_two_digits. assumption.
    + apply read_decimal_two_digits. lia.
    + apply read_decimal_two_digits. lia.
    + unfold MM, SS, FF. repeat split; intros ->; reflexivity.
Qed.

(** The second of two tracks, five frames into the second second. *)
Lemma C4_witness_offset_80 :
  ofstream_open sample_fs "disc.cue" = true
  /\ 0 <= 80 < 2 ^ 32
  /\ writeCUEFile sample_fs "disc.cue" "out/disc.bin"
       [ {| title := "one"; offsetFrames := 0 |}; {| title := "two"; offsetFrames := 80 |} ]
     = Ok (cue_file_line "out/disc.bin"
           ++ "  TRACK 1 AUDIO" ++ nl ++ "    TITLE " ++ dquote ++ "one" ++ dquote ++ nl
           ++ "    INDEX 01 00:00:00" ++ nl
           ++ "  TRACK 2 AUDIO" ++ nl ++ "    TITLE " ++ dquote ++ "two" ++ dquote ++ nl
           ++ "    INDEX 01 00:01:05" ++ nl)%string.
Proof.
  split; [reflexivity|]. split; [lia|].
  apply (C4_index_timecode sample_fs "disc.cue" "out/disc.bin"
           [ {| title := "one"; offsetFrames := 0 |} ] []
           {| title := "two"; offsetFrames := 80 |}); [reflexivity | simpl; lia].
Defined.

(** A track that starts 100 minutes into the disc: the minutes take three
    characters, so the timecode is not three fields of two digits. *)
Lemma C4_counterexample_hundred_minutes :
  writeCUEFile sample_fs "disc.cue" "disc.bin" [ {| title := "late"; offsetFrames := 450000 |} ]
  = Ok ("FILE " ++ dquote ++ "disc.bin" ++ dquote ++ " BINARY" ++ nl
        ++ "  TRACK 1 AUDIO" ++ nl ++ "    TITLE " ++ dquote ++ "late" ++ dquote ++ nl
        ++ "    INDEX 01 100:00:00" ++ nl)%string
  /\ ~ (exists MM SS FF : string,
          String.length MM = 2%nat /\ String.length SS = 2%nat /\ String.length FF = 2%nat
          /\ writeCUEFile sample_fs "disc.cue" "disc.bin"
               [ {| title := "late"; offsetFrames := 450000 |} ]
             = Ok ("FILE " ++ dquote ++ "disc.bin" ++ dquote ++ " BINARY" ++ nl
                   ++ "  TRACK 1 AUDIO" ++ nl ++ "    TITLE " ++ dquote ++ "late" ++ dquote ++ nl
                   ++ "    INDEX 01 " ++ MM ++ ":" ++ SS ++ ":" ++ FF ++ nl)%string).
Proof.
  split; [reflexivity|].
  intros (MM & SS & FF & LM & LS & LF & H).
  destruct MM as [|m1 [|m2 [|m3 MM]]]; try discriminate LM.
  destruct SS as [|s1 [|s2 [|s3 SS]]]; try discriminate LS.
  destruct FF as [|f1 [|f2 [|f3 FF]]]; try discriminate LF.
  vm_compute in H. discriminate H.
Qed.

(** ** C5 *)

(** C5, as the code has it.  For every track list the CUE emitter writes one
    FILE line, [FILE "<binFileName>" BINARY], with [binFileName] exactly as
    supplied, and then for each track, in input order, a TRACK line, the
    TITLE line and the INDEX 01 line; the track number is 1-based and
    sequential and is written in plain decimal, without padding:
    [TRACK 1 AUDIO], ..., [TRACK 10 AUDIO].  From track 10 on this is the
    two-digit form. *)
Theorem C5_cue_sheet_layout (fs : FileSystem) (cueFilePath binFileName : string)
    (tracks : list TrackInfo) :
  ofstream_open fs cueFilePath = true ->
  writeCUEFile fs cueFilePath binFileName tracks
  = Ok (("FILE " ++ dquote ++ binFileName ++ dquote ++ " BINARY" ++ nl)
        ++ cue_tracks decimal 1 tracks)%string
  /\ (forall before track after, tracks = before ++ track :: after ->
        cue_tracks decimal 1 tracks
        = (cue_tracks decimal 1 before
           ++ ("  TRACK " ++ decimal (Z.of_nat (List.length before) + 1) ++ " AUDIO" ++ nl
               ++ "    TITLE " ++ dquote ++ title track ++ dquote ++ nl
               ++ "    INDEX 01 " ++ timecode (offsetFrames track) ++ nl)
           ++ cue_tracks decimal (Z.of_nat (List.length before) + 2) after)%string)
  /\ (forall n, 10 <= n < 100 -> decimal n = two_digits n).
Proof.
  intros Hopen. split; [|split].
  - rewrite writeCUEFile_closed, Hopen. reflexivity.
  - intros before track after ->. rewrite cue_tracks_app. cbn [cue_tracks].
    unfold cue_track, cue_index_line.
    replace (1 + Z.of_nat (List.length before) + 1)
      with (Z.of_nat (List.length before) + 2) by lia.
    replace (1 + Z.of_nat (List.length before))
      with (Z.of_nat (List.length before) + 1) by lia.
    rewrite !append_assoc. reflexivity.
  - intros n Hn. symmetry. apply two_digits_from_10. exact Hn.
Qed.

(** The sheet of the two-track scenario of the specification. *)
Lemma C5_witness_two_tracks :
  ofstream_open sample_fs "disc.cue" = true
  /\ writeCUEFile sample_fs "disc.cue" "out/disc.bin"
       [ {| title := "one"; offsetFrames := 0 |}; {| title := "two"; offsetFrames := 1 |} ]
     = Ok ("FILE " ++ dquote ++ "out/disc.bin" ++ dquote ++ " BINARY" ++ nl
           ++ "  TRACK 1 AUDIO" ++ nl ++ "    TITLE " ++ dquote ++ "one" ++ dquote ++ nl
           ++ "    INDEX 01 00:00:00" ++ nl
           ++ "  TRACK 2 AUDIO" ++ nl ++ "    TITLE " ++ dquote ++ "two" ++ dquote ++ nl
           ++ "    INDEX 01 00:00:01" ++ nl)%string.
Proof.
  split; [reflexivity|].
  apply (C5_cue_sheet_layout sample_fs "disc.cue" "out/disc.bin"
           [ {| title := "one"; offsetFrames := 0 |};
             {| title := "two"; offsetFrames := 1 |} ]).
  reflexivity.
Defined.

(** The first track is numbered [1], where the specification has [01]. *)
Lemma C5_counterexample_track_number_not_padded :
  writeCUEFile sample_fs "disc.cue" "disc.bin" [ {| title := "one"; offsetFrames := 0 |} ]
  = Ok ("FILE " ++ dquote ++ "disc.bin" ++ dquote ++ " BINARY" ++ nl
        ++ "  TRACK 1 AUDIO" ++ nl ++ "    TITLE " ++ dquote ++ "one" ++ dquote ++ nl
        ++ "    INDEX 01 00:00:00" ++ nl)%string
  /\ spec_cue_sheet "disc.bin" [ {| title := "one"; offsetFrames := 0 |} ]
     = ("FILE " ++ dquote ++ "disc.bin" ++ dquote ++ " BINARY" ++ nl
        ++ "  TRACK 01 AUDIO" ++ nl ++ "    TITLE " ++ dquote ++ "one" ++ dquote ++ nl
        ++ "    INDEX 01 00:00:00" ++ nl)%string
  /\ writeCUEFile sample_fs "disc.cue" "disc.bin" [ {| title := "one"; offsetFrames := 0 |} ]
     <> Ok (spec_cue_sheet "disc.bin" [ {| title := "one"; offsetFrames := 0 |} ]).
Proof.
  split; [reflexivity|]. split; [reflexivity|].
  vm_compute. discriminate.
Qed.

(** * Validation and errors *)

Lemma badHeader_false_iff (header : WAVHeader) :
  badHeader header = false <-> passes_validation header.
Proof.
  unfold badHeader, passes_validation.
  rewrite !orb_false_iff, !negb_false_iff, !String.eqb_eq, Z.eqb_eq. tauto.
Qed.

Lemma badHeader_true_iff (header : WAVHeader) :
  badHeader header = true
  <-> string_of_list_byte (chunkID header) <> "RIFF"
      \/ string_of_list_byte (format header) <> "WAVE"
      \/ audioFormat header <> 1.
Proof.
  unfold badHeader.
  rewrite !orb_true_iff, !negb_true_iff, !String.eqb_neq, Z.eqb_neq. tauto.
Qed.

(** ** The header fields as bytes of the file *)

Lemma slice_of_header (off len : nat) (wavFile : list byte) :
  (off + len <= sizeof_WAVHeader)%nat ->
  slice off len (firstn sizeof_WAVHeader wavFile) = slice off len wavFile.
Proof.
  intros Hle. unfold slice.
  rewrite skipn_firstn_comm, firstn_firstn, Nat.min_l by lia. reflexivity.
Qed.

Lemma string_of_list_byte_eq (l : list byte) (s : string) :
  string_of_list_byte l = s <-> l = list_byte_of_string s.
Proof.
  split; intros H.
  - rewrite <- H. symmetry. apply list_byte_of_string_of_list_byte.
  - rewrite H. apply string_of_list_byte_of_string.
Qed.

Lemma byte_val_inj (a b : byte) : byte_val a = byte_val b -> a = b.
Proof.
  unfold byte_val. intros H. apply N2Z.inj in H.
  pose proof (Byte.of_to_N a) as Ha. rewrite H, Byte.of_to_N in Ha. congruence.
Qed.

(** A little-endian 16-bit field is 1 exactly when its bytes are 01 00. *)
Lemma le_combine_one (l : list byte) :
  List.length l = 2%nat -> (le_combine l = 1 <-> l = [x01; x00]).
Proof.
  intros Hlen. destruct l as [|a [|b [|c l]]]; try discriminate Hlen.
  cbn [le_combine]. split.
  - intros H. pose proof (byte_val_range a). pose proof (byte_val_range b).
    assert (Ha : byte_val a = byte_val x01) by (change (byte_val x01) with 1; lia).
    assert (Hb : byte_val b = byte_val x00) by (change (byte_val x00) with 0; lia).
    apply byte_val_inj in Ha, Hb. subst. reflexivity.
  - intros [= -> ->]. reflexivity.
Qed.

(** The three checks, read on the bytes of the file. *)
Lemma passes_validation_bytes (wavFile : list byte) :
  (sizeof_WAVHeader <= List.length wavFile)%nat ->
  passes_validation (decode_WAVHeader (firstn sizeof_WAVHeader wavFile))
  <-> slice 0 4 wavFile = list_byte_of_string "RIFF"
      /\ slice 8 4 wavFile = list_byte_of_string "WAVE"
      /\ slice 20 2 wavFile = [x01; x00].
Proof.
  intros Hlen. unfold passes_validation, decode_WAVHeader.
  cbn [chunkID format audioFormat].
  rewrite !slice_of_header by (unfold sizeof_WAVHeader; lia).
  rewrite !string_of_list_byte_eq.
  assert (Hl : List.length (slice 20 2 wavFile) = 2%nat).
  { unfold slice. rewrite length_firstn, length_skipn.
    unfold sizeof_WAVHeader in Hlen. lia. }
  rewrite (le_combine_one _ Hl). reflexivity.
Qed.

(** The declared size is the little-endian number in bytes 40 to 43. *)
Lemma declared_size_bytes (wavFile : list byte) :
  (sizeof_WAVHeader <= List.length wavFile)%nat ->
  exists b0 b1 b2 b3,
    slice 40 4 wavFile = [b0; b1; b2; b3]
    /\ declared_size wavFile
       = byte_val b0 + 256 * byte_val b1 + 65536 * byte_val b2 + 16777216 * byte_val b3.
Proof.
  intros Hlen. unfold declared_size, decode_WAVHeader. cbn [subchunk2Size].
  rewrite slice_of_header by (unfold sizeof_WAVHeader; lia).
  assert (Hl : List.length (slice 40 4 wavFile) = 4%nat).
  { unfold slice. rewrite length_firstn, length_skipn.
    unfold sizeof_WAVHeader in Hlen. lia. }
  destruct (slice 40 4 wavFile) as [|b0 [|b1 [|b2 [|b3 [|b4 l]]]]]; try discriminate Hl.
  exists b0, b1, b2, b3. split; [reflexivity|].
  cbn [le_combine]. lia.
Qed.

(** ** C6 *)

(** C6.  For every file that opens and delivers its 44-byte header, the
    iteration throws the format error exactly when [chunkID] (bytes 0-3) is
    not "RIFF", or [format] (bytes 8-11) is not "WAVE", or [audioFormat]
    (bytes 20-21, little-endian) is not 1; it throws nothing else, and no
    other byte of the header takes part: two files that agree on those ten
    bytes are both rejected or both let through.  A header that passes and
    declares (in bytes 40-43, little-endian) a size of at most 4294966032
    bytes is accepted: the iteration ends normally and appends the block
    that starts with the payload, byte for byte.  A header that passes and
    declares more is let through as well, and the iteration then has no
    defined result: the aligned size does not fit 32 bits. *)
Theorem C6_validation_checks_three_fields (fs : FileSystem) (path : string)
    (wavFile : list byte) (st : ConvState) :
  ifstream_open fs path = Some wavFile ->
  (sizeof_WAVHeader <= List.length wavFile)%nat ->
  let header := decode_WAVHeader (firstn sizeof_WAVHeader wavFile) in
  (fst (convertWAVToBIN_body fs path st)
   = Throw ("Invalid or unsupported WAV file format: " ++ path)%string
   <-> string_of_list_byte (chunkID header) <> "RIFF"
       \/ string_of_list_byte (format header) <> "WAVE"
       \/ audioFormat header <> 1)
  /\ (passes_validation header
      <-> slice 0 4 wavFile = list_byte_of_string "RIFF"
          /\ slice 8 4 wavFile = list_byte_of_string "WAVE"
          /\ slice 20 2 wavFile = [x01; x00])
  /\ (forall what, fst (convertWAVToBIN_body fs path st) = Throw what ->
        what = ("Invalid or unsupported WAV file format: " ++ path)%string)
  /\ (forall (fs' : FileSystem) (wavFile' : list byte) (st' : ConvState),
        ifstream_open fs' path = Some wavFile' ->
        (sizeof_WAVHeader <= List.length wavFile')%nat ->
        slice 0 4 wavFile' = slice 0 4 wavFile ->
        slice 8 4 wavFile' = slice 8 4 wavFile ->
        slice 20 2 wavFile' = slice 20 2 wavFile ->
        (fst (convertWAVToBIN_body fs' path st')
         = Throw ("Invalid or unsupported WAV file format: " ++ path)%string
         <-> fst (convertWAVToBIN_body fs path st)
             = Throw ("Invalid or unsupported WAV file format: " ++ path)%string))
  /\ (exists b0 b1 b2 b3,
        slice 40 4 wavFile = [b0; b1; b2; b3]
        /\ declared_size wavFile
           = byte_val b0 + 256 * byte_val b1 + 65536 * byte_val b2 + 16777216 * byte_val b3)
  /\ (passes_validation header -> declared_size wavFile <= 4294966032 ->
      exists block,
        convertWAVToBIN_body fs path st
        = (Ok tt,
           {| binFile := binFile st ++ block;
              tracks := tracks st ++ [{| title := stem path;
                                         offsetFrames := currentOffsetFrames st |}];
              currentOffsetFrames :=
                wrap32 (currentOffsetFrames st + track_frames fs path) |})
        /\ is_track_block wavFile block)
  /\ (passes_validation header -> 4294966032 < declared_size wavFile ->
      convertWAVToBIN_body fs path st = (Undefined, st)).
Proof.
  intros Hopen Hlen header.
  pose proof (body_on_whole_header fs path wavFile st Hopen Hlen) as Hbody.
  fold header in Hbody.
  assert (Hthrow : forall fs0 w0 st0,
             ifstream_open fs0 path = Some w0 ->
             (sizeof_WAVHeader <= List.length w0)%nat ->
             fst (convertWAVToBIN_body fs0 path st0)
             = Throw ("Invalid or unsupported WAV file format: " ++ path)%string
             <-> ~ passes_validation (decode_WAVHeader (firstn sizeof_WAVHeader w0))).
  { intros fs0 w0 st0 Ho Hl. rewrite <- badHeader_false_iff.
    rewrite (body_on_whole_header fs0 path w0 st0 Ho Hl).
    destruct (badHeader (decode_WAVHeader (firstn sizeof_WAVHeader w0)));
      [split; [intros _ H; discriminate H | reflexivity]|].
    split; [|intros H; exfalso; apply H; reflexivity].
    destruct (alignedSize (declared_size w0)) as [a|]; [|discriminate].
    destruct (store _ _); discriminate. }
  split; [|split; [|split; [|split; [|split; [|split]]]]].
  - rewrite <- badHeader_true_iff. rewrite Hbody.
    destruct (badHeader header); [tauto|].
    split; [|discriminate].
    destruct (alignedSize (declared_size wavFile)) as [a|]; [|discriminate].
    destruct (store _ _); discriminate.
  - apply passes_validation_bytes. exact Hlen.
  - intros what. rewrite Hbody.
    destruct (badHeader header); [cbn [fst]; congruence|].
    destruct (alignedSize (declared_size wavFile)) as [a|]; [|discriminate].
    destruct (store _ _); discriminate.
  - intros fs' wavFile' st' Hopen' Hlen' H0 H8 H20.
    rewrite (Hthrow fs' wavFile' st' Hopen' Hlen'), (Hthrow fs wavFile st Hopen Hlen).
    rewrite (passes_validation_bytes wavFile' Hlen'), (passes_validation_bytes wavFile Hlen).
    rewrite H0, H8, H20. reflexivity.
  - apply declared_size_bytes. exact Hlen.
  - intros Hpass Hfit. exists (spec_block fs path).
    assert (Hproc : processable fs path = true).
    { unfold processable, valid_wav, alignable, wav_bytes. rewrite Hopen.
      apply badHeader_false_iff in Hpass. fold header. rewrite Hpass.
      apply andb_true_iff. split; [|apply Z.leb_le; exact Hfit].
      apply andb_true_iff. split; [apply Nat.leb_le; exact Hlen | reflexivity]. }
    split; [apply body_processable; exact Hproc|].
    pose proof (spec_block_is_track_block fs path Hproc) as Hb.
    unfold wav_bytes in Hb at 1. rewrite Hopen in Hb. exact Hb.
  - intros Hpass Hbig. rewrite Hbody.
    apply badHeader_false_iff in Hpass. rewrite Hpass.
    pose proof (declared_size_range wavFile) as Hd.
    rewrite alignedSize_overflow by (unfold max_alignable; lia). reflexivity.
Qed.

(** A canonical file with one byte of payload is accepted and its byte is
    copied in front of 2351 zeros; a file that starts with "ID3" is rejected;
    a canonical header that declares 4294967295 bytes passes the checks and
    leaves the iteration without a defined result. *)
Lemma C6_witness_accepted_rejected_oversize :
  ifstream_open sample_fs "two.wav"
  = Some (list_byte_of_string "RIFF" ++ [x25; x00; x00; x00]
          ++ list_byte_of_string "WAVEfmt " ++ [x10; x00; x00; x00]
          ++ [x01; x00] ++ [x02; x00] ++ [x44; xac; x00; x00] ++ [x10; xb1; x02; x00]
          ++ [x04; x00] ++ [x10; x00]
          ++ list_byte_of_string "data" ++ [x01; x00; x00; x00] ++ [x2a])
  /\ (sizeof_WAVHeader <= List.length (pcm_header 1 ++ [x2a]))%nat
  /\ (exists block,
        convertWAVToBIN_body sample_fs "two.wav"
          {| binFile := []; tracks := []; currentOffsetFrames := 0 |}
        = (Ok tt,
           {| binFile := block;
              tracks := [{| title := "two"; offsetFrames := 0 |}];
              currentOffsetFrames := 1 |})
        /\ is_track_block (pcm_header 1 ++ [x2a]) block
        /\ block = x2a :: repeat x00 2351)
  /\ fst (convertWAVToBIN_body sample_fs "mp3.wav"
            {| binFile := []; tracks := []; currentOffsetFrames := 0 |})
     = Throw "Invalid or unsupported WAV file format: mp3.wav"
  /\ convertWAVToBIN_body sample_fs "huge.wav"
       {| binFile := []; tracks := []; currentOffsetFrames := 0 |}
     = (Undefined, {| binFile := []; tracks := []; currentOffsetFrames := 0 |}).
Proof.
  split; [reflexivity|]. split; [vm_compute; lia|]. split; [|split].
  - destruct (C6_validation_checks_three_fields sample_fs "two.wav" (pcm_header 1 ++ [x2a])
                {| binFile := []; tracks := []; currentOffsetFrames := 0 |}
                eq_refl ltac:(vm_compute; lia))
      as (_ & _ & _ & _ & _ & Haccept & _).
    destruct Haccept as (block & Hbody & Hblock).
    + apply badHeader_false_iff. vm_compute. reflexivity.
    + vm_compute. discriminate.
    + exists block. split; [|split; [exact Hblock|]].
      * rewrite Hbody. reflexivity.
      * vm_compute in Hbody. injection Hbody as <-. reflexivity.
  - apply (C6_validation_checks_three_fields sample_fs "mp3.wav"
             (list_byte_of_string "ID3" ++ skipn 3 (pcm_header 8))
             {| binFile := []; tracks := []; currentOffsetFrames := 0 |}).
    + reflexivity.
    + vm_compute; lia.
    + left. vm_compute. discriminate.
  - apply (C6_validation_checks_three_fields sample_fs "huge.wav" (pcm_header 4294967295)
             {| binFile := []; tracks := []; currentOffsetFrames := 0 |}).
    + reflexivity.
    + vm_compute; lia.
    + apply badHeader_false_iff. vm_compute. reflexivity.
    + vm_compute. reflexivity.
Defined.

(** ** Rejected headers, whole or cut short *)

(** On a whole header the short-circuit evaluation is the plain one. *)
Lemma badHeader_short_whole (wavFile : list byte) :
  (sizeof_WAVHeader <= List.length wavFile)%nat ->
  badHeader_short wavFile
  = Some (badHeader (decode_WAVHeader (firstn sizeof_WAVHeader wavFile))).
Proof.
  intros Hlen. unfold badHeader_short, member, badHeader, decode_WAVHeader.
  cbn [chunkID format audioFormat].
  rewrite !slice_of_header by (unfold sizeof_WAVHeader; lia).
  unfold sizeof_WAVHeader in Hlen.
  replace (0 + 4 <=? List.length wavFile)%nat with true by (symmetry; apply Nat.leb_le; lia).
  replace (8 + 4 <=? List.length wavFile)%nat with true by (symmetry; apply Nat.leb_le; lia).
  replace (20 + 2 <=? List.length wavFile)%nat with true by (symmetry; apply Nat.leb_le; lia).
  destruct (string_of_list_byte (slice 0 4 wavFile) =? "RIFF")%string; [|reflexivity].
  destruct (string_of_list_byte (slice 8 4 wavFile) =? "WAVE")%string; reflexivity.
Qed.

Lemma rejected_short (wavFile : list byte) :
  rejected wavFile = match badHeader_short wavFile with
                     | Some bad => bad
                     | None => false
                     end.
Proof.
  unfold rejected.
  destruct (sizeof_WAVHeader <=? List.length wavFile)%nat eqn:Hlen; [|reflexivity].
  apply Nat.leb_le in Hlen. rewrite (badHeader_short_whole wavFile Hlen). reflexivity.
Qed.

(** A header is rejected exactly when the bytes of the file fail a check. *)
Lemma rejected_bytes (wavFile : list byte) :
  rejected wavFile = true <-> fails_a_check wavFile.
Proof.
  rewrite rejected_short. unfold badHeader_short, member, fails_a_check.
  destruct (Nat.leb_spec (0 + 4) (List.length wavFile)) as [H4 | H4];
    [|split; [discriminate | intros [[H _] | [[H _] | [H _]]]; lia]].
  destruct (String.eqb_spec (string_of_list_byte (slice 0 4 wavFile)) "RIFF") as [E1 | E1];
    rewrite string_of_list_byte_eq in E1; cbn [negb];
    [|split; [intros _; left; split; [lia | exact E1] | reflexivity]].
  destruct (Nat.leb_spec (8 + 4) (List.length wavFile)) as [H12 | H12];
    [|split; [discriminate | intros [[_ H] | [[H _] | [H _]]]; [congruence | lia | lia]]].
  destruct (String.eqb_spec (string_of_list_byte (slice 8 4 wavFile)) "WAVE") as [E2 | E2];
    rewrite string_of_list_byte_eq in E2; cbn [negb];
    [|split; [intros _; right; left; repeat split; [lia | exact E1 | exact E2]
             | reflexivity]].
  destruct (Nat.leb_spec (20 + 2) (List.length wavFile)) as [H22 | H22];
    [|split; [discriminate
             | intros [[_ H] | [(_ & _ & H) | [H _]]]; [congruence | congruence | lia]]].
  assert (Hl : List.length (slice 20 2 wavFile) = 2%nat)
    by (unfold slice; rewrite length_firstn, length_skipn; lia).
  pose proof (le_combine_one _ Hl) as Hone.
  destruct (Z.eqb_spec (le_combine (slice 20 2 wavFile)) 1) as [E3 | E3];
    rewrite Hone in E3; cbn [negb].
  - split; [discriminate|].
    intros [[_ H] | [(_ & _ & H) | (_ & _ & _ & H)]]; congruence.
  - split; [|reflexivity]. intros _. right. right. repeat split; [lia | assumption ..].
Qed.

(** * Errors end the run *)

Lemma body_failing (fs : FileSystem) (path : string) (st : ConvState) :
  fails_to_open fs path || fails_validation fs path = true ->
  convertWAVToBIN_body fs path st = (Throw (error_message fs path), st).
Proof.
  unfold fails_to_open, fails_validation, error_message, fails_to_open.
  destruct (ifstream_open fs path) as [wavFile|] eqn:Hopen.
  - cbn [orb]. intros Hbad.
    destruct (Nat.le_gt_cases sizeof_WAVHeader (List.length wavFile)) as [Hlen | Hlen].
    + rewrite (body_on_whole_header fs path wavFile st Hopen Hlen).
      unfold rejected in Hbad. apply Nat.leb_le in Hlen. rewrite Hlen in Hbad.
      rewrite Hbad. reflexivity.
    + rewrite (body_on_short_header fs path wavFile st Hopen Hlen), Hbad. reflexivity.
  - intros _. unfold convertWAVToBIN_body. rewrite Hopen. reflexivity.
Qed.

Lemma loop_app_ok (fs : FileSystem) (done rest : list string) (st st' : ConvState) :
  convertWAVToBIN_loop fs done st = (Ok tt, st') ->
  convertWAVToBIN_loop fs (done ++ rest) st = convertWAVToBIN_loop fs rest st'.
Proof.
  revert st. induction done as [|p r IH]; intros st Hdone.
  - simpl in Hdone. injection Hdone as <-. reflexivity.
  - cbn [app convertWAVToBIN_loop] in *.
    destruct (convertWAVToBIN_body fs p st) as [[[]|what|] st1]; try discriminate.
    apply IH. exact Hdone.
Qed.

(** A failing file after valid ones: the exception leaves what the valid
    ones produced. *)
Lemma convertWAVToBIN_failing (fs : FileSystem) (done : list string) (failing : string)
    (remaining : list string) (binFilePath : string) (tracks0 : list TrackInfo) :
  ofstream_open fs binFilePath = true ->
  forallb (processable fs) done = true ->
  fails_to_open fs failing || fails_validation fs failing = true ->
  convertWAVToBIN fs (done ++ failing :: remaining) binFilePath tracks0
  = {| outcome := Throw (error_message fs failing);
       binContents := Some (List.concat (map (spec_block fs) done));
       tracksOut := tracks0 ++ tracks_from fs 0 done |}.
Proof.
  intros Hopen Hdone Hfail. unfold convertWAVToBIN. rewrite Hopen. cbn [negb].
  destruct (loop_processable fs done
              {| binFile := []; tracks := tracks0; currentOffsetFrames := 0 |} Hdone)
    as [offset Heq].
  rewrite (loop_app_ok fs done (failing :: remaining) _ _ Heq).
  cbn [convertWAVToBIN_loop]. rewrite (body_failing fs failing _ Hfail).
  reflexivity.
Qed.

(** ** C7 *)

(** C7.  If, after any number of valid files, an input file does not open,
    or fails validation (its header, whole or cut short by the end of the
    file, fails a check), the assembler throws at that file: the message is
    "Failed to open WAV file: <path>" for a file that does not open and
    "Invalid or unsupported WAV file format: <path>" for a rejected header;
    the tracks recorded and the bytes of the BIN file are those of the
    files before it, so no track is recorded for the failing file and the
    earlier blocks stay in place; the files after it have no effect; and
    the driver reports the message unchanged and exits with status 1. *)
Theorem C7_error_stops_the_run (fs : FileSystem) (done : list string) (failing : string)
    (remaining : list string) (argv0 binFilePath cueFilePath what : string) :
  ofstream_open fs binFilePath = true ->
  forallb (processable fs) done = true ->
  (ifstream_open fs failing = None
   /\ what = ("Failed to open WAV file: " ++ failing)%string)
  \/ (exists wavFile,
        ifstream_open fs failing = Some wavFile /\ fails_a_check wavFile
        /\ what = ("Invalid or unsupported WAV file format: " ++ failing)%string) ->
  let conv := convertWAVToBIN fs (done ++ failing :: remaining) binFilePath [] in
  outcome conv = Throw what
  /\ tracksOut conv = tracksOut (convertWAVToBIN fs done binFilePath [])
  /\ List.length (tracksOut conv) = List.length done
  /\ binContents conv = binContents (convertWAVToBIN fs done binFilePath [])
  /\ binContents conv = Some (List.concat (map (spec_block fs) done))
  /\ (forall others, convertWAVToBIN fs (done ++ failing :: others) binFilePath [] = conv)
  /\ main fs (argv0 :: binFilePath :: cueFilePath :: done ++ failing :: remaining)
     = Some {| exit_status := 1; stdout := EmptyString;
               stderr := ("Error: " ++ what ++ nl)%string;
               binOnDisk := Some (List.concat (map (spec_block fs) done));
               cueOnDisk := None |}.
Proof.
  intros Hopen Hdone Hcause conv.
  assert (Hfail : fails_to_open fs failing || fails_validation fs failing = true
                  /\ what = error_message fs failing).
  { unfold error_message, fails_to_open, fails_validation.
    destruct Hcause as [[Hnone ->] | (wavFile & Hsome & Hcheck & ->)].
    - rewrite Hnone. split; reflexivity.
    - rewrite Hsome. apply rejected_bytes in Hcheck. rewrite Hcheck. split; reflexivity. }
  destruct Hfail as [Hfail ->].
  assert (Hconv : forall others,
             convertWAVToBIN fs (done ++ failing :: others) binFilePath []
             = {| outcome := Throw (error_message fs failing);
                  binContents := Some (List.concat (map (spec_block fs) done));
                  tracksOut := tracks_from fs 0 done |}).
  { intros others.
    apply (convertWAVToBIN_failing fs done failing others binFilePath [] Hopen Hdone Hfail). }
  unfold conv. rewrite (Hconv remaining).
  rewrite (convertWAVToBIN_processable fs done binFilePath [] Hopen Hdone).
  cbn [outcome tracksOut binContents app].
  repeat split.
  - apply tracks_from_length.
  - intros others. apply Hconv.
  - unfold main.
    replace (Z.of_nat (List.length (argv0 :: binFilePath :: cueFilePath
                                      :: done ++ failing :: remaining)) <? 4)
      with false
      by (symmetry; apply Z.ltb_ge; cbn [List.length]; rewrite length_app;
          cbn [List.length]; lia).
    cbn [nth skipn]. rewrite (Hconv remaining). reflexivity.
Qed.

(** A ten-byte text file after two valid files: its first four bytes are
    not RIFF, so the run stops there with the format error and the blocks of
    the two files stay in the image. *)
Lemma C7_witness_text_file :
  ofstream_open cut_fs "disc.bin" = true
  /\ forallb (processable cut_fs) ["two.wav"; "short.wav"] = true
  /\ ifstream_open cut_fs "notes.txt" = Some (list_byte_of_string "hello worl")
  /\ fails_a_check (list_byte_of_string "hello worl")
  /\ main cut_fs ("wav2bin" :: "disc.bin" :: "disc.cue"
                  :: ["two.wav"; "short.wav"] ++ "notes.txt" :: ["/music/one.wav"])
     = Some {| exit_status := 1; stdout := EmptyString;
               stderr := ("Error: Invalid or unsupported WAV file format: notes.txt"
                          ++ nl)%string;
               binOnDisk := Some ((x2a :: repeat x00 2351) ++ (x0a :: repeat x00 2351));
               cueOnDisk := None |}.
Proof.
  assert (Hcheck : fails_a_check (list_byte_of_string "hello worl")).
  { left. split; [cbn; lia | vm_compute; discriminate]. }
  split; [reflexivity|]. split; [reflexivity|]. split; [reflexivity|].
  split; [exact Hcheck|].
  apply (C7_error_stops_the_run cut_fs ["two.wav"; "short.wav"] "notes.txt"
           ["/music/one.wav"] "wav2bin" "disc.bin" "disc.cue"
           "Invalid or unsupported WAV file format: notes.txt");
    [reflexivity | reflexivity |].
  right. exists (list_byte_of_string "hello worl").
  split; [reflexivity|]. split; [exact Hcheck | reflexivity].
Defined.

(** * The driver *)


Lemma main_enough_arguments (fs : FileSystem) (argv0 binFilePath cueFilePath : string)
    (wavFilePaths : list string) :
  wavFilePaths <> [] ->
  main fs (argv0 :: binFilePath :: cueFilePath :: wavFilePaths)
  = let conv := convertWAVToBIN fs wavFilePaths binFilePath [] in
    match outcome conv with
    | Undefined => None
    | Throw what => Some (failed what (binContents conv))
    | Ok _ =>
        match writeCUEFile fs cueFilePath binFilePath (tracksOut conv) with
        | Undefined => None
        | Throw what => Some (failed what (binContents conv))
        | Ok cue =>
            Some {| exit_status := 0; stdout := completed; stderr := EmptyString;
                    binOnDisk := if (cueFilePath =? binFilePath)%string
                                 then Some (list_byte_of_string cue)
                                 else binContents conv;
                    cueOnDisk := Some cue |}
        end
    end.
Proof.
  intros Hne. unfold main.
  replace (Z.of_nat (List.length (argv0 :: binFilePath :: cueFilePath :: wavFilePaths)) <? 4)
    with false
    by (symmetry; apply Z.ltb_ge; destruct wavFilePaths; [congruence | cbn [List.length]; lia]).
  reflexivity.
Qed.

(** ** Runs with a defined result *)

(** On a file that is not a valid file of alignable size, the iteration
    either raises an error or has no defined result. *)
Lemma body_not_processable (fs : FileSystem) (path : string) (st : ConvState) :
  processable fs path = false ->
  convertWAVToBIN_body fs path st
  = (if fails_to_open fs path || fails_validation fs path
     then Throw (error_message fs path) else Undefined, st).
Proof.
  intros Hp.
  destruct (fails_to_open fs path || fails_validation fs path) eqn:Hfail;
    [apply body_failing; exact Hfail|].
  apply orb_false_iff in Hfail as [Hopen Hrej].
  unfold fails_to_open in Hopen. unfold fails_validation in Hrej.
  destruct (ifstream_open fs path) as [wavFile|] eqn:Ho; [|discriminate].
  destruct (Nat.le_gt_cases sizeof_WAVHeader (List.length wavFile)) as [Hlen | Hlen].
  - assert (Hvalid : valid_wav fs path = true).
    { unfold valid_wav. rewrite Ho. unfold rejected in Hrej.
      apply Nat.leb_le in Hlen. rewrite Hlen in *. rewrite Hrej. reflexivity. }
    apply body_oversize; [exact Hvalid|].
    unfold processable in Hp. rewrite Hvalid in Hp. exact Hp.
  - rewrite (body_on_short_header fs path wavFile st Ho Hlen), Hrej. reflexivity.
Qed.

(** The loop has a defined result exactly on the lists of [defined_run]. *)
Lemma loop_defined_run (fs : FileSystem) (paths : list string) (st : ConvState) :
  fst (convertWAVToBIN_loop fs paths st) = Undefined <-> defined_run fs paths = false.
Proof.
  revert st. induction paths as [|p r IH]; intros st.
  - cbn. split; discriminate.
  - cbn [convertWAVToBIN_loop defined_run].
    destruct (processable fs p) eqn:Hp.
    + rewrite (body_processable fs p st Hp). apply IH.
    + rewrite (body_not_processable fs p st Hp).
      destruct (fails_to_open fs p || fails_validation fs p);
        cbn [fst]; split; (discriminate || reflexivity).
Qed.

(** Where the behaviour is lost: at the first file that is not valid and
    alignable, which opens and either ends before its header does and passes
    the checks that its bytes allow, or passes validation and declares more
    than the largest alignable size. *)
Lemma defined_run_false_inv (fs : FileSystem) (paths : list string) :
  defined_run fs paths = false ->
  exists done path rest wavFile,
    paths = done ++ path :: rest
    /\ forallb (processable fs) done = true
    /\ ifstream_open fs path = Some wavFile
    /\ (((List.length wavFile < sizeof_WAVHeader)%nat /\ ~ fails_a_check wavFile)
        \/ ((sizeof_WAVHeader <= List.length wavFile)%nat
            /\ passes_validation (decode_WAVHeader (firstn sizeof_WAVHeader wavFile))
            /\ max_alignable < declared_size wavFile)).
Proof.
  induction paths as [|p r IH]; [discriminate|].
  cbn [defined_run]. destruct (processable fs p) eqn:Hp.
  - intros Hr. destruct (IH Hr) as (done & path & rest & wavFile & -> & Hdone & Ho & Hwhy).
    exists (p :: done), path, rest, wavFile. cbn [app forallb]. rewrite Hp, Hdone.
    repeat split; assumption.
  - intros Hfail. apply orb_false_iff in Hfail as [Hopen Hrej].
    unfold fails_to_open in Hopen. unfold fails_validation in Hrej.
    destruct (ifstream_open fs p) as [wavFile|] eqn:Ho; [|discriminate].
    exists [], p, r, wavFile. repeat split; [exact Ho|].
    destruct (Nat.le_gt_cases sizeof_WAVHeader (List.length wavFile)) as [Hlen | Hlen].
    + right. split; [exact Hlen|].
      assert (Hbad : badHeader (decode_WAVHeader (firstn sizeof_WAVHeader wavFile)) = false).
      { unfold rejected in Hrej. apply Nat.leb_le in Hlen. rewrite Hlen in Hrej. exact Hrej. }
      split; [apply badHeader_false_iff; exact Hbad|].
      unfold processable, valid_wav, alignable, wav_bytes in Hp. rewrite Ho, Hbad in Hp.
      apply Nat.leb_le in Hlen. rewrite Hlen in Hp. cbn [negb andb] in Hp.
      apply Z.leb_gt in Hp. exact Hp.
    + left. split; [exact Hlen|].
      rewrite <- rejected_bytes, Hrej. discriminate.
Qed.

(** With at least one input, the program has a defined result unless the BIN
    file opens and the loop has none. *)
Lemma main_defined_run (fs : FileSystem) (argv0 binFilePath cueFilePath first : string)
    (more : list string) :
  main fs (argv0 :: binFilePath :: cueFilePath :: first :: more) = None
  <-> ofstream_open fs binFilePath = true /\ defined_run fs (first :: more) = false.
Proof.
  rewrite main_enough_arguments by discriminate. cbv zeta.
  rewrite writeCUEFile_closed. unfold convertWAVToBIN.
  destruct (ofstream_open fs binFilePath); cbn [negb outcome].
  - pose proof (loop_defined_run fs (first :: more)
                  {| binFile := []; tracks := []; currentOffsetFrames := 0 |}) as Hloop.
    destruct (convertWAVToBIN_loop fs (first :: more) _) as [r st].
    cbn [fst outcome] in *.
    destruct r as [[]|what|].
    + destruct (ofstream_open fs cueFilePath); split;
        try discriminate; intros [_ H]; apply Hloop in H; discriminate.
    + split; [discriminate|]. intros [_ H]. apply Hloop in H. discriminate.
    + split; [|reflexivity]. intros _. split; [reflexivity|]. apply Hloop. reflexivity.
  - split; [discriminate|]. intros [H _]. discriminate.
Qed.

(** ** C8 *)



(** * Tracks without payload *)




(** ** C9 *)



(** * Determinism *)

Lemma body_ext (fs1 fs2 : FileSystem) (path : string) (st : ConvState) :
  ifstream_open fs1 path = ifstream_open fs2 path ->
  convertWAVToBIN_body fs1 path st = convertWAVToBIN_body fs2 path st.
Proof. intros H. unfold convertWAVToBIN_body. rewrite H. reflexivity. Qed.

Lemma loop_ext (fs1 fs2 : FileSystem) (paths : list string) (st : ConvState) :
  (forall path, In path paths -> ifstream_open fs1 path = ifstream_open fs2 path) ->
  convertWAVToBIN_loop fs1 paths st = convertWAVToBIN_loop fs2 paths st.
Proof.
  revert st. induction paths as [|p r IH]; intros st Hsame; [reflexivity|].
  cbn [convertWAVToBIN_loop].
  rewrite (body_ext fs1 fs2 p st) by (apply Hsame; left; reflexivity).
  destruct (convertWAVToBIN_body fs2 p st) as [[[]|what|] st1]; try reflexivity.
  apply IH. intros path Hin. apply Hsame. right. exact Hin.
Qed.

(** ** C10 *)

(** C10.  A run has one result, fixed by its inputs, exactly when its
    behaviour is defined: when the BIN file does not open, or the first
    input that is not a valid file of alignable size (if there is one)
    raises an error.  Two such runs on the same argument vector, on file
    systems in which the listed input files have identical contents (and
    the two output paths open alike), agree in every result: the same BIN
    bytes, the same track list, the same CUE text, the same messages and
    exit status.  In every other run the behaviour is undefined and nothing
    is fixed about the outputs: the run reaches a file that ends before its
    header does and passes the checks that its bytes allow, of which the
    code then uses members that the read never stored, or a file that
    passes validation and declares more than 4294966032 bytes, whose
    aligned size does not fit 32 bits. *)
Theorem C10_runs_are_deterministic (fs1 fs2 : FileSystem)
    (argv0 binFilePath cueFilePath first : string) (more : list string) :
  let wavFilePaths := first :: more in
  let argv := argv0 :: binFilePath :: cueFilePath :: wavFilePaths in
  (forall path, In path wavFilePaths -> ifstream_open fs1 path = ifstream_open fs2 path) ->
  ofstream_open fs1 binFilePath = ofstream_open fs2 binFilePath ->
  ofstream_open fs1 cueFilePath = ofstream_open fs2 cueFilePath ->
  (ofstream_open fs1 binFilePath = false \/ defined_run fs1 wavFilePaths = true ->
   (exists p, main fs1 argv = Some p /\ main fs2 argv = Some p)
   /\ convertWAVToBIN fs1 wavFilePaths binFilePath []
      = convertWAVToBIN fs2 wavFilePaths binFilePath []
   /\ outcome (convertWAVToBIN fs1 wavFilePaths binFilePath []) <> Undefined
   /\ writeCUEFile fs1 cueFilePath binFilePath
        (tracksOut (convertWAVToBIN fs1 wavFilePaths binFilePath []))
      = writeCUEFile fs2 cueFilePath binFilePath
          (tracksOut (convertWAVToBIN fs2 wavFilePaths binFilePath [])))
  /\ (ofstream_open fs1 binFilePath = true -> defined_run fs1 wavFilePaths = false ->
      main fs1 argv = None /\ main fs2 argv = None
      /\ outcome (convertWAVToBIN fs1 wavFilePaths binFilePath []) = Undefined
      /\ exists done path rest wavFile,
           wavFilePaths = done ++ path :: rest
           /\ forallb (processable fs1) done = true
           /\ ifstream_open fs1 path = Some wavFile
           /\ (((List.length wavFile < 44)%nat /\ ~ fails_a_check wavFile)
               \/ ((44 <= List.length wavFile)%nat
                   /\ passes_validation (decode_WAVHeader (firstn 44 wavFile))
                   /\ 4294966032 < declared_size wavFile))).
Proof.
  intros wavFilePaths argv Hsame Hbin Hcue.
  assert (Hconv : convertWAVToBIN fs1 wavFilePaths binFilePath []
                  = convertWAVToBIN fs2 wavFilePaths binFilePath []).
  { unfold convertWAVToBIN. rewrite Hbin, (loop_ext fs1 fs2 wavFilePaths _ Hsame).
    reflexivity. }
  assert (Hsheet : forall tracks,
             writeCUEFile fs1 cueFilePath binFilePath tracks
             = writeCUEFile fs2 cueFilePath binFilePath tracks).
  { intros tracks. unfold writeCUEFile. rewrite Hcue. reflexivity. }
  assert (Hmain : main fs1 argv = main fs2 argv).
  { unfold argv. rewrite !main_enough_arguments by discriminate. cbv zeta.
    fold wavFilePaths. rewrite Hconv.
    destruct (outcome (convertWAVToBIN fs2 wavFilePaths binFilePath [])); try reflexivity.
    rewrite Hsheet. reflexivity. }
  pose proof (main_defined_run fs1 argv0 binFilePath cueFilePath first more) as Hdef.
  fold wavFilePaths in Hdef. fold argv in Hdef.
  assert (Hout : outcome (convertWAVToBIN fs1 wavFilePaths binFilePath []) = Undefined
                 <-> ofstream_open fs1 binFilePath = true
                     /\ defined_run fs1 wavFilePaths = false).
  { unfold convertWAVToBIN. destruct (ofstream_open fs1 binFilePath); cbn [negb].
    - pose proof (loop_defined_run fs1 wavFilePaths
                    {| binFile := []; tracks := []; currentOffsetFrames := 0 |}) as Hloop.
      destruct (convertWAVToBIN_loop fs1 wavFilePaths _) as [r st]. cbn [fst outcome] in *.
      rewrite Hloop. tauto.
    - cbn [outcome]. split; [discriminate | intros [H _]; discriminate]. }
  split.
  - intros Hgood.
    assert (Hsome : main fs1 argv <> None).
    { rewrite Hdef. intros [Hb Hd]. destruct Hgood as [H | H]; congruence. }
    split; [|split; [exact Hconv|split; [|rewrite Hconv; apply Hsheet]]].
    + destruct (main fs1 argv) as [p|] eqn:Hp; [|congruence].
      exists p. split; [reflexivity | symmetry; exact Hmain].
    + rewrite Hout. intros [Hb Hd]. destruct Hgood as [H | H]; congruence.
  - intros Hb Hd.
    assert (Hnone : main fs1 argv = None) by (apply Hdef; split; assumption).
    split; [exact Hnone|]. split; [rewrite <- Hmain; exact Hnone|].
    split; [apply Hout; split; assumption|].
    apply (defined_run_false_inv fs1 wavFilePaths Hd).
Qed.

(** The sample disc on two volumes that differ elsewhere gives one result;
    a run that reaches the first forty bytes of a canonical header, or a
    header that declares 4294967295 bytes, has none. *)
Lemma C10_witness_two_volumes_and_two_undefined_runs :
  (forall path, In path ["/music/one.wav"; "two.wav"; "short.wav"] ->
                ifstream_open sample_fs path = ifstream_open other_fs path)
  /\ ifstream_open sample_fs "unrelated.wav" <> ifstream_open other_fs "unrelated.wav"
  /\ (exists p,
        main sample_fs
          ["wav2bin"; "disc.bin"; "disc.cue"; "/music/one.wav"; "two.wav"; "short.wav"]
        = Some p
        /\ main other_fs
             ["wav2bin"; "disc.bin"; "disc.cue"; "/music/one.wav"; "two.wav"; "short.wav"]
           = Some p)
  /\ ifstream_open cut_fs "cut.wav" = Some (firstn 40 (pcm_header 8))
  /\ main cut_fs ["wav2bin"; "disc.bin"; "disc.cue"; "cut.wav"] = None
  /\ main sample_fs ["wav2bin"; "disc.bin"; "disc.cue"; "two.wav"; "huge.wav"] = None.
Proof.
  assert (Hsame : forall path, In path ["/music/one.wav"; "two.wav"; "short.wav"] ->
                    ifstream_open sample_fs path = ifstream_open other_fs path).
  { intros path [<- | [<- | [<- | []]]]; reflexivity. }
  split; [exact Hsame|]. split; [vm_compute; discriminate|].
  split; [|split; [reflexivity|split]].
  - apply (C10_runs_are_deterministic sample_fs other_fs "wav2bin" "disc.bin" "disc.cue"
             "/music/one.wav" ["two.wav"; "short.wav"] Hsame eq_refl eq_refl).
    right. reflexivity.
  - apply (C10_runs_are_deterministic cut_fs cut_fs "wav2bin" "disc.bin" "disc.cue"
             "cut.wav" [] (fun _ _ => eq_refl) eq_refl eq_refl);
      reflexivity.
  - apply (C10_runs_are_deterministic sample_fs sample_fs "wav2bin" "disc.bin" "disc.cue"
             "two.wav" ["huge.wav"] (fun _ _ => eq_refl) eq_refl eq_refl);
      reflexivity.
Defined.

(** * Further properties of the size computation *)

(** An aligned size that is computed is the integer ceiling. *)
Lemma alignedSize_Some_inv (rawSize a : Z) :
  0 <= rawSize < 2 ^ 32 -> alignedSize rawSize = Some a ->
  rawSize <= max_alignable /\ a = spec_alignedSize rawSize.
Proof.
  intros Hr Ha. destruct (Z_le_gt_dec rawSize max_alignable) as [Hle | Hgt].
  - rewrite alignedSize_exact in Ha by lia. injection Ha as <-. split; [exact Hle | reflexivity].
  - rewrite alignedSize_overflow in Ha by lia. discriminate.
Qed.

Lemma spec_alignedSize_fixed (rawSize : Z) :
  spec_alignedSize rawSize = rawSize <-> rawSize mod 2352 = 0.
Proof.
  pose proof (spec_alignedSize_bounds rawSize) as [Hmod Hb].
  unfold CD_SECTOR_SIZE in *. split.
  - intros Heq. rewrite Heq in Hmod. exact Hmod.
  - intros H0.
    pose proof (Z.div_mod rawSize 2352 ltac:(lia)) as Hr. rewrite H0 in Hr.
    pose proof (Z.div_mod (spec_alignedSize rawSize) 2352 ltac:(lia)) as Ha.
    rewrite Hmod in Ha. lia.
Qed.

Lemma spec_alignedSize_monotone (r1 r2 : Z) :
  r1 <= r2 -> spec_alignedSize r1 <= spec_alignedSize r2.
Proof.
  intros Hle. unfold spec_alignedSize, CD_SECTOR_SIZE.
  apply Z.mul_le_mono_nonneg_r; [lia|]. apply Z.div_le_mono; lia.
Qed.

(** X1.  For every 32-bit payload size, the aligned size the code computes
    equals the payload size exactly when that size is a whole number of
    sectors: such a payload gets no padding and every other one gets some.
    The computation is idempotent (an aligned size is aligned to itself) and
    monotone (a larger payload never gets a smaller aligned size). *)
Theorem X1_alignedSize_fixed_points (rawSize : Z) :
  0 <= rawSize < 2 ^ 32 ->
  (alignedSize rawSize = Some rawSize <-> rawSize mod 2352 = 0)
  /\ (forall a, alignedSize rawSize = Some a -> alignedSize a = Some a)
  /\ (forall rawSize' a a',
        rawSize <= rawSize' < 2 ^ 32 ->
        alignedSize rawSize = Some a -> alignedSize rawSize' = Some a' -> a <= a').
Proof.
  intros Hr. split; [|split].
  - split.
    + intros Ha. destruct (alignedSize_Some_inv rawSize rawSize Hr Ha) as [_ Heq].
      apply spec_alignedSize_fixed. symmetry. exact Heq.
    + intros H0.
      assert (Hle : rawSize <= max_alignable).
      { unfold max_alignable.
        pose proof (Z.div_mod rawSize 2352 ltac:(lia)) as Hdm. rewrite H0 in Hdm.
        assert (rawSize / 2352 <= 1826091)
          by (apply Z.lt_succ_r, Z.div_lt_upper_bound; lia).
        lia. }
      rewrite alignedSize_exact by lia. f_equal. apply spec_alignedSize_fixed. exact H0.
  - intros a Ha. destruct (alignedSize_Some_inv rawSize a Hr Ha) as [Hle ->].
    pose proof (spec_alignedSize_bounds rawSize) as [Hmod Hb].
    pose proof (spec_alignedSize_least rawSize 1826091) as Hleast.
    unfold CD_SECTOR_SIZE, max_alignable in *.
    rewrite alignedSize_exact by (unfold max_alignable; lia).
    f_equal. apply spec_alignedSize_fixed. exact Hmod.
  - intros rawSize' a a' Hr' Ha Ha'.
    destruct (alignedSize_Some_inv rawSize a Hr Ha) as [_ ->].
    destruct (alignedSize_Some_inv rawSize' a' ltac:(lia) Ha') as [_ ->].
    apply spec_alignedSize_monotone. lia.
Qed.

(** Two sectors exactly, and one byte more. *)
Lemma X1_witness_two_sectors :
  0 <= 4704 < 2 ^ 32
  /\ (alignedSize 4704 = Some 4704 <-> 4704 mod 2352 = 0)
  /\ alignedSize 4704 = Some 4704
  /\ alignedSize 4705 = Some 7056.
Proof.
  split; [lia|].
  split; [apply (X1_alignedSize_fixed_points 4704); lia|].
  split; vm_compute; reflexivity.
Defined.

(** * Runs on arbitrary inputs *)

(** An iteration that ends normally has met a valid file of alignable
    size. *)
Lemma body_Ok_inv (fs : FileSystem) (path : string) (st : ConvState) :
  fst (convertWAVToBIN_body fs path st) = Ok tt -> processable fs path = true.
Proof.
  unfold convertWAVToBIN_body, processable, valid_wav, alignable, wav_bytes, read_WAVHeader.
  destruct (ifstream_open fs path) as [wavFile|]; [|discriminate].
  destruct (List.length wavFile <? sizeof_WAVHeader)%nat eqn:Hlen;
    [destruct (badHeader_short wavFile) as [[|]|]; discriminate|].
  apply Nat.ltb_ge, Nat.leb_le in Hlen. rewrite Hlen.
  destruct (badHeader _); [discriminate|].
  fold (declared_size wavFile).
  destruct (alignedSize (declared_size wavFile)) as [a|] eqn:Ha; [|discriminate].
  intros _.
  destruct (alignedSize_Some_inv _ a (declared_size_range wavFile) Ha) as [Hle _].
  apply Z.leb_le in Hle. rewrite Hle. reflexivity.
Qed.

(** An iteration that does not end normally leaves the state as it was. *)
Lemma body_stopped_state (fs : FileSystem) (path : string) (st : ConvState) :
  fst (convertWAVToBIN_body fs path st) <> Ok tt ->
  snd (convertWAVToBIN_body fs path st) = st.
Proof.
  unfold convertWAVToBIN_body.
  destruct (ifstream_open fs path) as [wavFile|]; [|reflexivity].
  destruct (read_WAVHeader wavFile) as [[header rest]|];
    [|destruct (badHeader_short wavFile) as [[|]|]; reflexivity].
  destruct (badHeader header); [reflexivity|].
  destruct (alignedSize (subchunk2Size header)) as [a|]; [|reflexivity].
  destruct (store _ _); [|reflexivity].
  cbn [fst]. congruence.
Qed.

(** The loop processes the longest leading run of valid files of alignable
    size, and stops at the file after it, if any. *)
Lemma loop_longest_prefix (fs : FileSystem) (paths : list string) (st : ConvState) :
  exists done rest offset,
    paths = done ++ rest
    /\ forallb (processable fs) done = true
    /\ snd (convertWAVToBIN_loop fs paths st)
       = {| binFile := binFile st ++ List.concat (map (spec_block fs) done);
            tracks := tracks st ++ tracks_from fs (currentOffsetFrames st) done;
            currentOffsetFrames := offset |}
    /\ match rest with
       | [] => fst (convertWAVToBIN_loop fs paths st) = Ok tt
       | path :: _ =>
           processable fs path = false
           /\ fst (convertWAVToBIN_loop fs paths st) <> Ok tt
       end.
Proof.
  revert st. induction paths as [|p r IH]; intros st.
  - exists [], [], (currentOffsetFrames st). cbn. rewrite !app_nil_r.
    destruct st; repeat split.
  - destruct (processable fs p) eqn:Hp.
    + cbn [convertWAVToBIN_loop]. rewrite (body_processable fs p st Hp).
      destruct (IH {| binFile := binFile st ++ spec_block fs p;
                      tracks := tracks st ++ [{| title := stem p;
                                                 offsetFrames := currentOffsetFrames st |}];
                      currentOffsetFrames :=
                        wrap32 (currentOffsetFrames st + track_frames fs p) |})
        as (done & rest & offset & Hsplit & Hdone & Hstate & Hrest).
      exists (p :: done), rest, offset. split; [rewrite Hsplit; reflexivity|].
      split; [cbn [forallb]; rewrite Hp, Hdone; reflexivity|].
      split; [|exact Hrest].
      rewrite Hstate. cbn [binFile tracks currentOffsetFrames map List.concat tracks_from].
      rewrite <- !app_assoc. reflexivity.
    + exists [], (p :: r), (currentOffsetFrames st).
      split; [reflexivity|]. split; [reflexivity|].
      cbn [convertWAVToBIN_loop map List.concat tracks_from].
      rewrite !app_nil_r.
      assert (Hnot : fst (convertWAVToBIN_body fs p st) <> Ok tt).
      { intros Hok. apply body_Ok_inv in Hok. congruence. }
      pose proof (body_stopped_state fs p st Hnot) as Hst.
      destruct (convertWAVToBIN_body fs p st) as [[[]|what|] st1];
        cbn [fst snd] in *; try congruence.
      * subst st1. split; [destruct st; reflexivity|]. split; [exact Hp | discriminate].
      * subst st1. split; [destruct st; reflexivity|]. split; [exact Hp | discriminate].
Qed.

Lemma convertWAVToBIN_longest_prefix (fs : FileSystem) (wavFilePaths : list string)
    (binFilePath : string) (tracks0 : list TrackInfo) :
  ofstream_open fs binFilePath = true ->
  exists done rest,
    wavFilePaths = done ++ rest
    /\ forallb (processable fs) done = true
    /\ binContents (convertWAVToBIN fs wavFilePaths binFilePath tracks0)
       = Some (List.concat (map (spec_block fs) done))
    /\ tracksOut (convertWAVToBIN fs wavFilePaths binFilePath tracks0)
       = tracks0 ++ tracks_from fs 0 done
    /\ match rest with
       | [] => outcome (convertWAVToBIN fs wavFilePaths binFilePath tracks0) = Ok tt
       | path :: _ =>
           processable fs path = false
           /\ outcome (convertWAVToBIN fs wavFilePaths binFilePath tracks0) <> Ok tt
       end.
Proof.
  intros Hopen. unfold convertWAVToBIN. rewrite Hopen. cbn [negb].
  destruct (loop_longest_prefix fs wavFilePaths
              {| binFile := []; tracks := tracks0; currentOffsetFrames := 0 |})
    as (done & rest & offset & Hsplit & Hdone & Hstate & Hrest).
  exists done, rest.
  destruct (convertWAVToBIN_loop fs wavFilePaths _) as [r st].
  cbn [fst snd] in *. subst st. cbn [outcome binContents tracksOut binFile tracks app].
  repeat split; assumption.
Qed.

Lemma tracks_from_titles (fs : FileSystem) (offset : Z) (paths : list string) :
  map title (tracks_from fs offset paths) = map stem paths.
Proof.
  revert offset. induction paths as [|p r IH]; intros offset; [reflexivity|].
  cbn [tracks_from map title]. rewrite IH. reflexivity.
Qed.

Lemma tracks_from_offsets_range (fs : FileSystem) (offset : Z) (paths : list string) :
  0 <= offset < 2 ^ 32 ->
  Forall (fun t => 0 <= offsetFrames t < 2 ^ 32) (tracks_from fs offset paths).
Proof.
  revert offset. induction paths as [|p r IH]; intros offset Ho; [constructor|].
  cbn [tracks_from]. constructor; [exact Ho|]. apply IH, wrap32_range.
Qed.

Lemma sum_aligned_sectors (fs : FileSystem) (paths : list string) :
  forallb (processable fs) paths = true ->
  sum_aligned fs paths = 2352 * sum_frames fs paths.
Proof.
  induction paths as [|p r IH]; intros Hall; [reflexivity|].
  forallb_cons Hall Hp Hr. cbn [sum_aligned sum_frames]. rewrite (IH Hr).
  destruct (track_frames_processable fs p Hp) as (a & Ha & _ & Hf).
  unfold track_alignedSize. rewrite Ha. lia.
Qed.

(** X2.  Whatever the input files are, as long as the BIN file opens and the
    behaviour of the run is defined, [convertWAVToBIN] processes exactly the
    longest leading run of valid files of alignable size: it ends normally
    if and only if that run is the whole list, and otherwise stops at the
    first file that is not such a file.  The BIN file holds the blocks of the
    processed files and nothing else, so its length is a whole number of
    2352-byte sectors (the frames of those files); the entries the caller's
    track list had are kept, and one track per processed file is appended,
    titled with the stem of its path, with an offset that fits 32 bits. *)
Theorem X2_processed_prefix (fs : FileSystem) (wavFilePaths : list string)
    (binFilePath : string) (tracks0 : list TrackInfo) :
  ofstream_open fs binFilePath = true ->
  outcome (convertWAVToBIN fs wavFilePaths binFilePath tracks0) <> Undefined ->
  exists done rest bytes recorded,
    wavFilePaths = done ++ rest
    /\ forallb (processable fs) done = true
    /\ (outcome (convertWAVToBIN fs wavFilePaths binFilePath tracks0) = Ok tt <-> rest = [])
    /\ (forall path rest', rest = path :: rest' -> processable fs path = false)
    /\ binContents (convertWAVToBIN fs wavFilePaths binFilePath tracks0) = Some bytes
    /\ bytes = List.concat (map (spec_block fs) done)
    /\ Z.of_nat (List.length bytes) = 2352 * sum_frames fs done
    /\ tracksOut (convertWAVToBIN fs wavFilePaths binFilePath tracks0) = tracks0 ++ recorded
    /\ map title recorded = map stem done
    /\ Forall (fun t => 0 <= offsetFrames t < 2 ^ 32) recorded.
Proof.
  intros Hopen _.
  destruct (convertWAVToBIN_longest_prefix fs wavFilePaths binFilePath tracks0 Hopen)
    as (done & rest & Hsplit & Hdone & Hbin & Htracks & Hrest).
  exists done, rest, (List.concat (map (spec_block fs) done)), (tracks_from fs 0 done).
  split; [exact Hsplit|]. split; [exact Hdone|]. split.
  { destruct rest as [|p r]; [tauto|]. destruct Hrest as [_ Hnot]. split; [tauto | discriminate]. }
  split.
  { intros path rest' ->. apply Hrest. }
  split; [exact Hbin|]. split; [reflexivity|]. split.
  { rewrite (sum_aligned_blocks fs done Hdone). apply sum_aligned_sectors. exact Hdone. }
  split; [exact Htracks|]. split; [apply tracks_from_titles|].
  apply tracks_from_offsets_range. lia.
Qed.

(** A valid file, then a file that is not RIFF, then another valid file,
    appended to a list that already has an entry. *)
Lemma X2_witness_stops_at_invalid :
  ofstream_open sample_fs "disc.bin" = true
  /\ outcome (convertWAVToBIN sample_fs ["two.wav"; "mp3.wav"; "short.wav"] "disc.bin"
                [{| title := "kept"; offsetFrames := 7 |}]) <> Undefined
  /\ exists done rest bytes recorded,
       ["two.wav"; "mp3.wav"; "short.wav"] = done ++ rest
       /\ forallb (processable sample_fs) done = true
       /\ (outcome (convertWAVToBIN sample_fs ["two.wav"; "mp3.wav"; "short.wav"] "disc.bin"
                      [{| title := "kept"; offsetFrames := 7 |}]) = Ok tt <-> rest = [])
       /\ (forall path rest', rest = path :: rest' -> processable sample_fs path = false)
       /\ binContents (convertWAVToBIN sample_fs ["two.wav"; "mp3.wav"; "short.wav"] "disc.bin"
                         [{| title := "kept"; offsetFrames := 7 |}]) = Some bytes
       /\ bytes = List.concat (map (spec_block sample_fs) done)
       /\ Z.of_nat (List.length bytes) = 2352 * sum_frames sample_fs done
       /\ tracksOut (convertWAVToBIN sample_fs ["two.wav"; "mp3.wav"; "short.wav"] "disc.bin"
                       [{| title := "kept"; offsetFrames := 7 |}])
          = [{| title := "kept"; offsetFrames := 7 |}] ++ recorded
       /\ map title recorded = map stem done
       /\ Forall (fun t => 0 <= offsetFrames t < 2 ^ 32) recorded.
Proof.
  split; [reflexivity|]. split; [vm_compute; discriminate|].
  apply (X2_processed_prefix sample_fs ["two.wav"; "mp3.wav"; "short.wav"] "disc.bin"
           [{| title := "kept"; offsetFrames := 7 |}]); [reflexivity | vm_compute; discriminate].
Defined.

(** * What the exit status tells *)

(** X3.  With at least one input, a run whose behaviour is defined exits
    with status 0 if and only if the BIN file opens, every input is a valid
    WAV file of alignable size, and the CUE file opens.  Such a run that
    exits with status 0 has left a sheet with one track per input and, when
    the two output paths differ, the whole image (every block, in order);
    when they are the same path, that file holds the sheet and the image is
    gone.  A run that exits with status 1 has left no sheet. *)
Theorem X3_exit_status_zero_iff (fs : FileSystem) (argv0 binFilePath cueFilePath first : string)
    (more : list string) :
  let wavFilePaths := first :: more in
  let argv := argv0 :: binFilePath :: cueFilePath :: wavFilePaths in
  main fs argv <> None ->
  ((exists p, main fs argv = Some p /\ exit_status p = 0)
   <-> ofstream_open fs binFilePath = true
       /\ forallb (processable fs) wavFilePaths = true
       /\ ofstream_open fs cueFilePath = true)
  /\ (forall p, main fs argv = Some p -> exit_status p = 0 ->
        cueOnDisk p = Some (plain_cue_sheet binFilePath (tracks_from fs 0 wavFilePaths))
        /\ List.length (tracks_from fs 0 wavFilePaths) = List.length wavFilePaths
        /\ (cueFilePath <> binFilePath ->
            binOnDisk p = Some (List.concat (map (spec_block fs) wavFilePaths)))
        /\ (cueFilePath = binFilePath ->
            binOnDisk p
            = Some (list_byte_of_string
                      (plain_cue_sheet binFilePath (tracks_from fs 0 wavFilePaths)))))
  /\ (forall p, main fs argv = Some p -> exit_status p = 1 -> cueOnDisk p = None).
Proof.
  intros wavFilePaths argv _.
  assert (Hmain := main_enough_arguments fs argv0 binFilePath cueFilePath wavFilePaths
                     ltac:(discriminate)).
  fold argv in Hmain. cbv zeta in Hmain.
  assert (Hinv : forall p, main fs argv = Some p -> exit_status p = 0 ->
            ofstream_open fs binFilePath = true
            /\ forallb (processable fs) wavFilePaths = true
            /\ ofstream_open fs cueFilePath = true).
  { intros p Hp Hexit. rewrite Hmain in Hp.
    destruct (ofstream_open fs binFilePath) eqn:Hbin.
    - destruct (convertWAVToBIN_longest_prefix fs wavFilePaths binFilePath [] Hbin)
        as (done & rest & Hsplit & Hdone & _ & _ & Hrest).
      destruct (outcome (convertWAVToBIN fs wavFilePaths binFilePath [])) as [[]|what|] eqn:Hout;
        [| injection Hp as <-; discriminate | discriminate].
      destruct rest as [|path rest']; [|destruct Hrest as [_ Hnot]; congruence].
      rewrite app_nil_r in Hsplit. subst done.
      rewrite writeCUEFile_closed in Hp.
      destruct (ofstream_open fs cueFilePath); [tauto|].
      injection Hp as <-. discriminate.
    - unfold convertWAVToBIN in Hp. rewrite Hbin in Hp. cbn in Hp.
      injection Hp as <-. discriminate. }
  assert (Hrun : ofstream_open fs binFilePath = true ->
                 forallb (processable fs) wavFilePaths = true ->
                 ofstream_open fs cueFilePath = true ->
                 main fs argv
                 = Some {| exit_status := 0; stdout := completed; stderr := EmptyString;
                           binOnDisk :=
                             if (cueFilePath =? binFilePath)%string
                             then Some (list_byte_of_string
                                          (plain_cue_sheet binFilePath
                                             (tracks_from fs 0 wavFilePaths)))
                             else Some (List.concat (map (spec_block fs) wavFilePaths));
                           cueOnDisk := Some (plain_cue_sheet binFilePath
                                                (tracks_from fs 0 wavFilePaths)) |}).
  { intros Hbin Hall Hcue. rewrite Hmain.
    rewrite (convertWAVToBIN_processable fs wavFilePaths binFilePath [] Hbin Hall).
    cbn [outcome tracksOut binContents app]. rewrite writeCUEFile_closed, Hcue. reflexivity. }
  split; [|split].
  - split.
    + intros (p & Hp & Hexit). exact (Hinv p Hp Hexit).
    + intros (Hbin & Hall & Hcue). eexists. split; [apply Hrun; assumption | reflexivity].
  - intros p Hp Hexit. destruct (Hinv p Hp Hexit) as (Hbin & Hall & Hcue).
    rewrite (Hrun Hbin Hall Hcue) in Hp. injection Hp as <-.
    cbn [binOnDisk cueOnDisk].
    split; [reflexivity|]. split; [apply tracks_from_length|]. split.
    + intros Hdiff. apply String.eqb_neq in Hdiff. rewrite Hdiff. reflexivity.
    + intros Hsame. apply String.eqb_eq in Hsame. rewrite Hsame. reflexivity.
  - intros p Hp Hexit. rewrite Hmain in Hp.
    destruct (outcome (convertWAVToBIN fs wavFilePaths binFilePath [])) as [[]|what|];
      [| injection Hp as <-; reflexivity | discriminate].
    destruct (writeCUEFile fs cueFilePath binFilePath _) as [cue|what|];
      [| injection Hp as <-; reflexivity | discriminate].
    injection Hp as <-. discriminate.
Qed.

(** A run of two valid files exits with 0; a run that meets a file which is
    not RIFF does not. *)
Lemma X3_witness_two_runs :
  main sample_fs ["wav2bin"; "disc.bin"; "disc.cue"; "two.wav"; "short.wav"] <> None
  /\ main sample_fs ["wav2bin"; "disc.bin"; "disc.cue"; "two.wav"; "mp3.wav"] <> None
  /\ (exists p, main sample_fs ["wav2bin"; "disc.bin"; "disc.cue"; "two.wav"; "short.wav"]
                = Some p
                /\ exit_status p = 0)
  /\ ~ (exists p, main sample_fs ["wav2bin"; "disc.bin"; "disc.cue"; "two.wav"; "mp3.wav"]
                  = Some p
                  /\ exit_status p = 0).
Proof.
  split; [vm_compute; discriminate|]. split; [vm_compute; discriminate|]. split.
  - apply (X3_exit_status_zero_iff sample_fs "wav2bin" "disc.bin" "disc.cue" "two.wav"
             ["short.wav"]); [vm_compute; discriminate|].
    repeat split; reflexivity.
  - intros H.
    apply (X3_exit_status_zero_iff sample_fs "wav2bin" "disc.bin" "disc.cue" "two.wav"
             ["mp3.wav"]) in H; [|vm_compute; discriminate].
    destruct H as (_ & Hall & _). vm_compute in Hall. discriminate.
Defined.

(** X4.  The output files are opened in a fixed order and never rolled
    back.  When the BIN file does not open, the program reports that error
    and exits with status 1 without looking at any input, whatever the
    inputs are, and writes nothing.  When the BIN file opens and every input
    is valid and alignable but the CUE file does not open, the program
    reports that error and exits with status 1, and the complete image stays
    on disk. *)
Theorem X4_output_files_fail_to_open (fs : FileSystem)
    (argv0 binFilePath cueFilePath first : string) (more : list string) :
  let wavFilePaths := first :: more in
  let argv := argv0 :: binFilePath :: cueFilePath :: wavFilePaths in
  (ofstream_open fs binFilePath = false ->
   main fs argv
   = Some {| exit_status := 1; stdout := EmptyString;
             stderr := ("Error: Failed to open BIN file for writing." ++ nl)%string;
             binOnDisk := None; cueOnDisk := None |})
  /\ (ofstream_open fs binFilePath = true ->
      forallb (processable fs) wavFilePaths = true ->
      ofstream_open fs cueFilePath = false ->
      main fs argv
      = Some {| exit_status := 1; stdout := EmptyString;
                stderr := ("Error: Failed to open CUE file for writing." ++ nl)%string;
                binOnDisk := Some (List.concat (map (spec_block fs) wavFilePaths));
                cueOnDisk := None |}
      /\ Z.of_nat (List.length (List.concat (map (spec_block fs) wavFilePaths)))
         = sum_aligned fs wavFilePaths).
Proof.
  intros wavFilePaths argv.
  assert (Hmain := main_enough_arguments fs argv0 binFilePath cueFilePath wavFilePaths
                     ltac:(discriminate)).
  fold argv in Hmain. cbv zeta in Hmain. split.
  - intros Hbin. rewrite Hmain. unfold convertWAVToBIN. rewrite Hbin. reflexivity.
  - intros Hbin Hall Hcue. split; [|apply sum_aligned_blocks; exact Hall].
    rewrite Hmain, (convertWAVToBIN_processable fs wavFilePaths binFilePath [] Hbin Hall).
    cbn [outcome tracksOut binContents app]. rewrite writeCUEFile_closed, Hcue. reflexivity.
Qed.

(** A sheet on a read-only volume: the image of 2352 bytes is left. *)
Lemma X4_witness_read_only_sheet :
  ofstream_open sample_fs "disc.bin" = true
  /\ forallb (processable sample_fs) ["two.wav"] = true
  /\ ofstream_open sample_fs "/readonly/out.cue" = false
  /\ option_map exit_status
       (main sample_fs ["wav2bin"; "disc.bin"; "/readonly/out.cue"; "two.wav"]) = Some 1
  /\ option_map (fun p => option_map (fun b => List.length b) (binOnDisk p))
       (main sample_fs ["wav2bin"; "disc.bin"; "/readonly/out.cue"; "two.wav"])
     = Some (Some 2352%nat).
Proof.
  split; [reflexivity|]. split; [reflexivity|]. split; [reflexivity|].
  destruct (X4_output_files_fail_to_open sample_fs "wav2bin" "disc.bin" "/readonly/out.cue"
              "two.wav" []) as [_ Hcue].
  destruct (Hcue eq_refl eq_refl eq_refl) as [Hmain _].
  rewrite Hmain. split; [reflexivity | vm_compute; reflexivity].
Defined.

(** * The sheet points into the image *)

Lemma firstn_skipn_middle {A} (a b c : list A) :
  firstn (List.length b) (skipn (List.length a) (a ++ b ++ c)) = b.
Proof.
  rewrite skipn_app, Nat.sub_diag, skipn_all. cbn [skipn app].
  rewrite firstn_app, Nat.sub_diag, firstn_all. cbn [firstn]. apply app_nil_r.
Qed.

(** X5.  In a run on valid files of alignable size whose frames before a
    track stay below 2^32, the offset recorded for the track locates its
    block in the image: the block starts at byte [2352 * offsetFrames], so
    the INDEX line of the sheet points at the first byte of the track's
    payload. *)
Theorem X5_offset_locates_block (fs : FileSystem) (before : list string) (path : string)
    (after : list string) (binFilePath : string) :
  ofstream_open fs binFilePath = true ->
  forallb (processable fs) (before ++ path :: after) = true ->
  sum_frames fs before < 2 ^ 32 ->
  exists bytes t block,
    binContents (convertWAVToBIN fs (before ++ path :: after) binFilePath []) = Some bytes
    /\ nth_error (tracksOut (convertWAVToBIN fs (before ++ path :: after) binFilePath []))
         (List.length before) = Some t
    /\ title t = stem path
    /\ is_track_block (wav_bytes fs path) block
    /\ firstn (List.length block) (skipn (Z.to_nat (2352 * offsetFrames t)) bytes) = block.
Proof.
  intros Hopen Hall Hsmall.
  rewrite (convertWAVToBIN_processable fs _ binFilePath [] Hopen Hall).
  cbn [binContents tracksOut app].
  pose proof Hall as Hparts. rewrite forallb_app in Hparts.
  apply andb_true_iff in Hparts as [Hbefore Hrest]. forallb_cons Hrest Hp Hafter.
  pose proof (sum_aligned_blocks fs before Hbefore) as Hlen.
  rewrite (sum_aligned_sectors fs before Hbefore) in Hlen.
  destruct (nth_error (tracks_from fs 0 (before ++ path :: after)) (List.length before))
    as [t|] eqn:Hnth.
  - destruct (tracks_from_nth fs _ 0 _ t ltac:(lia) Hnth) as (Hoff & _ & Htitle).
    rewrite firstn_app, Nat.sub_diag, firstn_all in Hoff. cbn [firstn] in Hoff.
    rewrite app_nil_r, Z.add_0_l, wrap32_small in Hoff by lia.
    exists (List.concat (map (spec_block fs) (before ++ path :: after))), t,
      (spec_block fs path).
    split; [reflexivity|]. split; [reflexivity|]. split.
    { rewrite Htitle, app_nth2, Nat.sub_diag by lia. reflexivity. }
    split; [apply spec_block_is_track_block; exact Hp|].
    rewrite map_app, concat_app. cbn [map List.concat].
    rewrite Hoff, <- Hlen, Nat2Z.id. apply firstn_skipn_middle.
  - apply nth_error_None in Hnth. rewrite tracks_from_length, length_app in Hnth.
    cbn [List.length] in Hnth. lia.
Qed.

(** The third track of the sample disc starts at the third sector. *)
Lemma X5_witness_third_track :
  ofstream_open sample_fs "disc.bin" = true
  /\ forallb (processable sample_fs) (["/music/one.wav"; "two.wav"] ++ "short.wav" :: []) = true
  /\ sum_frames sample_fs ["/music/one.wav"; "two.wav"] < 2 ^ 32
  /\ exists bytes t block,
       binContents (convertWAVToBIN sample_fs
                      (["/music/one.wav"; "two.wav"] ++ "short.wav" :: []) "disc.bin" [])
       = Some bytes
       /\ nth_error (tracksOut (convertWAVToBIN sample_fs
                                  (["/music/one.wav"; "two.wav"] ++ "short.wav" :: [])
                                  "disc.bin" []))
            (List.length ["/music/one.wav"; "two.wav"]) = Some t
       /\ title t = stem "short.wav"
       /\ is_track_block (wav_bytes sample_fs "short.wav") block
       /\ firstn (List.length block) (skipn (Z.to_nat (2352 * offsetFrames t)) bytes) = block.
Proof.
  split; [reflexivity|]. split; [reflexivity|]. split; [vm_compute; reflexivity|].
  apply (X5_offset_locates_block sample_fs ["/music/one.wav"; "two.wav"] "short.wav" []
           "disc.bin"); [reflexivity | reflexivity | vm_compute; reflexivity].
Defined.

(** * The timecode read back *)

(** The mixed-radix fields of the INDEX line make up the offset. *)
Lemma timecode_fields (f : Z) :
  0 <= f ->
  0 <= f / (75 * 60) /\ 0 <= (f / 75) mod 60 < 60 /\ 0 <= f mod 75 < 75
  /\ (f / (75 * 60) * 60 + (f / 75) mod 60) * 75 + f mod 75 = f.
Proof.
  intros Hf.
  pose proof (Z.div_mod f 75 ltac:(lia)) as H75.
  pose proof (Z.mod_pos_bound f 75 ltac:(lia)) as Hff.
  pose proof (Z.div_mod (f / 75) 60 ltac:(lia)) as H60.
  pose proof (Z.mod_pos_bound (f / 75) 60 ltac:(lia)) as Hss.
  assert (Hmm : f / (75 * 60) = f / 75 / 60) by (rewrite Z.div_div by lia; reflexivity).
  assert (0 <= f / (75 * 60)) by (apply Z.div_pos; lia).
  rewrite Hmm in *. repeat split; lia.
Qed.

Lemma timecode_reads_back (f : Z) :
  0 <= f ->
  exists mm ss ff,
    read_decimal (two_digits (f / (75 * 60))) = Some mm
    /\ read_decimal (two_digits ((f / 75) mod 60)) = Some ss
    /\ read_decimal (two_digits (f mod 75)) = Some ff
    /\ 0 <= ss < 60 /\ 0 <= ff < 75 /\ (mm * 60 + ss) * 75 + ff = f.
Proof.
  intros Hf. destruct (timecode_fields f Hf) as (Hmm & Hss & Hff & Hsum).
  exists (f / (75 * 60)), ((f / 75) mod 60), (f mod 75).
  rewrite !read_decimal_two_digits by lia. repeat split; lia.
Qed.

(** X6.  The timecode of an INDEX line reads back to the offset of its
    track: the seconds and frames fields take two characters each, the three
    fields are decimal numbers mm, ss < 60 and ff < 75, and
    (mm * 60 + ss) * 75 + ff is the offset.  So two tracks get the same
    timecode only if they have the same offset. *)
Theorem X6_timecode_reads_back (fs : FileSystem) (cueFilePath binFileName : string)
    (before after : list TrackInfo) (track : TrackInfo) :
  ofstream_open fs cueFilePath = true ->
  0 <= offsetFrames track < 2 ^ 32 ->
  (exists MM SS FF mm ss ff,
     writeCUEFile fs cueFilePath binFileName (before ++ track :: after)
     = Ok (plain_cue_sheet binFileName before
           ++ "  TRACK " ++ decimal (Z.of_nat (List.length before) + 1) ++ " AUDIO" ++ nl
           ++ "    TITLE " ++ dquote ++ title track ++ dquote ++ nl
           ++ "    INDEX 01 " ++ MM ++ ":" ++ SS ++ ":" ++ FF ++ nl
           ++ cue_tracks decimal (Z.of_nat (List.length before) + 2) after)%string
     /\ String.length SS = 2%nat /\ String.length FF = 2%nat
     /\ read_decimal MM = Some mm /\ read_decimal SS = Some ss /\ read_decimal FF = Some ff
     /\ 0 <= ss < 60 /\ 0 <= ff < 75
     /\ (mm * 60 + ss) * 75 + ff = offsetFrames track)
  /\ (forall other, 0 <= offsetFrames other < 2 ^ 32 ->
        cue_index_line (offsetFrames other) = cue_index_line (offsetFrames track) ->
        offsetFrames other = offsetFrames track).
Proof.
  intros Hopen Hf. split.
  - destruct (timecode_reads_back (offsetFrames track) ltac:(lia))
      as (mm & ss & ff & Hmm & Hss & Hff & Hrs & Hrf & Hsum).
    exists (two_digits (offsetFrames track / (75 * 60))),
      (two_digits ((offsetFrames track / 75) mod 60)),
      (two_digits (offsetFrames track mod 75)), mm, ss, ff.
    split.
    { rewrite writeCUEFile_closed, Hopen. f_equal.
      unfold plain_cue_sheet. rewrite cue_tracks_app. cbn [cue_tracks].
      unfold cue_track, cue_index_line, timecode.
      rewrite !append_assoc.
      replace (1 + Z.of_nat (List.length before) + 1)
        with (Z.of_nat (List.length before) + 2) by lia.
      replace (1 + Z.of_nat (List.length before))
        with (Z.of_nat (List.length before) + 1) by lia.
      reflexivity. }
    split.
    { apply two_digits_length.
      pose proof (Z.mod_pos_bound (offsetFrames track / 75) 60 ltac:(lia)). lia. }
    split.
    { apply two_digits_length.
      pose proof (Z.mod_pos_bound (offsetFrames track) 75 ltac:(lia)). lia. }
    repeat split; assumption || lia.
  - intros other Ho Heq.
    set (f := offsetFrames track) in *. set (g := offsetFrames other) in *.
    destruct (timecode_fields f ltac:(lia)) as (Hf1 & Hf2 & Hf3 & Hfsum).
    destruct (timecode_fields g ltac:(lia)) as (Hg1 & Hg2 & Hg3 & Hgsum).
    pose proof (two_digits_length ((f / 75) mod 60) ltac:(lia)) as Lfs.
    pose proof (two_digits_length (f mod 75) ltac:(lia)) as Lff.
    pose proof (two_digits_length ((g / 75) mod 60) ltac:(lia)) as Lgs.
    pose proof (two_digits_length (g mod 75) ltac:(lia)) as Lgf.
    unfold cue_index_line, timecode in Heq.
    (* strip the fixed head, then split from the right by the fixed widths *)
    cbn [append] in Heq. injection Heq as Heq.
    apply append_inj_tail in Heq as [Heq _]; [|reflexivity].
    apply append_inj_tail in Heq as [Hmm Hrest];
      [| cbn [String.length]; rewrite !length_append; cbn [String.length];
         rewrite Lfs, Lff, Lgs, Lgf; reflexivity].
    injection Hrest as Hrest.
    apply append_inj_tail in Hrest as [Hss Hrest];
      [| cbn [String.length]; rewrite Lff, Lgf; reflexivity].
    injection Hrest as Hff.
    apply (f_equal read_decimal) in Hmm, Hss, Hff.
    rewrite !read_decimal_two_digits in Hmm, Hss, Hff
      by (try apply Z.div_pos; lia).
    injection Hmm as Hmm. injection Hss as Hss. injection Hff as Hff.
    change (75 * 60) with 4500 in *. lia.
Qed.

(** Frame 449999 is written 99:59:74 and reads back. *)
Lemma X6_witness_last_two_digit_minute :
  ofstream_open sample_fs "disc.cue" = true
  /\ 0 <= 449999 < 2 ^ 32
  /\ cue_index_line 449999 = ("    INDEX 01 99:59:74" ++ nl)%string
  /\ forall other, 0 <= offsetFrames other < 2 ^ 32 ->
       cue_index_line (offsetFrames other) = cue_index_line 449999 ->
       offsetFrames other = 449999.
Proof.
  split; [reflexivity|]. split; [lia|]. split; [vm_compute; reflexivity|].
  apply (X6_timecode_reads_back sample_fs "disc.cue" "disc.bin" [] []
           {| title := "last"; offsetFrames := 449999 |}); [reflexivity | simpl; lia].
Defined.

(** * What an iteration reads of a file *)

Lemma slice_header_ext (off len : nat) (w1 w2 : list byte) :
  (forall i, (off <= i < off + len)%nat -> (i < sizeof_WAVHeader)%nat ->
             nth_error w1 i = nth_error w2 i) ->
  slice off len (firstn sizeof_WAVHeader w1) = slice off len (firstn sizeof_WAVHeader w2).
Proof.
  intros Hsame. apply nth_error_ext. intros i. unfold slice.
  rewrite !nth_error_firstn, !nth_error_skipn, !nth_error_firstn.
  destruct (i <? len)%nat eqn:Hi; [|reflexivity].
  destruct (off + i <? sizeof_WAVHeader)%nat eqn:Hh; [|reflexivity].
  apply Nat.ltb_lt in Hi, Hh. apply Hsame; lia.
Qed.

(** X7.  An iteration looks at bytes 0-3 ([chunkID]), 8-11 ([format]),
    20-21 ([audioFormat]) and 40-43 ([subchunk2Size]) of the header and at the
    payload, and at nothing else: two files that deliver a whole header and
    agree at those positions are treated alike, whatever [chunkSize], the
    names and size of the chunks, the channel count, the sample rate, the
    byte rate, the block alignment and the bits per sample are. *)
Theorem X7_unused_header_bytes (fs1 fs2 : FileSystem) (path : string)
    (w1 w2 : list byte) (st : ConvState) :
  ifstream_open fs1 path = Some w1 ->
  ifstream_open fs2 path = Some w2 ->
  (sizeof_WAVHeader <= List.length w1)%nat ->
  (sizeof_WAVHeader <= List.length w2)%nat ->
  (forall i, significant i = true -> nth_error w1 i = nth_error w2 i) ->
  convertWAVToBIN_body fs1 path st = convertWAVToBIN_body fs2 path st.
Proof.
  intros Hopen1 Hopen2 Hlen1 Hlen2 Hsame.
  rewrite (body_on_whole_header fs1 path w1 st Hopen1 Hlen1).
  rewrite (body_on_whole_header fs2 path w2 st Hopen2 Hlen2).
  assert (Hfield : forall off len,
             (forall i, (off <= i < off + len)%nat -> significant i = true) ->
             slice off len (firstn sizeof_WAVHeader w1)
             = slice off len (firstn sizeof_WAVHeader w2)).
  { intros off len Hsig. apply slice_header_ext. intros i Hi _. apply Hsame, Hsig, Hi. }
  assert (Hsig : forall lo hi, (forallb significant (seq lo (hi - lo)) = true) ->
                 forall i, (lo <= i < lo + (hi - lo))%nat -> significant i = true).
  { intros lo hi Hall i Hi. rewrite forallb_forall in Hall. apply Hall, in_seq. lia. }
  assert (Hid : slice 0 4 (firstn sizeof_WAVHeader w1) = slice 0 4 (firstn sizeof_WAVHeader w2))
    by (apply Hfield, (Hsig 0 4)%nat; reflexivity).
  assert (Hfmt : slice 8 4 (firstn sizeof_WAVHeader w1) = slice 8 4 (firstn sizeof_WAVHeader w2))
    by (apply Hfield, (Hsig 8 12)%nat; reflexivity).
  assert (Haf : slice 20 2 (firstn sizeof_WAVHeader w1) = slice 20 2 (firstn sizeof_WAVHeader w2))
    by (apply Hfield, (Hsig 20 22)%nat; reflexivity).
  assert (Hsz : slice 40 4 (firstn sizeof_WAVHeader w1) = slice 40 4 (firstn sizeof_WAVHeader w2))
    by (apply Hfield, (Hsig 40 44)%nat; reflexivity).
  assert (Hpay : payload w1 = payload w2).
  { unfold payload. apply nth_error_ext. intros i. rewrite !nth_error_skipn.
    apply Hsame. unfold significant, sizeof_WAVHeader.
    replace (40 <=? 44 + i)%nat with true by (symmetry; apply Nat.leb_le; lia).
    apply orb_true_r. }
  unfold badHeader, payload_read, declared_size, decode_WAVHeader.
  cbn [chunkID format audioFormat subchunk2Size].
  rewrite Hid, Hfmt, Haf, Hsz, Hpay. reflexivity.
Qed.

(** The one-byte track with a CD header and with a mono 8 kHz header. *)
Lemma X7_witness_lofi_header :
  ifstream_open sample_fs "two.wav" = Some (pcm_header 1 ++ [x2a])
  /\ ifstream_open variant_fs "two.wav" = Some (lofi_header 1 ++ [x2a])
  /\ (sizeof_WAVHeader <= List.length (pcm_header 1 ++ [x2a]))%nat
  /\ (sizeof_WAVHeader <= List.length (lofi_header 1 ++ [x2a]))%nat
  /\ pcm_header 1 <> lofi_header 1
  /\ convertWAVToBIN_body sample_fs "two.wav"
       {| binFile := []; tracks := []; currentOffsetFrames := 0 |}
     = convertWAVToBIN_body variant_fs "two.wav"
         {| binFile := []; tracks := []; currentOffsetFrames := 0 |}.
Proof.
  split; [reflexivity|]. split; [reflexivity|].
  split; [vm_compute; lia|]. split; [vm_compute; lia|].
  split; [vm_compute; discriminate|].
  apply (X7_unused_header_bytes sample_fs variant_fs "two.wav"
           (pcm_header 1 ++ [x2a]) (lofi_header 1 ++ [x2a])).
  - reflexivity.
  - reflexivity.
  - vm_compute; lia.
  - vm_compute; lia.
  - intros i Hi.
    do 45 (destruct i as [|i]; [first [reflexivity | discriminate Hi]|]).
    reflexivity.
Defined.

Lemma firstn_repeat_min {A} (x : A) (k n : nat) :
  firstn k (repeat x n) = repeat x (Nat.min k n).
Proof.
  destruct (Nat.le_ge_cases k n) as [Hle | Hge].
  - rewrite Nat.min_l by exact Hle. apply firstn_repeat_le. exact Hle.
  - rewrite Nat.min_r by exact Hge. apply firstn_all2. rewrite repeat_length. exact Hge.
Qed.

(** X8.  The declared size wins over the length of the file.  Bytes that
    follow the declared payload (further chunks, say) are never copied: a
    file and the same file with anything appended are treated alike when the
    file holds its declared payload.  And bytes that are missing read as
    zeros: a file that ends early and the same file completed with any
    number of zero bytes are treated alike. *)
Theorem X8_declared_size_wins (fs1 fs2 : FileSystem) (path : string)
    (wavFile extra : list byte) (st : ConvState) :
  ifstream_open fs1 path = Some wavFile ->
  ifstream_open fs2 path = Some (wavFile ++ extra) ->
  (sizeof_WAVHeader <= List.length wavFile)%nat ->
  (Z.to_nat (declared_size wavFile) <= List.length (payload wavFile))%nat
  \/ extra = repeat x00 (List.length extra) ->
  convertWAVToBIN_body fs1 path st = convertWAVToBIN_body fs2 path st.
Proof.
  intros Hopen1 Hopen2 Hlen Hcase.
  assert (Hlen2 : (sizeof_WAVHeader <= List.length (wavFile ++ extra))%nat)
    by (rewrite length_app; lia).
  rewrite (body_on_whole_header fs1 path wavFile st Hopen1 Hlen).
  rewrite (body_on_whole_header fs2 path (wavFile ++ extra) st Hopen2 Hlen2).
  assert (Hhead : firstn sizeof_WAVHeader (wavFile ++ extra) = firstn sizeof_WAVHeader wavFile).
  { rewrite firstn_app.
    replace (sizeof_WAVHeader - List.length wavFile)%nat with 0%nat by lia.
    cbn [firstn]. apply app_nil_r. }
  assert (Hpay : payload (wavFile ++ extra) = payload wavFile ++ extra).
  { unfold payload. rewrite skipn_app.
    replace (sizeof_WAVHeader - List.length wavFile)%nat with 0%nat by lia.
    reflexivity. }
  assert (Hsize : declared_size (wavFile ++ extra) = declared_size wavFile)
    by (unfold declared_size; rewrite Hhead; reflexivity).
  rewrite Hhead, Hsize.
  destruct (badHeader _); [reflexivity|].
  destruct (alignedSize (declared_size wavFile)) as [a|] eqn:Ha; [|reflexivity].
  destruct (alignedSize_Some_inv _ a (declared_size_range wavFile) Ha) as [_ Haeq].
  pose proof (spec_alignedSize_bounds (declared_size wavFile)) as [_ Hb].
  pose proof (declared_size_range wavFile) as Hd.
  set (n := Z.to_nat (declared_size wavFile)) in *.
  assert (Hna : (n <= Z.to_nat a)%nat) by (unfold n; lia).
  assert (Hread : payload_read (wavFile ++ extra)
                  = payload_read wavFile
                    ++ firstn (n - List.length (payload wavFile)) extra).
  { unfold payload_read. rewrite Hsize, Hpay. fold n. apply firstn_app. }
  assert (Hl1 : List.length (payload_read wavFile)
                = Nat.min n (List.length (payload wavFile)))
    by (unfold payload_read; apply length_firstn).
  destruct Hcase as [Hwhole | Hzeros].
  - replace (n - List.length (payload wavFile))%nat with 0%nat in Hread by lia.
    cbn [firstn] in Hread. rewrite app_nil_r in Hread. rewrite Hread. reflexivity.
  - remember (List.length extra) as k eqn:Hk. clear Hk. subst extra.
    rewrite firstn_repeat_min in Hread.
    set (m := Nat.min (n - List.length (payload wavFile)) k) in *.
    rewrite Hread.
    rewrite !store_zero_buffer by (rewrite ?length_app, ?repeat_length; lia).
    rewrite length_app, repeat_length, <- app_assoc, <- repeat_app.
    replace (m + (Z.to_nat a - (List.length (payload_read wavFile) + m)))%nat
      with (Z.to_nat a - List.length (payload_read wavFile))%nat by lia.
    reflexivity.
Qed.

(** A chunk after a full sector of payload is not copied, and the file that
    declares three bytes and holds one is read like the one completed with
    zeros. *)
Lemma X8_witness_trailing_and_missing_bytes :
  convertWAVToBIN_body sample_fs "/music/one.wav"
    {| binFile := []; tracks := []; currentOffsetFrames := 0 |}
  = convertWAVToBIN_body variant_fs "/music/one.wav"
      {| binFile := []; tracks := []; currentOffsetFrames := 0 |}
  /\ convertWAVToBIN_body sample_fs "short.wav"
       {| binFile := []; tracks := []; currentOffsetFrames := 0 |}
     = convertWAVToBIN_body variant_fs "short.wav"
         {| binFile := []; tracks := []; currentOffsetFrames := 0 |}.
Proof.
  split.
  - apply (X8_declared_size_wins sample_fs variant_fs "/music/one.wav"
             (pcm_header 2352 ++ repeat x07 2352) (list_byte_of_string "LISTinfo")).
    + reflexivity.
    + reflexivity.
    + vm_compute; lia.
    + left. vm_compute; lia.
  - apply (X8_declared_size_wins sample_fs variant_fs "short.wav"
             (pcm_header 3 ++ [x0a]) (repeat x00 4)).
    + reflexivity.
    + reflexivity.
    + vm_compute; lia.
    + right. reflexivity.
Defined.

(** * Track titles *)

Lemma span_until_found (c : ascii) (a b : list ascii) :
  ~ In c a -> span_until c (a ++ c :: b) = (a, Some b).
Proof.
  induction a as [|x a IH]; intros Hfree.
  - cbn [app span_until]. rewrite Ascii.eqb_refl. reflexivity.
  - cbn [app span_until].
    destruct (Ascii.eqb_spec x c) as [-> | Hne]; [exfalso; apply Hfree; left; reflexivity|].
    rewrite IH by (intros Hin; apply Hfree; right; exact Hin). reflexivity.
Qed.

Lemma span_until_absent (c : ascii) (a : list ascii) :
  ~ In c a -> span_until c a = (a, None).
Proof.
  induction a as [|x a IH]; intros Hfree; [reflexivity|].
  cbn [span_until].
  destruct (Ascii.eqb_spec x c) as [-> | Hne]; [exfalso; apply Hfree; left; reflexivity|].
  rewrite IH by (intros Hin; apply Hfree; right; exact Hin). reflexivity.
Qed.

(** What [span_until] returns: a part free of the character, and the part
    after its first occurrence. *)
Lemma span_until_spec (c : ascii) (l : list ascii) :
  ~ In c (fst (span_until c l))
  /\ match snd (span_until c l) with
     | Some post => l = fst (span_until c l) ++ c :: post
     | None => l = fst (span_until c l)
     end.
Proof.
  induction l as [|x l [IHfree IHsplit]]; [split; [intros []|reflexivity]|].
  cbn [span_until]. destruct (Ascii.eqb_spec x c) as [-> | Hne].
  - split; [intros []|reflexivity].
  - destruct (span_until c l) as [pre post]. cbn [fst snd] in *. split.
    + intros [Heq | Hin]; [congruence | exact (IHfree Hin)].
    + destruct post; cbn [app]; f_equal; exact IHsplit.
Qed.

Lemma list_ascii_of_string_append (a b : string) :
  list_ascii_of_string (a ++ b) = list_ascii_of_string a ++ list_ascii_of_string b.
Proof. induction a as [|c a IH]; simpl; [reflexivity|]. rewrite IH. reflexivity. Qed.

Lemma filename_chars (p : string) :
  list_ascii_of_string (filename p)
  = rev (fst (span_until slash (rev (list_ascii_of_string p)))).
Proof. unfold filename. apply list_ascii_of_string_of_list_ascii. Qed.

Lemma filename_no_slash (p : string) : ~ In slash (list_ascii_of_string (filename p)).
Proof.
  rewrite filename_chars, <- in_rev. apply span_until_spec.
Qed.

(** The last component of [dir/name], and of a path without a separator. *)
Lemma filename_last_component (dir name : string) :
  ~ In slash (list_ascii_of_string name) ->
  filename (dir ++ "/" ++ name) = name /\ filename name = name.
Proof.
  intros Hfree. unfold filename.
  assert (Hrev : ~ In slash (rev (list_ascii_of_string name)))
    by (rewrite <- in_rev; exact Hfree).
  split.
  - rewrite !list_ascii_of_string_append, !rev_app_distr. cbn [list_ascii_of_string rev app].
    rewrite <- app_assoc. cbn [app].
    rewrite (span_until_found slash _ _ Hrev). cbn [fst].
    rewrite rev_involutive. apply string_of_list_ascii_of_string.
  - rewrite (span_until_absent slash _ Hrev). cbn [fst].
    rewrite rev_involutive. apply string_of_list_ascii_of_string.
Qed.

(** The stem of a file name proper. *)
Lemma stem_of_filename (p : string) :
  stem p
  = let f := filename p in
    if (f =? ".")%string || (f =? "..")%string then f
    else
      match span_until dot (rev (list_ascii_of_string f)) with
      | (_, None) => f
      | (_, Some []) => f
      | (_, Some base) => string_of_list_ascii (rev base)
      end.
Proof. reflexivity. Qed.

Lemma string_length_chars (s : string) :
  String.length s = List.length (list_ascii_of_string s).
Proof. induction s as [|c s IH]; simpl; [reflexivity|]. rewrite IH. reflexivity. Qed.

(** The stem never holds a separator; it drops the directories and the last
    extension of [dir/name.ext]; it is the whole file name when that has no
    period. *)
Lemma stem_cases :
  (forall p, ~ In slash (list_ascii_of_string (stem p)))
  /\ (forall dir name ext,
        ~ In slash (list_ascii_of_string name) ->
        ~ In slash (list_ascii_of_string ext) ->
        ~ In dot (list_ascii_of_string ext) ->
        name <> EmptyString ->
        ~ (name = "." /\ ext = EmptyString) ->
        stem (dir ++ "/" ++ name ++ "." ++ ext) = name
        /\ stem (name ++ "." ++ ext) = name)
  /\ (forall dir name,
        ~ In slash (list_ascii_of_string name) ->
        ~ In dot (list_ascii_of_string name) ->
        stem (dir ++ "/" ++ name) = name /\ stem name = name).
Proof.
  split; [|split].
  - intros p. rewrite stem_of_filename. cbv zeta.
    pose proof (filename_no_slash p) as Hf.
    destruct ((filename p =? ".")%string || (filename p =? "..")%string); [exact Hf|].
    pose proof (span_until_spec dot (rev (list_ascii_of_string (filename p))))
      as [_ Hsplit].
    destruct (span_until dot (rev (list_ascii_of_string (filename p)))) as [pre [[|b base]|]];
      cbn [fst snd] in Hsplit; try exact Hf.
    rewrite list_ascii_of_string_of_list_ascii, <- in_rev. intros Hin. apply Hf.
    apply in_rev. rewrite Hsplit. apply in_or_app. right. right. exact Hin.
  - intros dir name ext Hname Hext Hdot Hne Hdots.
    assert (Hfile : ~ In slash (list_ascii_of_string (name ++ "." ++ ext))).
    { rewrite !list_ascii_of_string_append. cbn [list_ascii_of_string app].
      intros Hin. apply in_app_or in Hin as [Hin | [Heq | Hin]];
        [exact (Hname Hin) | discriminate Heq | exact (Hext Hin)]. }
    destruct (filename_last_component dir (name ++ "." ++ ext) Hfile) as [Hf1 Hf2].
    assert (Hstem : (let f := (name ++ "." ++ ext)%string in
                     if (f =? ".")%string || (f =? "..")%string then f
                     else
                       match span_until dot (rev (list_ascii_of_string f)) with
                       | (_, None) => f
                       | (_, Some []) => f
                       | (_, Some base) => string_of_list_ascii (rev base)
                       end) = name).
    { cbv zeta.
      assert (Hnot1 : (name ++ "." ++ ext)%string <> ".").
      { intros Heq. apply (f_equal String.length) in Heq.
        rewrite length_append in Heq. cbn [append String.length] in Heq.
        destruct name; [congruence | cbn [String.length] in Heq; lia]. }
      assert (Hnot2 : (name ++ "." ++ ext)%string <> "..").
      { intros Heq. apply Hdots.
        destruct name as [|c name]; [congruence|].
        cbn [append] in Heq. injection Heq as -> Heq.
        destruct name as [|c' name].
        - cbn [append] in Heq. injection Heq as ->. split; reflexivity.
        - exfalso. cbn [append] in Heq. injection Heq as _ Heq.
          apply (f_equal String.length) in Heq. rewrite length_append in Heq.
          cbn [append String.length] in Heq. lia. }
      apply String.eqb_neq in Hnot1, Hnot2. rewrite Hnot1, Hnot2. cbn [orb].
      rewrite !list_ascii_of_string_append, !rev_app_distr.
      cbn [list_ascii_of_string rev app]. rewrite <- app_assoc. cbn [app].
      rewrite span_until_found by (rewrite <- in_rev; exact Hdot).
      destruct (rev (list_ascii_of_string name)) as [|b base] eqn:Hrev.
      - exfalso. apply (f_equal (@List.length ascii)) in Hrev.
        rewrite length_rev, <- string_length_chars in Hrev.
        destruct name; [congruence | discriminate Hrev].
      - rewrite <- Hrev, rev_involutive. apply string_of_list_ascii_of_string. }
    split; rewrite stem_of_filename; [rewrite Hf1 | rewrite Hf2]; exact Hstem.
  - intros dir name Hname Hdot.
    destruct (filename_last_component dir name Hname) as [Hf1 Hf2].
    assert (Hstem : (let f := name in
                     if (f =? ".")%string || (f =? "..")%string then f
                     else
                       match span_until dot (rev (list_ascii_of_string f)) with
                       | (_, None) => f
                       | (_, Some []) => f
                       | (_, Some base) => string_of_list_ascii (rev base)
                       end) = name).
    { cbv zeta. destruct ((name =? ".")%string || (name =? "..")%string); [reflexivity|].
      rewrite span_until_absent by (rewrite <- in_rev; exact Hdot). reflexivity. }
    split; rewrite stem_of_filename; [rewrite Hf1 | rewrite Hf2]; exact Hstem.
Qed.

(** A file name that starts with its only period keeps it: the stem is the
    whole file name. *)
Lemma stem_leading_dot (dir ext : string) :
  ~ In slash (list_ascii_of_string ext) ->
  ~ In dot (list_ascii_of_string ext) ->
  stem (dir ++ "/" ++ "." ++ ext) = ("." ++ ext)%string
  /\ stem ("." ++ ext) = ("." ++ ext)%string.
Proof.
  intros Hslash Hdot.
  assert (Hfile : ~ In slash (list_ascii_of_string ("." ++ ext))).
  { cbn [append list_ascii_of_string]. intros [Heq | Hin];
      [discriminate Heq | exact (Hslash Hin)]. }
  destruct (filename_last_component dir ("." ++ ext) Hfile) as [Hf1 Hf2].
  assert (Hstem : (let f := ("." ++ ext)%string in
                   if (f =? ".")%string || (f =? "..")%string then f
                   else
                     match span_until dot (rev (list_ascii_of_string f)) with
                     | (_, None) => f
                     | (_, Some []) => f
                     | (_, Some base) => string_of_list_ascii (rev base)
                     end) = ("." ++ ext)%string).
  { cbv zeta.
    destruct ((("." ++ ext) =? ".")%string || (("." ++ ext) =? "..")%string);
      [reflexivity|].
    cbn [append list_ascii_of_string rev].
    unfold dot.
    rewrite (span_until_found "."%char (rev (list_ascii_of_string ext)) [])
      by (rewrite <- in_rev; exact Hdot).
    reflexivity. }
  split; rewrite stem_of_filename; [rewrite Hf1 | rewrite Hf2]; exact Hstem.
Qed.

Lemma stem_dot_dot (dir : string) : stem (dir ++ "/" ++ "..") = ".." /\ stem ".." = "..".
Proof.
  assert (Hfile : ~ In slash (list_ascii_of_string ".."))
    by (cbn; intros [H | [H | []]]; discriminate H).
  destruct (filename_last_component dir ".." Hfile) as [Hf1 Hf2].
  split; rewrite stem_of_filename; [rewrite Hf1 | rewrite Hf2]; reflexivity.
Qed.

(** X9.  In a run on valid files of alignable size, the track at each
    position is titled after the path at that position, with the
    directories and the last extension dropped.  The title never holds a
    directory separator.  For a path [dir/name.ext], or [name.ext] alone,
    where [name] is not empty and [ext] has no period, it is [name] ([name]
    may hold periods: only the last extension is dropped), except for the
    file name [..], which is kept whole.  For a file name without any
    period it is the whole file name.  A file name that starts with its
    only period ([.ext], a hidden file) is kept whole too, period
    included. *)
Theorem X9_title_of_path (fs : FileSystem) (wavFilePaths : list string)
    (binFilePath : string) (i : nat) (path : string) :
  ofstream_open fs binFilePath = true ->
  forallb (processable fs) wavFilePaths = true ->
  nth_error wavFilePaths i = Some path ->
  exists t,
    nth_error (tracksOut (convertWAVToBIN fs wavFilePaths binFilePath [])) i = Some t
    /\ ~ In slash (list_ascii_of_string (title t))
    /\ (forall dir name ext,
          path = (dir ++ "/" ++ name ++ "." ++ ext)%string
          \/ path = (name ++ "." ++ ext)%string ->
          ~ In slash (list_ascii_of_string name) ->
          ~ In slash (list_ascii_of_string ext) ->
          ~ In dot (list_ascii_of_string ext) ->
          name <> EmptyString ->
          ~ (name = "." /\ ext = EmptyString) ->
          title t = name)
    /\ (forall dir name,
          path = (dir ++ "/" ++ name)%string \/ path = name ->
          ~ In slash (list_ascii_of_string name) ->
          ~ In dot (list_ascii_of_string name) ->
          title t = name)
    /\ (forall dir ext,
          path = (dir ++ "/" ++ "." ++ ext)%string \/ path = ("." ++ ext)%string ->
          ~ In slash (list_ascii_of_string ext) ->
          ~ In dot (list_ascii_of_string ext) ->
          title t = ("." ++ ext)%string)
    /\ (forall dir, path = (dir ++ "/" ++ "..")%string \/ path = ".." -> title t = "..").
Proof.
  intros Hopen Hall Hpath.
  rewrite (convertWAVToBIN_processable fs wavFilePaths binFilePath [] Hopen Hall).
  cbn [tracksOut app].
  assert (Hi : (i < List.length (tracks_from fs 0 wavFilePaths))%nat).
  { rewrite tracks_from_length. apply nth_error_Some. congruence. }
  destruct (nth_error (tracks_from fs 0 wavFilePaths) i) as [t|] eqn:Ht;
    [|apply nth_error_Some in Hi; congruence].
  destruct (tracks_from_nth fs wavFilePaths 0 i t ltac:(lia) Ht) as (_ & Hnth & Htitle).
  assert (Hp : nth i wavFilePaths EmptyString = path) by congruence.
  rewrite Hp in Htitle.
  exists t. split; [reflexivity|]. rewrite Htitle.
  destruct stem_cases as (Hslash & Hext & Hplain).
  split; [apply Hslash|]. split; [|split; [|split]].
  - intros dir name ext Hform H1 H2 H3 H4 H5.
    destruct (Hext dir name ext H1 H2 H3 H4 H5) as [Ha Hb].
    destruct Hform as [-> | ->]; assumption.
  - intros dir name Hform H1 H2.
    destruct (Hplain dir name H1 H2) as [Ha Hb].
    destruct Hform as [-> | ->]; assumption.
  - intros dir ext Hform H1 H2.
    destruct (stem_leading_dot dir ext H1 H2) as [Ha Hb].
    destruct Hform as [-> | ->]; assumption.
  - intros dir Hform. destruct (stem_dot_dot dir) as [Ha Hb].
    destruct Hform as [-> | ->]; assumption.
Qed.

(** Three tracks: a file in a directory with periods in its names, a hidden
    file, and a file without extension. *)
Lemma X9_witness_three_titles :
  ofstream_open silent_fs "disc.bin" = true
  /\ forallb (processable silent_fs)
       ["/music/v1.0/05.intro.flac.wav"; "/music/.hidden"; "plain"] = true
  /\ map title (tracksOut (convertWAVToBIN silent_fs
                             ["/music/v1.0/05.intro.flac.wav"; "/music/.hidden"; "plain"]
                             "disc.bin" []))
     = ["05.intro.flac"; ".hidden"; "plain"]
  /\ exists t,
       nth_error (tracksOut (convertWAVToBIN silent_fs
                               ["/music/v1.0/05.intro.flac.wav"; "/music/.hidden"; "plain"]
                               "disc.bin" [])) 0 = Some t
       /\ title t = "05.intro.flac".
Proof.
  split; [reflexivity|]. split; [reflexivity|]. split; [vm_compute; reflexivity|].
  destruct (X9_title_of_path silent_fs
              ["/music/v1.0/05.intro.flac.wav"; "/music/.hidden"; "plain"] "disc.bin" 0
              "/music/v1.0/05.intro.flac.wav" eq_refl eq_refl eq_refl)
    as (t & Ht & _ & Hext & _).
  exists t. split; [exact Ht|].
  apply (Hext "/music/v1.0" "05.intro.flac" "wav");
    try (vm_compute; intuition discriminate); try discriminate.
Defined.

(** * Validation, byte by byte *)

(** X10.  Validation at the level of bytes: a file that delivers its header
    is accepted by the three checks exactly when bytes 0-3 are the
    characters RIFF, bytes 8-11 the characters WAVE (both exactly, in upper
    case) and bytes 20-21 are 01 00, the format tag 1 in little-endian
    order; every other file is rejected with the format error.  So other
    containers (RIFX, RF64) and other format tags (extensible, float,
    compressed) never reach the image. *)
Theorem X10_validation_bytes (fs : FileSystem) (path : string) (wavFile : list byte)
    (st : ConvState) :
  ifstream_open fs path = Some wavFile ->
  (sizeof_WAVHeader <= List.length wavFile)%nat ->
  (badHeader (decode_WAVHeader (firstn sizeof_WAVHeader wavFile)) = false
   <-> slice 0 4 wavFile = list_byte_of_string "RIFF"
       /\ slice 8 4 wavFile = list_byte_of_string "WAVE"
       /\ slice 20 2 wavFile = [x01; x00])
  /\ (fst (convertWAVToBIN_body fs path st)
      = Throw ("Invalid or unsupported WAV file format: " ++ path)%string
      <-> ~ (slice 0 4 wavFile = list_byte_of_string "RIFF"
             /\ slice 8 4 wavFile = list_byte_of_string "WAVE"
             /\ slice 20 2 wavFile = [x01; x00])).
Proof.
  intros Hopen Hlen.
  assert (Hbytes : badHeader (decode_WAVHeader (firstn sizeof_WAVHeader wavFile)) = false
                   <-> slice 0 4 wavFile = list_byte_of_string "RIFF"
                       /\ slice 8 4 wavFile = list_byte_of_string "WAVE"
                       /\ slice 20 2 wavFile = [x01; x00]).
  { rewrite badHeader_false_iff. unfold passes_validation, decode_WAVHeader.
    cbn [chunkID format audioFormat].
    rewrite !slice_of_header by (unfold sizeof_WAVHeader; lia).
    rewrite !string_of_list_byte_eq.
    assert (Hl : List.length (slice 20 2 wavFile) = 2%nat).
    { unfold slice. rewrite length_firstn, length_skipn.
      unfold sizeof_WAVHeader in Hlen. lia. }
    rewrite (le_combine_one _ Hl). reflexivity. }
  split; [exact Hbytes|].
  rewrite <- Hbytes, (body_on_whole_header fs path wavFile st Hopen Hlen).
  destruct (badHeader _).
  - split; [discriminate | reflexivity].
  - split; [|congruence].
    destruct (alignedSize (declared_size wavFile)) as [a|]; [|discriminate].
    destruct (store _ _); discriminate.
Qed.

(** The file that starts with ID3 has other bytes than RIFF at its start. *)
Lemma X10_witness_id3 :
  ifstream_open sample_fs "mp3.wav"
  = Some (list_byte_of_string "ID3" ++ skipn 3 (pcm_header 8))
  /\ (sizeof_WAVHeader
      <= List.length (list_byte_of_string "ID3" ++ skipn 3 (pcm_header 8)))%nat
  /\ fst (convertWAVToBIN_body sample_fs "mp3.wav"
            {| binFile := []; tracks := []; currentOffsetFrames := 0 |})
     = Throw "Invalid or unsupported WAV file format: mp3.wav".
Proof.
  split; [reflexivity|]. split; [vm_compute; lia|].
  apply (X10_validation_bytes sample_fs "mp3.wav"
           (list_byte_of_string "ID3" ++ skipn 3 (pcm_header 8))
           {| binFile := []; tracks := []; currentOffsetFrames := 0 |}).
  - reflexivity.
  - vm_compute; lia.
  - intros (Hriff & _). vm_compute in Hriff. discriminate.
Defined.

(** * Composition of runs *)

Lemma wrap32_add_r (a b : Z) : wrap32 (a + wrap32 b) = wrap32 (a + b).
Proof. unfold wrap32. apply Zplus_mod_idemp_r. Qed.

Lemma shift_track_wrap (frames : Z) (t : TrackInfo) :
  shift_track (wrap32 frames) t = shift_track frames t.
Proof. unfold shift_track. rewrite wrap32_add_r. reflexivity. Qed.

Lemma shift_track_shift (c f : Z) (t : TrackInfo) :
  shift_track c (shift_track f t) = shift_track (c + f) t.
Proof.
  unfold shift_track. cbn [title offsetFrames]. rewrite wrap32_add_l.
  f_equal. f_equal. lia.
Qed.

(** Whether an iteration succeeds does not depend on the state it starts in. *)
Lemma body_outcome_state (fs : FileSystem) (path : string) (st st' : ConvState) :
  fst (convertWAVToBIN_body fs path st) = fst (convertWAVToBIN_body fs path st').
Proof.
  unfold convertWAVToBIN_body.
  destruct (ifstream_open fs path) as [wavFile|]; [|reflexivity].
  destruct (read_WAVHeader wavFile) as [[header rest]|];
    [|destruct (badHeader_short wavFile) as [[|]|]; reflexivity].
  destruct (badHeader header); [reflexivity|].
  destruct (alignedSize (subchunk2Size header)) as [a|]; [|reflexivity].
  destruct (store _ _); reflexivity.
Qed.

(** The loop started in any state does what it does from the empty image,
    after what the state holds already: same outcome, bytes appended, tracks
    moved by the frames counted so far. *)
Lemma loop_relocate (fs : FileSystem) (paths : list string) (st : ConvState) :
  0 <= currentOffsetFrames st < 2 ^ 32 ->
  let fresh := convertWAVToBIN_loop fs paths
                 {| binFile := []; tracks := []; currentOffsetFrames := 0 |} in
  fst (convertWAVToBIN_loop fs paths st) = fst fresh
  /\ binFile (snd (convertWAVToBIN_loop fs paths st)) = binFile st ++ binFile (snd fresh)
  /\ tracks (snd (convertWAVToBIN_loop fs paths st))
     = tracks st ++ map (shift_track (currentOffsetFrames st)) (tracks (snd fresh))
  /\ currentOffsetFrames (snd (convertWAVToBIN_loop fs paths st))
     = wrap32 (currentOffsetFrames st + currentOffsetFrames (snd fresh)).
Proof.
  revert st. induction paths as [|p r IH]; intros st Hc; cbn zeta.
  - cbn. rewrite !app_nil_r, Z.add_0_r, wrap32_small by lia. repeat split.
  - cbn [convertWAVToBIN_loop].
    set (st0 := {| binFile := []; tracks := []; currentOffsetFrames := 0 |}).
    destruct (processable fs p) eqn:Hp.
    + rewrite (body_processable fs p st Hp), (body_processable fs p st0 Hp).
      cbn [binFile tracks currentOffsetFrames st0 app].
      match goal with
      | |- context [convertWAVToBIN_loop fs r ?s] =>
          lazymatch s with
          | context [binFile st] =>
              destruct (IH s (wrap32_range _)) as (I1 & I2 & I3 & I4)
          end
      end.
      match goal with
      | |- context [convertWAVToBIN_loop fs r ?s] =>
          lazymatch s with
          | context [binFile st] => fail
          | _ => destruct (IH s (wrap32_range _)) as (J1 & J2 & J3 & J4)
          end
      end.
      cbn zeta in *. cbn [binFile tracks currentOffsetFrames] in *.
      rewrite I1, I2, I3, I4, J1, J2, J3, J4.
      split; [reflexivity|]. split; [rewrite <- app_assoc; reflexivity|]. split.
      * rewrite <- app_assoc. f_equal. cbn [app map]. f_equal.
        -- unfold shift_track. cbn [title offsetFrames].
           rewrite Z.add_0_l, wrap32_small by lia. reflexivity.
        -- rewrite map_map. apply map_ext. intros t.
           rewrite !shift_track_wrap, shift_track_shift. reflexivity.
      * repeat (rewrite wrap32_add_l || rewrite wrap32_add_r). f_equal. lia.
    + assert (Hst0 : fst (convertWAVToBIN_body fs p st0) <> Ok tt).
      { intros H. apply body_Ok_inv in H. congruence. }
      assert (Hst : fst (convertWAVToBIN_body fs p st) <> Ok tt).
      { rewrite (body_outcome_state fs p st st0). exact Hst0. }
      pose proof (body_stopped_state fs p st Hst) as S1.
      pose proof (body_stopped_state fs p st0 Hst0) as S0.
      pose proof (body_outcome_state fs p st st0) as Hsame.
      destruct (convertWAVToBIN_body fs p st) as [r1 s1].
      destruct (convertWAVToBIN_body fs p st0) as [r0 s0].
      cbn [fst snd] in *. subst s1 s0 r1.
      destruct r0 as [[]|what|]; [congruence| |];
        cbn [fst snd st0 binFile tracks currentOffsetFrames map];
        rewrite !app_nil_r, Z.add_0_r, wrap32_small by lia; repeat split.
Qed.

(** The counter after a run of valid files of alignable size. *)
Lemma loop_processable_offset (fs : FileSystem) (paths : list string) (st : ConvState) :
  0 <= currentOffsetFrames st < 2 ^ 32 ->
  forallb (processable fs) paths = true ->
  currentOffsetFrames (snd (convertWAVToBIN_loop fs paths st))
  = wrap32 (currentOffsetFrames st + sum_frames fs paths).
Proof.
  revert st. induction paths as [|p r IH]; intros st Hc Hall.
  - cbn. rewrite Z.add_0_r, wrap32_small by lia. reflexivity.
  - forallb_cons Hall Hp Hr.
    cbn [convertWAVToBIN_loop sum_frames]. rewrite (body_processable fs p st Hp).
    rewrite IH by (cbn [currentOffsetFrames]; auto using wrap32_range).
    cbn [currentOffsetFrames]. rewrite wrap32_add_l. f_equal. lia.
Qed.

(** X11.  Runs compose.  When the files of [first] are all valid and of
    alignable size, converting [first ++ second] gives the image of [first]
    followed by the image that [second] gives on its own, ends the way the
    run on [second] ends (completed, or stopped by the same exception), and
    records the tracks of [first] followed by the tracks of [second] with
    each offset moved by the frames of [first] (modulo 2^32); titles are
    kept.  Tracks present in the list before the call stay in front. *)
Theorem X11_runs_compose (fs : FileSystem) (first second : list string)
    (binFilePath : string) (tracks0 : list TrackInfo) :
  ofstream_open fs binFilePath = true ->
  forallb (processable fs) first = true ->
  exists imageFirst imageSecond,
    binContents (convertWAVToBIN fs first binFilePath []) = Some imageFirst
    /\ binContents (convertWAVToBIN fs second binFilePath []) = Some imageSecond
    /\ binContents (convertWAVToBIN fs (first ++ second) binFilePath tracks0)
       = Some (imageFirst ++ imageSecond)
    /\ outcome (convertWAVToBIN fs (first ++ second) binFilePath tracks0)
       = outcome (convertWAVToBIN fs second binFilePath [])
    /\ tracksOut (convertWAVToBIN fs (first ++ second) binFilePath tracks0)
       = tracks0 ++ tracksOut (convertWAVToBIN fs first binFilePath [])
         ++ map (shift_track (sum_frames fs first))
                (tracksOut (convertWAVToBIN fs second binFilePath [])).
Proof.
  intros Hopen Hall.
  rewrite (convertWAVToBIN_processable fs first binFilePath [] Hopen Hall).
  cbn [binContents tracksOut app].
  unfold convertWAVToBIN. rewrite Hopen. cbn [negb].
  set (st0 := {| binFile := []; tracks := tracks0; currentOffsetFrames := 0 |}).
  destruct (loop_processable fs first st0 Hall) as [offset Hfirst].
  assert (Hoffset : offset = wrap32 (sum_frames fs first)).
  { pose proof (loop_processable_offset fs first st0) as H.
    rewrite Hfirst in H. cbn [snd currentOffsetFrames st0] in H.
    rewrite H by (assumption || lia). reflexivity. }
  rewrite (loop_app_ok fs first second st0 _ Hfirst).
  match goal with
  | |- context [convertWAVToBIN_loop fs second ?s] =>
      lazymatch s with
      | context [offset] =>
          destruct (loop_relocate fs second s) as (R1 & R2 & R3 & R4)
      end
  end.
  { cbn [currentOffsetFrames]. rewrite Hoffset. apply wrap32_range. }
  cbn zeta in R1, R2, R3. cbn [binFile tracks currentOffsetFrames st0 app] in R1, R2, R3 |- *.
  destruct (convertWAVToBIN_loop fs second
              {| binFile := []; tracks := []; currentOffsetFrames := 0 |}) as [r0 s0].
  match goal with
  | |- context [convertWAVToBIN_loop fs second ?s] =>
      destruct (convertWAVToBIN_loop fs second s) as [r1 s1]
  end.
  cbn [fst snd] in R1, R2, R3. cbn [binContents outcome tracksOut].
  exists (List.concat (map (spec_block fs) first)), (binFile s0).
  rewrite R1, R2, R3, Hoffset, <- app_assoc.
  repeat split. f_equal. f_equal. apply map_ext. intros t. apply shift_track_wrap.
Qed.

(** Two valid files, then an empty track and a file that is no WAV file. *)
Lemma X11_witness_two_then_two :
  ofstream_open sample_fs "disc.bin" = true
  /\ forallb (processable sample_fs) ["/music/one.wav"; "two.wav"] = true
  /\ exists imageFirst imageSecond,
       binContents (convertWAVToBIN sample_fs ["/music/one.wav"; "two.wav"] "disc.bin" [])
       = Some imageFirst
       /\ binContents (convertWAVToBIN sample_fs ["empty.wav"; "mp3.wav"] "disc.bin" [])
          = Some imageSecond
       /\ binContents (convertWAVToBIN sample_fs
                         (["/music/one.wav"; "two.wav"] ++ ["empty.wav"; "mp3.wav"])
                         "disc.bin" [{| title := "kept"; offsetFrames := 7 |}])
          = Some (imageFirst ++ imageSecond)
       /\ outcome (convertWAVToBIN sample_fs
                     (["/music/one.wav"; "two.wav"] ++ ["empty.wav"; "mp3.wav"])
                     "disc.bin" [{| title := "kept"; offsetFrames := 7 |}])
          = outcome (convertWAVToBIN sample_fs ["empty.wav"; "mp3.wav"] "disc.bin" [])
       /\ tracksOut (convertWAVToBIN sample_fs
                       (["/music/one.wav"; "two.wav"] ++ ["empty.wav"; "mp3.wav"])
                       "disc.bin" [{| title := "kept"; offsetFrames := 7 |}])
          = [{| title := "kept"; offsetFrames := 7 |}]
            ++ tracksOut (convertWAVToBIN sample_fs ["/music/one.wav"; "two.wav"]
                            "disc.bin" [])
            ++ map (shift_track (sum_frames sample_fs ["/music/one.wav"; "two.wav"]))
                   (tracksOut (convertWAVToBIN sample_fs ["empty.wav"; "mp3.wav"]
                                 "disc.bin" [])).
Proof.
  split; [reflexivity|]. split; [reflexivity|].
  apply (X11_runs_compose sample_fs ["/music/one.wav"; "two.wav"] ["empty.wav"; "mp3.wav"]
           "disc.bin" [{| title := "kept"; offsetFrames := 7 |}]); reflexivity.
Defined.
